(** * dbkit: transaction/savepoint manager and migration engine

    A shallow embedding of [tx.go], the migration engine ([Migrate],
    [applyMigration], [MigrationStatus], [GetAppliedMigrations],
    [checksumSQL]) and errors.go ([Error], [wrapError], [wrapPgError], the
    sentinel checks, the getters and [QueryResult]) of
    github.com/fernandezvara/dbkit, with the offset and cursor helpers of
    pagination.go and [RetryOnConflict] of versioning.go, which call the
    error wrapper. It comes with a small executable model of what the code
    talks to: database/sql's transaction handle and a PostgreSQL session
    with savepoints.

    Layout:
    - Go error values, the [Error] struct, [wrapError] and the checks on
      errors;
    - section [Model]: the database, with its persisted store, one
      session and a fault script;
    - section [Dbkit]: the embedded source functions, and [Prog], the
      callbacks that use a [Tx] only through its methods;
    - pagination.go and versioning.go;
    - section [Observations] and module [Demo]: what the statements speak
      of, and a small platform to run the code on;
    - section [Properties]: the lemmas and the theorems;
    - the theorems applied to runs on the small platform. *)

From Stdlib Require Import Ascii DecimalString DecimalZ.
From stdpp Require Import gmap strings list sorting.

#[local] Set Warnings "-clear-no-such-hyp".

Open Scope Z_scope.

(* ===================================================================== *)
(** * Go errors, and errors.go                                            *)
(* ===================================================================== *)

(** [type ErrorCode string] with its ten constants. *)
Inductive ErrorCode : Type :=
| CodeNotFound
| CodeDuplicate
| CodeForeignKey
| CodeCheckViolation
| CodeNotNullViolation
| CodeConnectionFailed
| CodeTimeout
| CodeSerialization
| CodeDeadlock
| CodeUnknown.

(** The string each constant stands for. *)
Definition ErrorCode_string (c : ErrorCode) : string :=
  match c with
  | CodeNotFound => "NOT_FOUND"
  | CodeDuplicate => "DUPLICATE"
  | CodeForeignKey => "FOREIGN_KEY"
  | CodeCheckViolation => "CHECK_VIOLATION"
  | CodeNotNullViolation => "NOT_NULL"
  | CodeConnectionFailed => "CONNECTION_FAILED"
  | CodeTimeout => "TIMEOUT"
  | CodeSerialization => "SERIALIZATION"
  | CodeDeadlock => "DEADLOCK"
  | CodeUnknown => "UNKNOWN"
  end.

(** [*pgconn.PgError], the fields the wrapper reads. They are fields of
    the server's ErrorResponse, so the record also stands for what the
    server answers and for what [pgdriver.Error] holds. *)
Record PgError : Type := mkPgError {
  pg_Severity : string;
  pg_Code : string;
  pg_Message : string;
  pg_Detail : string;
  pg_Hint : string;
  pg_TableName : string;
  pg_ColumnName : string;
  pg_ConstraintName : string
}.

(** [type Error struct], over the type [E] of the cause. *)
Record Error (E : Type) : Type := mkError {
  Code : ErrorCode;
  Message : string;
  Op : string;
  Table : string;
  Column : string;
  Constraint_ : string;
  Detail : string;
  Hint_ : string;
  Query : string;
  Cause : option E
}.
Arguments mkError {E}.
Arguments Code {E}.
Arguments Message {E}.
Arguments Op {E}.
Arguments Table {E}.
Arguments Column {E}.
Arguments Constraint_ {E}.
Arguments Detail {E}.
Arguments Hint_ {E}.
Arguments Query {E}.
Arguments Cause {E}.

#[local] Set Warnings "-register-all".

(** Values of Go's [error] interface that occur here. [None : option error]
    is the nil error. *)
Inductive error : Type :=
| ErrTxDone                                   (* sql.ErrTxDone *)
| ErrNoRows                                   (* sql.ErrNoRows *)
| errorString (s : string)                    (* errors.New(s) *)
| pgError (pe : PgError)                      (* *pgconn.PgError *)
| dbError (e : Error error)                   (* *dbkit.Error *)
| wrapErr (msg : string) (inner : error)      (* fmt.Errorf with one %w *)
| driverError (pe : PgError).                 (* pgdriver.Error *)

(** [func (e *Error) Error() string]. *)
Definition Error_Error {E} (e : Error E) : string :=
  let msg := "dbkit: " +:+ Message e in
  let msg := if String.eqb (Op e) "" then msg
             else "dbkit." +:+ Op e +:+ ": " +:+ Message e in
  let msg := if String.eqb (Table e) "" then msg
             else msg +:+ " (table: " +:+ Table e +:+ ")" in
  let msg := if String.eqb (Constraint_ e) "" then msg
             else msg +:+ " (constraint: " +:+ Constraint_ e +:+ ")" in
  msg.

(** [err.Error()]. *)
Definition error_string (err : error) : string :=
  match err with
  | ErrTxDone => "sql: transaction has already been committed or rolled back"
  | ErrNoRows => "sql: no rows in result set"
  | errorString s => s
  | pgError pe =>
      pg_Severity pe +:+ ": " +:+ pg_Message pe +:+
      " (SQLSTATE " +:+ pg_Code pe +:+ ")"
  | dbError e => Error_Error e
  | wrapErr msg _ => msg
  | driverError pe =>
      pg_Severity pe +:+ ": " +:+ pg_Message pe +:+
      " (SQLSTATE=" +:+ pg_Code pe +:+ ")"
  end.

(** [errors.Unwrap]. *)
Definition Unwrap (err : error) : option error :=
  match err with
  | dbError e => Cause e
  | wrapErr _ inner => Some inner
  | _ => None
  end.

(** [errors.As(err, &dbErr)] with [dbErr *Error]: the first [*Error] on the
    unwrap chain. *)
Fixpoint as_Error (err : error) : option (Error error) :=
  match err with
  | dbError e => Some e
  | wrapErr _ inner => as_Error inner
  | _ => None
  end.

(** [errors.As(err, &pgErr)] with [pgErr *pgconn.PgError]. *)
Fixpoint as_PgError (err : error) : option PgError :=
  match err with
  | pgError pe => Some pe
  | wrapErr _ inner => as_PgError inner
  | dbError e =>
      match Cause e with
      | Some c => as_PgError c
      | None => None
      end
  | _ => None
  end.

(** [func wrapPgError(pgErr *pgconn.PgError, op string) *Error]. *)
Definition wrapPgError (pgErr : PgError) (op : string) : Error error :=
  let e (code : ErrorCode) (message : string) :=
    {| Code := code; Message := message; Op := op;
       Table := pg_TableName pgErr; Column := pg_ColumnName pgErr;
       Constraint_ := pg_ConstraintName pgErr; Detail := pg_Detail pgErr;
       Hint_ := pg_Hint pgErr; Query := ""; Cause := Some (pgError pgErr) |} in
  let code := pg_Code pgErr in
  if String.eqb code "23505" then
    e CodeDuplicate "duplicate key value violates unique constraint"
  else if String.eqb code "23503" then
    e CodeForeignKey "foreign key constraint violation"
  else if String.eqb code "23502" then
    e CodeNotNullViolation "null value in column violates not-null constraint"
  else if String.eqb code "23514" then
    e CodeCheckViolation "check constraint violation"
  else if String.eqb code "40001" then
    e CodeSerialization "serialization failure, retry transaction"
  else if String.eqb code "40P01" then
    e CodeDeadlock "deadlock detected"
  else if String.eqb code "57014" then
    e CodeTimeout "query was cancelled due to timeout"
  else if String.eqb code "08000" || String.eqb code "08003"
          || String.eqb code "08006" then
    e CodeConnectionFailed "database connection failed"
  else
    e CodeUnknown (pg_Message pgErr).

(** [func wrapError(err error, op string) error], on a non-nil error. *)
Definition wrapError1 (err : error) (op : string) : error :=
  match as_Error err with
  | Some _ => err
  | None =>
      if String.eqb (error_string err) "sql: no rows in result set" then
        dbError {| Code := CodeNotFound; Message := "record not found";
                   Op := op; Table := ""; Column := ""; Constraint_ := "";
                   Detail := ""; Hint_ := ""; Query := "";
                   Cause := Some err |}
      else
        match as_PgError err with
        | Some pgErr => dbError (wrapPgError pgErr op)
        | None =>
            dbError {| Code := CodeUnknown; Message := error_string err;
                       Op := op; Table := ""; Column := ""; Constraint_ := "";
                       Detail := ""; Hint_ := ""; Query := "";
                       Cause := Some err |}
        end
  end.

(** [wrapError], nil included. *)
Definition wrapError (err : option error) (op : string) : option error :=
  match err with
  | None => None
  | Some e => Some (wrapError1 e op)
  end.

(** [func GetErrorCode(err error) (ErrorCode, bool)]; the Go zero value
    [("", false)] is [None]. *)
Definition GetErrorCode (err : error) : option ErrorCode :=
  match as_Error err with
  | Some dbErr => Some (Code dbErr)
  | None => None
  end.

(** The sentinel errors of errors.go. Go tells [errors.New] values apart by
    address; a value of that kind is named here by its text, and the texts
    of the sentinels differ from one another. *)
Definition ErrNotFound : error := errorString "dbkit: record not found".
Definition ErrDuplicate : error := errorString "dbkit: duplicate key violation".
Definition ErrForeignKey : error := errorString "dbkit: foreign key violation".
Definition ErrCheckViolation : error :=
  errorString "dbkit: check constraint violation".
Definition ErrNotNullViolation : error :=
  errorString "dbkit: not null violation".
Definition ErrConnection : error := errorString "dbkit: connection failed".
Definition ErrTimeout : error := errorString "dbkit: operation timeout".
Definition ErrSerialization : error :=
  errorString "dbkit: serialization failure".
Definition ErrDeadlock : error := errorString "dbkit: deadlock detected".

Definition sentinels : list error :=
  [ErrNotFound; ErrDuplicate; ErrForeignKey; ErrCheckViolation;
   ErrNotNullViolation; ErrConnection; ErrTimeout; ErrSerialization;
   ErrDeadlock].

(** [==] on two [ErrorCode]s, which are strings. *)
Definition ErrorCode_eqb (a b : ErrorCode) : bool :=
  String.eqb (ErrorCode_string a) (ErrorCode_string b).

Definition PgError_eqb (p q : PgError) : bool :=
  String.eqb (pg_Severity p) (pg_Severity q) &&
  String.eqb (pg_Code p) (pg_Code q) &&
  String.eqb (pg_Message p) (pg_Message q) &&
  String.eqb (pg_Detail p) (pg_Detail q) &&
  String.eqb (pg_Hint p) (pg_Hint q) &&
  String.eqb (pg_TableName p) (pg_TableName q) &&
  String.eqb (pg_ColumnName p) (pg_ColumnName q) &&
  String.eqb (pg_ConstraintName p) (pg_ConstraintName q).

(** [a == b] on two non-nil [error] values: the same value. A
    [pgdriver.Error] is a struct around a map, which Go does not compare:
    it equals no target, and [errors.Is] skips the comparison. *)
Fixpoint error_eqb (a b : error) : bool :=
  match a, b with
  | ErrTxDone, ErrTxDone => true
  | ErrNoRows, ErrNoRows => true
  | errorString s, errorString t => String.eqb s t
  | pgError p, pgError q => PgError_eqb p q
  | dbError e, dbError f =>
      ErrorCode_eqb (Code e) (Code f) &&
      String.eqb (Message e) (Message f) &&
      String.eqb (Op e) (Op f) &&
      String.eqb (Table e) (Table f) &&
      String.eqb (Column e) (Column f) &&
      String.eqb (Constraint_ e) (Constraint_ f) &&
      String.eqb (Detail e) (Detail f) &&
      String.eqb (Hint_ e) (Hint_ f) &&
      String.eqb (Query e) (Query f) &&
      match Cause e, Cause f with
      | Some c, Some d => error_eqb c d
      | None, None => true
      | _, _ => false
      end
  | wrapErr m i, wrapErr n j => String.eqb m n && error_eqb i j
  | _, _ => false
  end.

(** [func (e *Error) Is(target error) bool]. *)
Definition Error_Is (e : Error error) (target : error) : bool :=
  match Code e with
  | CodeNotFound => error_eqb target ErrNotFound
  | CodeDuplicate => error_eqb target ErrDuplicate
  | CodeForeignKey => error_eqb target ErrForeignKey
  | CodeCheckViolation => error_eqb target ErrCheckViolation
  | CodeNotNullViolation => error_eqb target ErrNotNullViolation
  | CodeConnectionFailed => error_eqb target ErrConnection
  | CodeTimeout => error_eqb target ErrTimeout
  | CodeSerialization => error_eqb target ErrSerialization
  | CodeDeadlock => error_eqb target ErrDeadlock
  | CodeUnknown => false
  end.

(** [errors.Is] down the unwrap chain of a non-nil error: the value itself,
    then its [Is] method, then what it wraps. *)
Fixpoint chain_Is (err target : error) : bool :=
  error_eqb err target ||
  match err with
  | dbError e =>
      Error_Is e target ||
      match Cause e with
      | Some c => chain_Is c target
      | None => false
      end
  | wrapErr _ inner => chain_Is inner target
  | _ => false
  end.

(** [errors.Is(err, target)] with a non-nil target. *)
Definition errors_Is (err : option error) (target : error) : bool :=
  match err with
  | Some e => chain_Is e target
  | None => false
  end.

(** [func IsNotFound(err error) bool] and its siblings. *)
Definition IsNotFound (err : option error) : bool := errors_Is err ErrNotFound.
Definition IsDuplicate (err : option error) : bool := errors_Is err ErrDuplicate.
Definition IsForeignKey (err : option error) : bool :=
  errors_Is err ErrForeignKey.
Definition IsCheckViolation (err : option error) : bool :=
  errors_Is err ErrCheckViolation.
Definition IsNotNullViolation (err : option error) : bool :=
  errors_Is err ErrNotNullViolation.
Definition IsConnection (err : option error) : bool :=
  errors_Is err ErrConnection.
Definition IsTimeout (err : option error) : bool := errors_Is err ErrTimeout.

(** [func IsRetryable(err error) bool]. *)
Definition IsRetryable (err : option error) : bool :=
  errors_Is err ErrSerialization || errors_Is err ErrDeadlock.

(** [errors.As(err, &dbErr)] on a possibly nil error. *)
Definition errors_As_Error (err : option error) : option (Error error) :=
  match err with
  | Some e => as_Error e
  | None => None
  end.

(** [func GetConstraint(err error) (string, bool)] and its siblings; the
    zero result [("", false)] is [None]. *)
Definition GetConstraint (err : option error) : option string :=
  match errors_As_Error err with
  | Some dbErr =>
      if negb (String.eqb (Constraint_ dbErr) "") then Some (Constraint_ dbErr)
      else None
  | None => None
  end.

Definition GetTable (err : option error) : option string :=
  match errors_As_Error err with
  | Some dbErr =>
      if negb (String.eqb (Table dbErr) "") then Some (Table dbErr) else None
  | None => None
  end.

Definition GetColumn (err : option error) : option string :=
  match errors_As_Error err with
  | Some dbErr =>
      if negb (String.eqb (Column dbErr) "") then Some (Column dbErr) else None
  | None => None
  end.

Definition GetDetail (err : option error) : option string :=
  match errors_As_Error err with
  | Some dbErr =>
      if negb (String.eqb (Detail dbErr) "") then Some (Detail dbErr) else None
  | None => None
  end.

Definition GetHint (err : option error) : option string :=
  match errors_As_Error err with
  | Some dbErr =>
      if negb (String.eqb (Hint_ dbErr) "") then Some (Hint_ dbErr) else None
  | None => None
  end.

(** [type QueryResult[T any] struct]. *)
Record QueryResult (T : Type) : Type := mkQueryResult {
  qr_result : T;
  qr_err : option error;
  qr_op : string
}.
Arguments mkQueryResult {T}.
Arguments qr_result {T}.
Arguments qr_err {T}.
Arguments qr_op {T}.

(** [func (qr *QueryResult[T]) Err() error]. *)
Definition QueryResult_Err {T} (qr : QueryResult T) : option error :=
  wrapError (qr_err qr) (qr_op qr).

(** [func (qr *QueryResult[T]) Unwrap() (T, error)]. *)
Definition QueryResult_Unwrap {T} (qr : QueryResult T) : T * option error :=
  (qr_result qr, wrapError (qr_err qr) (qr_op qr)).

(** [func (qr *QueryResult[T]) Result() T]. *)
Definition QueryResult_Result {T} (qr : QueryResult T) : T := qr_result qr.

(** [func (qr *QueryResult[T]) HasError() bool]. *)
Definition QueryResult_HasError {T} (qr : QueryResult T) : bool :=
  match qr_err qr with
  | Some _ => true
  | None => false
  end.

(** [func WithErr[T any](result T, err error, op string) *QueryResult[T]]. *)
Definition WithErr {T} (result : T) (err : option error) (op : string)
  : QueryResult T :=
  mkQueryResult result err op.

(** [func WithErr1(err error, op string) *QueryResult[struct{}]]. *)
Definition WithErr1 (err : option error) (op : string) : QueryResult unit :=
  mkQueryResult tt err op.

(** The sentinel [Error.Is] answers to under a code; none under
    [CodeUnknown]. *)
Definition sentinel (c : ErrorCode) : option error :=
  match c with
  | CodeNotFound => Some ErrNotFound
  | CodeDuplicate => Some ErrDuplicate
  | CodeForeignKey => Some ErrForeignKey
  | CodeCheckViolation => Some ErrCheckViolation
  | CodeNotNullViolation => Some ErrNotNullViolation
  | CodeConnectionFailed => Some ErrConnection
  | CodeTimeout => Some ErrTimeout
  | CodeSerialization => Some ErrSerialization
  | CodeDeadlock => Some ErrDeadlock
  | CodeUnknown => None
  end.

(** An error from outside the package: no [*Error] and no sentinel on its
    chain. *)
Definition foreign (err : error) : bool :=
  match as_Error err with
  | Some _ => false
  | None => forallb (fun s => negb (chain_Is err s)) sentinels
  end.

(** A string field as the getters report it: absent when empty. *)
Definition nonempty (s : string) : option string :=
  if String.eqb s "" then None else Some s.

(** [fmt.Sprintf("%d", n)]. *)
Definition fmt_d (n : Z) : string := NilEmpty.string_of_int (Z.to_int n).

(* ===================================================================== *)
(** * Constants and small helpers of the migration engine                 *)
(* ===================================================================== *)

(** [const migrationsTable]. *)
Definition migrationsTable : string := "
CREATE TABLE IF NOT EXISTS _dbkit_migrations (
    id VARCHAR(255) PRIMARY KEY,
    description TEXT,
    checksum VARCHAR(64) NOT NULL,
    applied_at TIMESTAMPTZ NOT NULL DEFAULT NOW(),
    duration_ms BIGINT NOT NULL
);
".

(** The raw query of [applyMigration]'s [tx.NewRaw]. *)
Definition insertMigration : string := "
            INSERT INTO _dbkit_migrations (id, description, checksum, duration_ms)
            VALUES (?, ?, ?, ?)
        ".

(** [func truncateSQL(sql string, maxLen int) string]. *)
Definition truncateSQL (sql : string) (maxLen : nat) : string :=
  if (String.length sql <=? maxLen)%nat then sql
  else String.substring 0 maxLen sql +:+ "...".

(** [encoding/hex]: two lowercase digits per byte. *)
Definition hex_digit (n : N) : Ascii.ascii :=
  match n with
  | 0%N => "0"%char | 1%N => "1"%char | 2%N => "2"%char | 3%N => "3"%char
  | 4%N => "4"%char | 5%N => "5"%char | 6%N => "6"%char | 7%N => "7"%char
  | 8%N => "8"%char | 9%N => "9"%char | 10%N => "a"%char | 11%N => "b"%char
  | 12%N => "c"%char | 13%N => "d"%char | 14%N => "e"%char | _ => "f"%char
  end.

Fixpoint hex_EncodeToString (src : string) : string :=
  match src with
  | EmptyString => EmptyString
  | String c rest =>
      let n := Ascii.N_of_ascii c in
      String (hex_digit (N.div n 16))
        (String (hex_digit (N.modulo n 16)) (hex_EncodeToString rest))
  end.

(** Go's [int64] arithmetic wraps around. *)
Definition wrap64 (z : Z) : Z := (z + 2 ^ 63) mod 2 ^ 64 - 2 ^ 63.

(** [strings.CutPrefix]-like helper used by the session model to read a
    statement. *)
Fixpoint strip_prefix (p s : string) : option string :=
  match p with
  | EmptyString => Some s
  | String c p' =>
      match s with
      | String d s' => if Ascii.eqb c d then strip_prefix p' s' else None
      | EmptyString => None
      end
  end.

(** The value of a hexadecimal digit. *)
Definition hex_val (c : Ascii.ascii) : N :=
  let n := Ascii.N_of_ascii c in
  if (n <? 58)%N then (n - 48)%N else (n - 87)%N.

(** The last character of a string. *)
Fixpoint last_char (s : string) : option Ascii.ascii :=
  match s with
  | EmptyString => None
  | String c EmptyString => Some c
  | String _ r => last_char r
  end.

(** [time.Millisecond], in nanoseconds. *)
Definition time_Millisecond : Z := 1000000.

(* ===================================================================== *)
(** * What the code runs on                                               *)
(* ===================================================================== *)

(** The code talks to PostgreSQL through bun and database/sql. None of
    that is in the repository, so it is modelled here, as an executable
    state machine [World] that the embedded functions thread through:

    - the persisted store, and at most one open physical transaction (the
      pool is one connection wide; the core is sequential), with its
      working store, its stack of savepoints and PostgreSQL's "aborted"
      flag: a failed statement poisons the transaction until ROLLBACK or
      ROLLBACK TO SAVEPOINT, and COMMIT of an aborted transaction rolls
      back without an error;
    - [sql.Tx]: a handle is done after Commit or Rollback, whatever they
      returned, and a done handle answers [sql.ErrTxDone];
    - a script of events, one per round trip, that injects latencies and
      connection faults: a faulted statement has no effect, a faulted
      COMMIT persists nothing;
    - the log of the statements sent, and a clock for [time.Now].

    [dbkit.New] opens the database with pgdriver, so an error the server
    answers with reaches the code as a [pgdriver.Error], [driverError]
    here, whose text is "severity: message (SQLSTATE=code)". A
    [*pgconn.PgError], [pgError], is what another driver would hand over;
    the model never returns one, and the statements about [wrapPgError]
    speak of [wrapError] given one.

    The SQL engine's reading of free-form statements and crypto/sha256 are
    parameters. [sql_sem q u] is the effect of the statement text [q] on
    the user's schema and data [u], or the error the server answers with.
    Free-form SQL acts on user objects only: the savepoint statements and
    the ledger's CREATE TABLE are read by the session model itself (see
    [classify]), and transaction control or ledger rows inside a
    migration's SQL are outside the model. *)
Class Platform : Type := {
  Schema : Type;
  sql_sem : string -> Schema -> Schema + PgError;
  Sum256 : string -> string
}.

(** A row of [_dbkit_migrations]. *)
Record LedgerRow : Type := mkLedgerRow {
  row_id : string;
  row_description : string;
  row_checksum : string;
  row_applied_at : Z;
  row_duration_ms : Z
}.

(** [sql.IsolationLevel]. *)
Inductive IsolationLevel : Type :=
| LevelDefault
| LevelReadUncommitted
| LevelReadCommitted
| LevelWriteCommitted
| LevelRepeatableRead
| LevelSnapshot
| LevelSerializable
| LevelLinearizable.

(** [type TxOptions struct]. *)
Record TxOptions : Type := mkTxOptions {
  Isolation : IsolationLevel;
  ReadOnly : bool
}.

(** One step of the fault script: how long the round trip takes and
    whether the connection fails it. *)
Record Event : Type := mkEvent {
  latency : Z;
  fault : option error
}.

(** What a Go call leaves behind: a value, or a panic on its way up. *)
Inductive outcome (A : Type) : Type :=
| Returned (a : A)
| Panicked (p : string).
Arguments Returned {A}.
Arguments Panicked {A}.

(** How the session reads a statement. *)
Inductive Stmt : Type :=
| StSavepoint (name : string)
| StRollbackTo (name : string)
| StRelease (name : string)
| StCreateLedger
| StOther.

Definition classify (q : string) : Stmt :=
  match strip_prefix "ROLLBACK TO SAVEPOINT " q with
  | Some name => StRollbackTo name
  | None =>
      match strip_prefix "RELEASE SAVEPOINT " q with
      | Some name => StRelease name
      | None =>
          match strip_prefix "SAVEPOINT " q with
          | Some name => StSavepoint name
          | None =>
              if String.eqb q migrationsTable then StCreateLedger else StOther
          end
      end
  end.

Definition pg_err (code message : string) : PgError :=
  mkPgError "ERROR" code message "" "" "" "" "".

Definition pg_aborted : PgError :=
  pg_err "25P02"
    "current transaction is aborted, commands ignored until end of transaction block".

Definition pg_no_savepoint (name : string) : PgError :=
  pg_err "3B001" ("savepoint " +:+ name +:+ " does not exist").

Definition pg_no_ledger : PgError :=
  pg_err "42P01" "relation _dbkit_migrations does not exist".

Definition pg_too_long : PgError :=
  pg_err "22001" "value too long for type character varying".

Definition pg_no_tx_block : PgError :=
  pg_err "25P01" "SAVEPOINT can only be used in transaction blocks".

Definition pg_duplicate_ledger : PgError :=
  mkPgError "ERROR" "23505"
    "duplicate key value violates unique constraint" "" ""
    "_dbkit_migrations" "" "_dbkit_migrations_pkey".

(** A select on the ledger table as bun is asked to build it: the
    [Column] names and the [OrderExpr] expressions, in call order. *)
Record LedgerSelect : Type := mkLedgerSelect {
  sel_Column : list string;
  sel_OrderExpr : list string
}.

Fixpoint join_comma (l : list string) : string :=
  match l with
  | [] => ""
  | [x] => x
  | x :: rest => x +:+ ", " +:+ join_comma rest
  end.

(** The statement that goes over the wire. *)
Definition select_text (q : LedgerSelect) : string :=
  "SELECT " +:+ join_comma (sel_Column q) +:+ " FROM _dbkit_migrations" +:+
  match sel_OrderExpr q with
  | [] => ""
  | exprs => " ORDER BY " +:+ join_comma exprs
  end.

(** Sorting by [applied_at], stable: rows of the same instant keep the
    order of the table. *)
Fixpoint insert_row (r : LedgerRow) (l : list LedgerRow) : list LedgerRow :=
  match l with
  | [] => [r]
  | x :: rest =>
      if row_applied_at r <=? row_applied_at x then r :: l
      else x :: insert_row r rest
  end.

Definition sort_rows (l : list LedgerRow) : list LedgerRow :=
  foldr insert_row [] l.

(** ORDER BY as the server reads it. The one expression the code sends,
    [applied_at ASC], sorts the rows by their time of application; with no
    ORDER BY the rows come in the order of the table. Other expressions
    are outside the model and leave the order of the table. *)
Definition order_by (exprs : list string) (rows : list LedgerRow)
  : list LedgerRow :=
  match exprs with
  | [e] => if String.eqb e "applied_at ASC" then sort_rows rows else rows
  | _ => rows
  end.

Section Model.
Context `{P : Platform}.

(** The data a transaction reads and writes: the user's schema and the
    ledger table ([None]: the table does not exist). *)
Record Store : Type := mkStore {
  user : Schema;
  ledger : option (list LedgerRow)
}.

(** An open physical transaction on the server. [saves] holds the
    savepoints, most recent first, each with the store it was taken at. *)
Record Session : Type := mkSession {
  options : TxOptions;
  work : Store;
  saves : list (string * Store);
  aborted : bool
}.

(** The database and the Go heap cells the code shares by pointer.
    The pool holds one connection: at most one physical transaction is
    open, and [session] tags it with its [sql.Tx] handle. *)
Record World : Type := mkWorld {
  committed : Store;
  session : option (nat * Session);
  next_tx : nat;
  cells : list Z;
  clock : Z;
  script : list Event;
  log : list string
}.

Definition set_committed (st : Store) (w : World) : World :=
  mkWorld st (session w) (next_tx w) (cells w) (clock w) (script w) (log w).

Definition set_session (s : option (nat * Session)) (w : World) : World :=
  mkWorld (committed w) s (next_tx w) (cells w) (clock w) (script w) (log w).

Definition set_cells (c : list Z) (w : World) : World :=
  mkWorld (committed w) (session w) (next_tx w) c (clock w) (script w) (log w).

(** One round trip to the server: the statement is logged, the next event
    of the script is consumed; an exhausted script means no delay and no
    fault. *)
Definition tick (q : string) (w : World) : option error * World :=
  match script w with
  | [] =>
      (None, mkWorld (committed w) (session w) (next_tx w) (cells w)
               (clock w) [] (log w ++ [q]))
  | ev :: rest =>
      (fault ev, mkWorld (committed w) (session w) (next_tx w) (cells w)
                   (clock w + latency ev) rest (log w ++ [q]))
  end.

(** ** The session: PostgreSQL's savepoint rules *)

(** ROLLBACK TO: the most recent savepoint of that name; it stays, the
    younger ones go. *)
Fixpoint rollback_to (name : string) (sv : list (string * Store))
  : option (Store * list (string * Store)) :=
  match sv with
  | [] => None
  | (n, st) :: rest =>
      if String.eqb n name then Some (st, sv) else rollback_to name rest
  end.

(** RELEASE: that savepoint and the younger ones go. *)
Fixpoint release (name : string) (sv : list (string * Store))
  : option (list (string * Store)) :=
  match sv with
  | [] => None
  | (n, st) :: rest =>
      if String.eqb n name then Some rest else release name rest
  end.

Definition session_exec (q : string) (s : Session) : Session + PgError :=
  match classify q with
  | StRollbackTo name =>
      match rollback_to name (saves s) with
      | Some (snap, keep) => inl (mkSession (options s) snap keep false)
      | None => inr (pg_no_savepoint name)
      end
  | st =>
      if aborted s then inr pg_aborted
      else
        match st with
        | StSavepoint name =>
            inl (mkSession (options s) (work s)
                   ((name, work s) :: saves s) false)
        | StRelease name =>
            match release name (saves s) with
            | Some keep => inl (mkSession (options s) (work s) keep false)
            | None => inr (pg_no_savepoint name)
            end
        | StCreateLedger =>
            inl (mkSession (options s)
                   (mkStore (user (work s))
                      (Some (default [] (ledger (work s)))))
                   (saves s) false)
        | _ =>
            match sql_sem q (user (work s)) with
            | inl u =>
                inl (mkSession (options s) (mkStore u (ledger (work s)))
                       (saves s) false)
            | inr e => inr e
            end
        end
  end.

(** The INSERT into the ledger: primary key on [id], VARCHAR bounds. *)
Definition session_insert (id description checksum : string)
    (duration_ms now : Z) (s : Session) : Session + PgError :=
  if aborted s then inr pg_aborted
  else
    match ledger (work s) with
    | None => inr pg_no_ledger
    | Some rows =>
        if (255 <? String.length id)%nat || (64 <? String.length checksum)%nat
        then inr pg_too_long
        else if existsb (fun r => String.eqb (row_id r) id) rows
        then inr pg_duplicate_ledger
        else
          inl (mkSession (options s)
                 (mkStore (user (work s))
                    (Some (rows ++
                       [mkLedgerRow id description checksum now duration_ms])))
                 (saves s) false)
    end.

Definition abort (s : Session) : Session :=
  mkSession (options s) (work s) (saves s) true.

(** ** database/sql and bun: the calls the code makes *)

Definition err_busy : error := errorString "dbkit model: connection busy".

(** [db.DB.BeginTx(ctx, &sql.TxOptions{...})]. *)
Definition BeginTx (opts : TxOptions) (w : World) : (nat + error) * World :=
  let '(f, w1) := tick "BEGIN" w in
  match f with
  | Some e => (inr e, w1)
  | None =>
      match session w1 with
      | Some _ => (inr err_busy, w1)
      | None =>
          let h := next_tx w1 in
          (inl h,
           mkWorld (committed w1)
             (Some (h, mkSession opts (committed w1) [] false))
             (S h) (cells w1) (clock w1) (script w1) (log w1))
      end
  end.

(** The open session of handle [h], if [h] is not done. *)
Definition live (h : nat) (w : World) : option Session :=
  match session w with
  | Some (h', s) => if Nat.eqb h h' then Some s else None
  | None => None
  end.

(** A statement sent inside the transaction [h]: a fault or a server error
    leaves the session aborted. *)
Definition in_tx (h : nat) (q : string) (step : Z -> Session -> Session + PgError)
    (w : World) : option error * World :=
  match live h w with
  | None => (Some ErrTxDone, w)
  | Some s =>
      let '(f, w1) := tick q w in
      match f with
      | Some e => (Some e, set_session (Some (h, abort s)) w1)
      | None =>
          match step (clock w1) s with
          | inl s' => (None, set_session (Some (h, s')) w1)
          | inr pe =>
              (Some (driverError pe), set_session (Some (h, abort s)) w1)
          end
      end
  end.

(** [bun.Tx.ExecContext(ctx, q)], error result only. *)
Definition bun_Tx_ExecContext (h : nat) (q : string) (w : World)
  : option error * World :=
  in_tx h q (fun _ => session_exec q) w.

(** [bun.Tx.NewRaw(insertMigration, id, description, checksum, ms).Exec(ctx)]. *)
Definition bun_Tx_insertMigration (h : nat) (id description checksum : string)
    (duration_ms : Z) (w : World) : option error * World :=
  in_tx h insertMigration
    (fun now => session_insert id description checksum duration_ms now) w.

(** [bun.Tx.Commit()]: [sql.ErrTxDone] once done; COMMIT of an aborted
    transaction is answered as a rollback, without an error. *)
Definition bun_Tx_Commit (h : nat) (w : World) : option error * World :=
  match live h w with
  | None => (Some ErrTxDone, w)
  | Some s =>
      let '(f, w1) := tick "COMMIT" w in
      match f with
      | Some e => (Some e, set_session None w1)
      | None =>
          if aborted s then (None, set_session None w1)
          else (None, set_committed (work s) (set_session None w1))
      end
  end.

(** [bun.Tx.Rollback()]. *)
Definition bun_Tx_Rollback (h : nat) (w : World) : option error * World :=
  match live h w with
  | None => (Some ErrTxDone, w)
  | Some s =>
      let '(f, w1) := tick "ROLLBACK" w in
      (f, set_session None w1)
  end.

(** [bun.DB.ExecContext(ctx, q)]: one statement in its own transaction. *)
Definition bun_DB_ExecContext (q : string) (w : World) : option error * World :=
  match session w with
  | Some _ => (Some err_busy, w)
  | None =>
      let '(f, w1) := tick q w in
      match f with
      | Some e => (Some e, w1)
      | None =>
          match classify q with
          | StSavepoint _ | StRollbackTo _ | StRelease _ =>
              (Some (driverError pg_no_tx_block), w1)
          | _ =>
              match session_exec q
                      (mkSession (mkTxOptions LevelDefault false)
                         (committed w1) [] false) with
              | inl s' => (None, set_committed (work s') w1)
              | inr pe => (Some (driverError pe), w1)
              end
          end
      end
  end.

Definition selectMigrations : string :=
  "SELECT id, checksum FROM _dbkit_migrations".

(** [db.NewSelect().TableExpr("_dbkit_migrations").Column("id",
    "checksum").Scan(ctx, &rows)]. *)
Definition bun_DB_selectMigrations (w : World)
  : (list (string * string) + error) * World :=
  match session w with
  | Some _ => (inr err_busy, w)
  | None =>
      let '(f, w1) := tick selectMigrations w in
      match f with
      | Some e => (inr e, w1)
      | None =>
          match ledger (committed w1) with
          | None => (inr (driverError pg_no_ledger), w1)
          | Some rows =>
              (inl (map (fun r => (row_id r, row_checksum r)) rows), w1)
          end
      end
  end.

(** [db.NewSelect().TableExpr("_dbkit_migrations").Column(...).
    OrderExpr(...).Scan(ctx, &rows)]: the rows of the ledger table, in the
    order the statement asks for. *)
Definition bun_DB_selectLedger (q : LedgerSelect) (w : World)
  : (list LedgerRow + error) * World :=
  match session w with
  | Some _ => (inr err_busy, w)
  | None =>
      let '(f, w1) := tick (select_text q) w in
      match f with
      | Some e => (inr e, w1)
      | None =>
          match ledger (committed w1) with
          | None => (inr (driverError pg_no_ledger), w1)
          | Some rows => (inl (order_by (sel_OrderExpr q) rows), w1)
          end
      end
  end.

(** [seq := int64(0)] followed by [&seq]. *)
Definition new_int64 (v : Z) (w : World) : nat * World :=
  (length (cells w), set_cells (cells w ++ [v]) w).

(** [atomic.AddInt64(p, delta)]. *)
Definition atomic_AddInt64 (p : nat) (delta : Z) (w : World) : Z * World :=
  let v := wrap64 (default 0 (cells w !! p) + delta) in
  (v, set_cells (<[p := v]> (cells w)) w).

(** [time.Now()] and [time.Since(t)], in nanoseconds. *)
Definition time_Now (w : World) : Z := clock w.
Definition time_Since (t : Z) (w : World) : Z := clock w - t.

(** [Duration.Milliseconds()]. *)
Definition Milliseconds (d : Z) : Z := Z.quot d 1000000.

End Model.

(* ===================================================================== *)
(** * tx.go                                                               *)
(* ===================================================================== *)

(** [type Tx struct]: the embedded [bun.Tx] is its handle, [savepointSeq]
    the address of the counter shared across nested transactions. The [db]
    field points at the one database, which is the world itself. *)
Record Tx : Type := mkTx {
  Tx_Tx : nat;
  savepointID : Z;
  savepointSeq : nat
}.

Definition DefaultTxOptions : TxOptions := mkTxOptions LevelDefault false.
Definition ReadOnlyTxOptions : TxOptions := mkTxOptions LevelDefault true.
Definition SerializableTxOptions : TxOptions :=
  mkTxOptions LevelSerializable false.

(** The two composite messages of tx.go. *)
Definition rollback_failed (rbErr err : error) : error :=
  wrapErr ("dbkit: rollback failed: " +:+ error_string rbErr +:+
           " (original error: " +:+ error_string err +:+ ")") err.

Definition savepoint_rollback_failed (rbErr err : error) : error :=
  wrapErr ("dbkit: savepoint rollback failed: " +:+ error_string rbErr +:+
           " (original error: " +:+ error_string err +:+ ")") err.

Section Dbkit.
Context `{P : Platform}.

(** [type TxFunc func(tx *Tx) error]. *)
Definition TxFunc : Type := Tx -> World -> outcome (option error) * World.

(** [func (tx *Tx) Commit() error]. *)
Definition Tx_Commit (tx : Tx) (w : World) : option error * World :=
  match bun_Tx_Commit (Tx_Tx tx) w with
  | (Some err, w1) => (wrapError (Some err) "Commit", w1)
  | (None, w1) => (None, w1)
  end.

(** [func (tx *Tx) Rollback() error]. *)
Definition Tx_Rollback (tx : Tx) (w : World) : option error * World :=
  match bun_Tx_Rollback (Tx_Tx tx) w with
  | (Some err, w1) =>
      match err with
      | ErrTxDone => (None, w1)
      | _ => (wrapError (Some err) "Rollback", w1)
      end
  | (None, w1) => (None, w1)
  end.

(** [tx.ExecContext], promoted from the embedded [bun.Tx]. *)
Definition Tx_ExecContext (tx : Tx) (q : string) (w : World)
  : option error * World :=
  bun_Tx_ExecContext (Tx_Tx tx) q w.

(** [func (db *DBKit) TransactionWithOptions(ctx, opts, fn) error]. The
    deferred [recover] is the [Panicked] branch. *)
Definition TransactionWithOptions (opts : TxOptions) (fn : TxFunc) (w : World)
  : outcome (option error) * World :=
  match BeginTx opts w with
  | (inr err, w1) => (Returned (wrapError (Some err) "Transaction.Begin"), w1)
  | (inl bunTx, w1) =>
      let '(seq, w2) := new_int64 0 w1 in
      let tx := mkTx bunTx 0 seq in
      match fn tx w2 with
      | (Panicked p, w3) =>
          let '(_, w4) := Tx_Rollback tx w3 in
          (Panicked p, w4)
      | (Returned (Some err), w3) =>
          match Tx_Rollback tx w3 with
          | (Some rbErr, w4) => (Returned (Some (rollback_failed rbErr err)), w4)
          | (None, w4) => (Returned (Some err), w4)
          end
      | (Returned None, w3) =>
          match Tx_Commit tx w3 with
          | (Some err, w4) =>
              (Returned (wrapError (Some err) "Transaction.Commit"), w4)
          | (None, w4) => (Returned None, w4)
          end
      end
  end.

(** [func (db *DBKit) Transaction(ctx, fn) error]. *)
Definition Transaction (fn : TxFunc) : World -> outcome (option error) * World :=
  TransactionWithOptions DefaultTxOptions fn.

(** [func (db *DBKit) ReadOnlyTransaction(ctx, fn) error]. *)
Definition ReadOnlyTransaction (fn : TxFunc)
  : World -> outcome (option error) * World :=
  TransactionWithOptions ReadOnlyTxOptions fn.

(** [func (db *DBKit) BeginWithOptions(ctx, opts) returning a Tx or an error]. *)
Definition BeginWithOptions (opts : TxOptions) (w : World)
  : (Tx + error) * World :=
  match BeginTx opts w with
  | (inr err, w1) => (inr (wrapError1 err "Begin"), w1)
  | (inl bunTx, w1) =>
      let '(seq, w2) := new_int64 0 w1 in
      (inl (mkTx bunTx 0 seq), w2)
  end.

(** [func (db *DBKit) Begin(ctx) returning a Tx or an error]. *)
Definition Begin : World -> (Tx + error) * World :=
  BeginWithOptions DefaultTxOptions.

(** [func (tx *Tx) Transaction(ctx, fn) error]. *)
Definition Tx_Transaction (tx : Tx) (fn : TxFunc) (w : World)
  : outcome (option error) * World :=
  let '(id, w1) := atomic_AddInt64 (savepointSeq tx) 1 w in
  let savepoint := "sp_" +:+ fmt_d id in
  match Tx_ExecContext tx ("SAVEPOINT " +:+ savepoint) w1 with
  | (Some err, w2) =>
      (Returned (wrapError (Some err) "Transaction.Savepoint"), w2)
  | (None, w2) =>
      let nestedTx := mkTx (Tx_Tx tx) id (savepointSeq tx) in
      match fn nestedTx w2 with
      | (Panicked p, w3) => (Panicked p, w3)
      | (Returned (Some err), w3) =>
          match Tx_ExecContext tx ("ROLLBACK TO SAVEPOINT " +:+ savepoint) w3 with
          | (Some rbErr, w4) =>
              (Returned (Some (savepoint_rollback_failed rbErr err)), w4)
          | (None, w4) => (Returned (Some err), w4)
          end
      | (Returned None, w3) =>
          match Tx_ExecContext tx ("RELEASE SAVEPOINT " +:+ savepoint) w3 with
          | (Some err, w4) =>
              (Returned (wrapError (Some err) "Transaction.ReleaseSavepoint"),
               w4)
          | (None, w4) => (Returned None, w4)
          end
      end
  end.

(** [func (tx *Tx) Savepoint(ctx, name) error]. *)
Definition Tx_Savepoint (tx : Tx) (name : string) (w : World)
  : option error * World :=
  let '(err, w1) := Tx_ExecContext tx ("SAVEPOINT " +:+ name) w in
  (wrapError err "Savepoint", w1).

(** [func (tx *Tx) RollbackTo(ctx, name) error]. *)
Definition Tx_RollbackTo (tx : Tx) (name : string) (w : World)
  : option error * World :=
  let '(err, w1) := Tx_ExecContext tx ("ROLLBACK TO SAVEPOINT " +:+ name) w in
  (wrapError err "RollbackTo", w1).

(** [func (tx *Tx) ReleaseSavepoint(ctx, name) error]. *)
Definition Tx_ReleaseSavepoint (tx : Tx) (name : string) (w : World)
  : option error * World :=
  let '(err, w1) := Tx_ExecContext tx ("RELEASE SAVEPOINT " +:+ name) w in
  (wrapError err "ReleaseSavepoint", w1).

(* ===================================================================== *)
(** * The migration engine                                                *)
(* ===================================================================== *)

(** [type Migration struct]. *)
Record Migration : Type := mkMigration {
  ID : string;
  Description : string;
  SQL : string
}.

(** [type AppliedMigration struct]; times in nanoseconds. *)
Record AppliedMigration : Type := mkAppliedMigration {
  am_ID : string;
  am_Description : string;
  am_AppliedAt : Z;
  am_Duration : Z;
  am_Checksum : string
}.

(** [type MigrationResult struct]. *)
Record MigrationResult : Type := mkMigrationResult {
  Applied : list AppliedMigration;
  Skipped : list string;
  TotalTime : Z
}.

(** [type MigrationStatusEntry struct]. *)
Record MigrationStatusEntry : Type := mkMigrationStatusEntry {
  se_ID : string;
  se_Description : string;
  se_Checksum : string;
  se_Applied : bool;
  se_ChecksumMatch : bool
}.

(** [func checksumSQL(sql string) string]. *)
Definition checksumSQL (sql : string) : string :=
  let hash := Sum256 sql in
  hex_EncodeToString hash.

(** [func (db *DBKit) getAppliedMigrations(ctx) returning map[string]string or an error]. *)
Definition getAppliedMigrations (w : World)
  : (gmap string string + error) * World :=
  match bun_DB_selectMigrations w with
  | (inr err, w1) => (inr (wrapError1 err "Migrate.GetApplied"), w1)
  | (inl rows, w1) =>
      (inl (foldl (fun result row => <[row.1 := row.2]> result) ∅ rows), w1)
  end.

(** The error a failing migration statement is reported with. *)
Definition apply_error (m : Migration) (err : error) : error :=
  dbError {| Code := CodeUnknown;
             Message := "migration " +:+ ID m +:+ " failed: " +:+
                        error_string err;
             Op := "Migrate.Apply"; Table := ""; Column := "";
             Constraint_ := ""; Detail := ""; Hint_ := "";
             Query := truncateSQL (SQL m) 200; Cause := Some err |}.

(** The callback of [applyMigration]. *)
Definition applyMigration_fn (m : Migration) (checksum : string)
    (startTime : Z) : TxFunc := fun tx w =>
  match Tx_ExecContext tx (SQL m) w with
  | (Some err, w1) => (Returned (Some (apply_error m err)), w1)
  | (None, w1) =>
      let durationMs := Milliseconds (time_Since startTime w1) in
      match bun_Tx_insertMigration (Tx_Tx tx) (ID m) (Description m) checksum
              durationMs w1 with
      | (Some err, w2) => (Returned (wrapError (Some err) "Migrate.Record"), w2)
      | (None, w2) => (Returned None, w2)
      end
  end.

(** [func (db *DBKit) applyMigration(ctx, m, checksum, startTime) error]. *)
Definition applyMigration (m : Migration) (checksum : string) (startTime : Z)
  : World -> outcome (option error) * World :=
  Transaction (applyMigration_fn m checksum startTime).

(** The error of a changed migration. *)
Definition drift_error (id existing checksum : string) : error :=
  dbError {| Code := CodeUnknown;
             Message := "migration " +:+ id +:+
                        " has changed (checksum mismatch: expected " +:+
                        existing +:+ ", got " +:+ checksum +:+ ")";
             Op := "Migrate"; Table := ""; Column := ""; Constraint_ := "";
             Detail := ""; Hint_ := ""; Query := ""; Cause := None |}.

Definition table_error (op : string) (err : error) : error :=
  dbError {| Code := CodeUnknown;
             Message := "failed to create migrations table";
             Op := op; Table := ""; Column := ""; Constraint_ := "";
             Detail := ""; Hint_ := ""; Query := ""; Cause := Some err |}.

(** The [for _, m := range migrations] loop of [Migrate]. *)
Fixpoint Migrate_loop (applied : gmap string string)
    (migrations : list Migration) (result : MigrationResult) (w : World)
  : outcome (MigrationResult + error) * World :=
  match migrations with
  | [] => (Returned (inl result), w)
  | m :: rest =>
      let checksum := checksumSQL (SQL m) in
      match applied !! ID m with
      | Some existing =>
          if negb (String.eqb existing checksum) then
            (Returned (inr (drift_error (ID m) existing checksum)), w)
          else
            Migrate_loop applied rest
              (mkMigrationResult (Applied result) (Skipped result ++ [ID m])
                 (TotalTime result)) w
      | None =>
          let migrationStart := time_Now w in
          match applyMigration m checksum migrationStart w with
          | (Panicked p, w1) => (Panicked p, w1)
          | (Returned (Some err), w1) => (Returned (inr err), w1)
          | (Returned None, w1) =>
              let duration := time_Since migrationStart w1 in
              Migrate_loop applied rest
                (mkMigrationResult
                   (Applied result ++
                      [mkAppliedMigration (ID m) (Description m) (time_Now w1)
                         duration checksum])
                   (Skipped result) (TotalTime result)) w1
          end
      end
  end.

(** [func (db *DBKit) Migrate(ctx, migrations) returning a result or an error]. *)
Definition Migrate (migrations : list Migration) (w : World)
  : outcome (MigrationResult + error) * World :=
  let start := time_Now w in
  let result := mkMigrationResult [] [] 0 in
  match bun_DB_ExecContext migrationsTable w with
  | (Some err, w1) => (Returned (inr (table_error "Migrate" err)), w1)
  | (None, w1) =>
      match getAppliedMigrations w1 with
      | (inr err, w2) => (Returned (inr err), w2)
      | (inl applied, w2) =>
          match Migrate_loop applied migrations result w2 with
          | (Returned (inl result), w3) =>
              (Returned (inl (mkMigrationResult (Applied result)
                                (Skipped result) (time_Since start w3))), w3)
          | other => other
          end
      end
  end.

(** The loop of [MigrationStatus]. *)
Definition status_entry (applied : gmap string string) (m : Migration)
  : MigrationStatusEntry :=
  let checksum := checksumSQL (SQL m) in
  match applied !! ID m with
  | Some appliedChecksum =>
      mkMigrationStatusEntry (ID m) (Description m) checksum true
        (String.eqb appliedChecksum checksum)
  | None =>
      mkMigrationStatusEntry (ID m) (Description m) checksum false false
  end.

(** [func (db *DBKit) MigrationStatus(ctx, migrations)],
    returning the entries or an error. *)
Definition MigrationStatus (migrations : list Migration) (w : World)
  : (list MigrationStatusEntry + error) * World :=
  match bun_DB_ExecContext migrationsTable w with
  | (Some err, w1) => (inr (table_error "MigrationStatus" err), w1)
  | (None, w1) =>
      match getAppliedMigrations w1 with
      | (inr err, w2) => (inr err, w2)
      | (inl applied, w2) => (inl (map (status_entry applied) migrations), w2)
      end
  end.

(** The loop body of [GetAppliedMigrations]: one ledger row as an
    [AppliedMigration]. *)
Definition applied_of_row (row : LedgerRow) : AppliedMigration :=
  mkAppliedMigration (row_id row) (row_description row) (row_applied_at row)
    (wrap64 (row_duration_ms row * time_Millisecond)) (row_checksum row).

(** The query of [GetAppliedMigrations]. *)
Definition selectApplied : LedgerSelect :=
  mkLedgerSelect
    ["id"; "description"; "checksum"; "applied_at"; "duration_ms"]
    ["applied_at ASC"].

(** [func (db *DBKit) GetAppliedMigrations(ctx)], returning the applied
    migrations or an error. *)
Definition GetAppliedMigrations (w : World)
  : (list AppliedMigration + error) * World :=
  match bun_DB_ExecContext migrationsTable w with
  | (Some err, w1) => (inr (table_error "GetAppliedMigrations" err), w1)
  | (None, w1) =>
      match bun_DB_selectLedger selectApplied w1 with
      | (inr err, w2) => (inr (wrapError1 err "GetAppliedMigrations"), w2)
      | (inl rows, w2) => (inl (map applied_of_row rows), w2)
      end
  end.

(* ===================================================================== *)
(** * Callbacks                                                           *)
(* ===================================================================== *)

(** The body of a [TxFunc] that touches the database only through its
    [tx]: it runs statements, opens nested scopes, returns or panics. *)
Inductive Prog : Type :=
| Return (err : option error)
| Panic (p : string)
| Exec (query : string) (k : option error -> Prog)
| Nested (fn : Prog) (k : option error -> Prog).

Fixpoint run (p : Prog) (tx : Tx) (w : World) {struct p}
  : outcome (option error) * World :=
  match p with
  | Return err => (Returned err, w)
  | Panic v => (Panicked v, w)
  | Exec query k =>
      let '(err, w1) := Tx_ExecContext tx query w in
      run (k err) tx w1
  | Nested fn k =>
      match Tx_Transaction tx (run fn) w with
      | (Returned err, w1) => run (k err) tx w1
      | (Panicked v, w1) => (Panicked v, w1)
      end
  end.

End Dbkit.

(* ===================================================================== *)
(** * pagination.go                                                       *)
(* ===================================================================== *)

(** A bun select query is what was asked of the builder: the calls made
    on it, in order. What bun makes of them is outside the repository. *)
Inductive QCall : Type :=
| QModel
| QLimit (n : Z)
| QOffset (n : Z)
| QWhere (cond : string) (args : list string)
| QOrder (expr : string).

Definition SelectQuery : Type := list QCall.

(** [type PageInfo struct]. *)
Record PageInfo : Type := mkPageInfo {
  HasNextPage : bool;
  HasPreviousPage : bool;
  StartCursor : string;
  EndCursor : string;
  TotalCount : Z
}.

(** [type OffsetPage[T any] struct]. *)
Record OffsetPage (T : Type) : Type := mkOffsetPage {
  Items : list T;
  Page : Z;
  PageSize : Z;
  TotalItems : Z;
  TotalPages : Z;
  Page_Info : PageInfo
}.
Arguments mkOffsetPage {T}.
Arguments Items {T}.
Arguments Page {T}.
Arguments PageSize {T}.
Arguments TotalItems {T}.
Arguments TotalPages {T}.
Arguments Page_Info {T}.

Definition DefaultPageSize : Z := 20.
Definition MaxPageSize : Z := 100.

(** [func Paginate(page, pageSize int)], returning a query modifier;
    [int] is 64 bits wide. *)
Definition Paginate (page pageSize : Z) : SelectQuery -> SelectQuery :=
  let page := if page <? 1 then 1 else page in
  let pageSize := if pageSize <? 1 then DefaultPageSize else pageSize in
  let pageSize := if MaxPageSize <? pageSize then MaxPageSize else pageSize in
  let offset := wrap64 (wrap64 (page - 1) * pageSize) in
  fun q => q ++ [QLimit pageSize; QOffset offset].

(** [func PaginateWithCount[T any](ctx, db, page, pageSize, queryFn)],
    returning a page or an error. [db_Count] and [db_Scan] are the
    database's answers to [Count(ctx)] and [Scan(ctx)] on a query;
    [queryFn] is [None] for nil. *)
Definition PaginateWithCount {T : Type}
    (db_Count : SelectQuery -> Z + error)
    (db_Scan : SelectQuery -> list T + error)
    (page pageSize : Z) (queryFn : option (SelectQuery -> SelectQuery))
  : OffsetPage T + error :=
  let page := if page <? 1 then 1 else page in
  let pageSize := if pageSize <? 1 then DefaultPageSize else pageSize in
  let pageSize := if MaxPageSize <? pageSize then MaxPageSize else pageSize in
  let offset := wrap64 (wrap64 (page - 1) * pageSize) in
  let countQuery := [QModel] in
  let countQuery :=
    match queryFn with
    | Some f => f countQuery
    | None => countQuery
    end in
  match db_Count countQuery with
  | inr err => inr (wrapError1 err "PaginateWithCount.Count")
  | inl totalCount =>
      let itemsQuery := [QModel; QLimit pageSize; QOffset offset] in
      let itemsQuery :=
        match queryFn with
        | Some f => f itemsQuery
        | None => itemsQuery
        end in
      match db_Scan itemsQuery with
      | inr err => inr (wrapError1 err "PaginateWithCount.Scan")
      | inl items =>
          let totalPages :=
            Z.quot (wrap64 (wrap64 (totalCount + pageSize) - 1)) pageSize in
          let totalPages := if totalPages <? 1 then 1 else totalPages in
          inl (mkOffsetPage items page pageSize totalCount totalPages
                 (mkPageInfo (page <? totalPages) (1 <? page) "" ""
                    totalCount))
      end
  end.

(** [func CursorPaginateResult[T any](items, limit, forward, cursorFn)];
    [items[:limit]] panics on a negative [limit]. *)
Definition CursorPaginateResult {T : Type} (items : list T) (limit : Z)
    (forward : bool) (cursorFn : T -> string)
  : outcome (list T * PageInfo) :=
  match items with
  | [] => Returned (items, mkPageInfo false false "" "" 0)
  | _ =>
      let hasMore := limit <? Z.of_nat (length items) in
      if hasMore && (limit <? 0) then
        Panicked "runtime error: slice bounds out of range"
      else
        let items := if hasMore then take (Z.to_nat limit) items else items in
        let items := if negb forward then reverse items else items in
        let startCursor :=
          match head items with
          | Some x => cursorFn x
          | None => ""
          end in
        let endCursor :=
          match last items with
          | Some x => cursorFn x
          | None => ""
          end in
        Returned (items,
                  if forward
                  then mkPageInfo hasMore false startCursor endCursor 0
                  else mkPageInfo false hasMore startCursor endCursor 0)
  end.

(* ===================================================================== *)
(** * versioning.go                                                       *)
(* ===================================================================== *)

Definition ErrConflict : error :=
  errorString "dbkit: optimistic locking conflict - record was modified".

(** [func IsConflict(err error) bool]. *)
Definition IsConflict (err : option error) : bool := errors_Is err ErrConflict.

(** The loop of [RetryOnConflict], with [n] rounds to go; [fn] acts on a
    state of its own. *)
Fixpoint RetryOnConflict_loop {St : Type} (n : nat)
    (fn : St -> option error * St) (lastErr : option error) (s : St)
  : option error * St :=
  match n with
  | O => (lastErr, s)
  | S n' =>
      let '(err, s1) := fn s in
      match err with
      | None => (None, s1)
      | Some _ =>
          if negb (IsConflict err) then (err, s1)
          else RetryOnConflict_loop n' fn err s1
      end
  end.

(** [func RetryOnConflict(ctx, maxRetries, fn) error]. *)
Definition RetryOnConflict {St : Type} (maxRetries : Z)
    (fn : St -> option error * St) (s : St) : option error * St :=
  RetryOnConflict_loop (Z.to_nat maxRetries) fn None s.

(** [fn], keeping a record of what each call returned. *)
Definition traced {St : Type} (fn : St -> option error * St)
  : list (option error) * St -> option error * (list (option error) * St) :=
  fun '(tr, s) => let '(e, s') := fn s in (e, (tr ++ [e], s')).

(* ===================================================================== *)
(** * Observations used in the statements                                 *)
(* ===================================================================== *)

Section Observations.
Context `{P : Platform}.

(** The rows of the ledger; none when the table does not exist. *)
Definition ledger_rows (st : Store) : list LedgerRow := default [] (ledger st).

(** The id-to-checksum map [getAppliedMigrations] builds from a store. *)
Definition ledger_map (st : Store) : gmap string string :=
  foldl (fun result row => <[row.1 := row.2]> result) ∅
    (map (fun r => (row_id r, row_checksum r)) (ledger_rows st)).

(** The fault, if any, the next round trip meets. *)
Definition next_fault (w : World) : option error :=
  match script w with
  | [] => None
  | ev :: _ => fault ev
  end.

(** The next [n] round trips meet no fault. *)
Definition calm (n : nat) (w : World) : Prop :=
  Forall (fun ev => fault ev = None) (take n (script w)).

(** [sub] occurs in [s]. *)
Definition contains (sub s : string) : Prop :=
  exists pre post, s = pre +:+ sub +:+ post.

(** Statements that drive savepoints. *)
Definition is_control (q : string) : bool :=
  match classify q with
  | StSavepoint _ | StRollbackTo _ | StRelease _ => true
  | _ => false
  end.

(** A callback that leaves savepoints to [Tx.Transaction]. *)
Fixpoint plain (p : Prog) : Prop :=
  match p with
  | Return _ => True
  | Panic _ => True
  | Exec query k => is_control query = false /\ forall err, plain (k err)
  | Nested fn k => plain fn /\ forall err, plain (k err)
  end.

(** The names of the SAVEPOINT statements of a log, in order. *)
Definition savepoints_of (l : list string) : list string :=
  omap (strip_prefix "SAVEPOINT ") l.

(** The name [Tx.Transaction] gives the [j]-th scope opened after the
    counter read [c]. *)
Definition savepoint_name (c : Z) (j : nat) : string :=
  "sp_" +:+ fmt_d (wrap64 (c + Z.of_nat j)).

(** The round trips of one applied migration. *)
Definition apply_log (m : Migration) : list string :=
  ["BEGIN"; SQL m; insertMigration; "COMMIT"].

(** The session a fresh transaction starts with. *)
Definition fresh (opts : TxOptions) (st : Store) : Session :=
  mkSession opts st [] false.

(** The counter a scope shares, read through its pointer. *)
Definition counter (seq : nat) (w : World) : Z := default 0 (cells w !! seq).

(** The counter [a] increments after it read [c]. *)
Definition ctr (c : Z) (a : nat) : Z :=
  match a with
  | O => c
  | S _ => wrap64 (c + Z.of_nat a)
  end.

(** The names of the next [a] scopes. *)
Definition names_from (c : Z) (a : nat) : list string :=
  map (savepoint_name c) (seq 1 a).

(** A scope in good standing: its transaction is open and its counter
    allocated. *)
Definition Tx_ok (tx : Tx) (w : World) : Prop :=
  is_Some (live (Tx_Tx tx) w) /\ (savepointSeq tx < length (cells w))%nat.

(** What code that uses the transaction [h] only through [Tx] methods
    does to the world while it opens [a] scopes: nothing is persisted, the
    transaction stays open, the savepoints it leaves are its own and sit
    on top of the older ones, and only the counter cell moves. *)
Record advances (h seq a : nat) (w w' : World) : Prop := mkAdvances {
  adv_committed : committed w' = committed w;
  adv_next_tx : next_tx w' = next_tx w;
  adv_cells : cells w' = <[seq := ctr (counter seq w) a]> (cells w);
  adv_session :
    exists s s' extra,
      session w = Some (h, s) /\ session w' = Some (h, s') /\
      options s' = options s /\ saves s' = extra ++ saves s /\
      Forall (fun n => n ∈ names_from (counter seq w) a) extra.*1;
  adv_log :
    exists added,
      log w' = log w ++ added /\
      savepoints_of added = names_from (counter seq w) a /\
      (a <= length added)%nat
}.

(** A callback that keeps the invariant, under every handle of the same
    physical transaction. *)
Definition scoped (h seq : nat) (fn : TxFunc) : Prop :=
  forall tx w,
    Tx_Tx tx = h -> savepointSeq tx = seq -> Tx_ok tx w ->
    exists a, advances h seq a w (fn tx w).2.

(** The weaker frame every callback keeps, plain or not: nothing is
    persisted and the transaction stays open. *)
Definition keeps (h : nat) (w w' : World) : Prop :=
  committed w' = committed w /\ is_Some (live h w') /\
  exists added, log w' = log w ++ added.

End Observations.


(* ===================================================================== *)
(** * A small platform to run the code on                                 *)
(* ===================================================================== *)

Module Demo.

(** A stand-in digest: the first 32 bytes of the text, zero-padded. *)
Fixpoint pad (n : nat) (s : string) : string :=
  match n with
  | O => EmptyString
  | S n' =>
      match s with
      | EmptyString => String Ascii.zero (pad n' EmptyString)
      | String c r => String c (pad n' r)
      end
  end.

(** The schema is the list of statements that took effect; a statement
    that starts with INVALID is a syntax error. *)
Definition platform : Platform := {|
  Schema := list string;
  sql_sem := fun q u =>
    if String.prefix "INVALID" q then inr (pg_err "42601" "syntax error")
    else inl (u ++ [q]);
  Sum256 := pad 32
|}.

Definition store (u : list string) (l : option (list LedgerRow))
  : @Store platform := @mkStore platform u l.

(** An empty database; with a script. *)
Definition empty_db : @World platform :=
  @mkWorld platform (store [] None) None 0 [] 0 [] [].

Definition scripted (evs : list Event) : @World platform :=
  @mkWorld platform (store [] None) None 0 [] 0 evs [].

Definition ok : Event := mkEvent 1000000 None.
Definition lost : Event := mkEvent 1000000 (Some (errorString "connection lost")).

Definition M1 : Migration := mkMigration "m1" "users" "CREATE TABLE users".
Definition M2 : Migration := mkMigration "m2" "broken" "INVALID SQL".
Definition M3 : Migration := mkMigration "m3" "orders" "CREATE TABLE orders".
Definition M1' : Migration := mkMigration "m1" "users" "CREATE TABLE people".
Definition Mb : Migration := mkMigration "b_002" "b" "CREATE TABLE b".
Definition Ma : Migration := mkMigration "a_001" "a" "CREATE TABLE a".

Definition boom : error := errorString "nested transaction error".

(** W1; a nested scope that writes W2 and fails; W3. *)
Definition nested_rollback : Prog :=
  Exec "W1" (fun _ =>
  Nested (Exec "W2" (fun _ => Return (Some boom))) (fun _ =>
  Exec "W3" (fun _ => Return None))).

Definition failing : Prog := Exec "W1" (fun _ => Return (Some boom)).
Definition panicking : Prog := Exec "W1" (fun _ => Panic "index out of range").

(** The result a call returned, when it returned one. *)
Definition result_of (o : outcome (MigrationResult + error)) : MigrationResult :=
  match o with
  | Returned (inl r) => r
  | _ => mkMigrationResult [] [] 0
  end.

(** The database after [M1] was applied to the empty one. *)
Definition db1 : @World platform := (Migrate [M1] empty_db).2.

(** The first scope of a transaction on the empty database. *)
Definition tx0 : Tx := mkTx 0 0 0.
Definition opened : @World platform :=
  (new_int64 0 (BeginTx DefaultTxOptions empty_db).2).2.
Definition failing_body : Prog := Exec "W2" (fun _ => Return (Some boom)).

(** BEGIN and W1 go through, the connection is lost on ROLLBACK. *)
Definition lossy : @World platform := scripted [ok; ok; lost].
Definition begun : @World platform := (BeginTx DefaultTxOptions lossy).2.
Definition tx1 : Tx := mkTx 0 0 (length (cells begun)).

(** One statement, then nil. *)
Definition writes : Prog := Exec "W1" (fun _ => Return None).

(** Two conflicts, then success. *)
Definition flaky (n : nat) : option error * nat :=
  match n with
  | O | S O => (Some ErrConflict, S n)
  | _ => (None, S n)
  end.

End Demo.

(* ===================================================================== *)
(** * Properties                                                          *)
(* ===================================================================== *)

Section Properties.
Context `{P : Platform}.

(** ** Round trips *)

Lemma tick_spec (q : string) (w : World) :
  exists clk scr,
    tick q w = (next_fault w,
                mkWorld (committed w) (session w) (next_tx w) (cells w)
                  clk scr (log w ++ [q])).
Proof.
  unfold tick, next_fault. destruct (script w) as [|ev rest]; eauto.
Qed.

Lemma live_Some (h : nat) (w : World) (s : Session) :
  live h w = Some s <-> session w = Some (h, s).
Proof.
  unfold live. destruct (session w) as [[h' s']|]; [|split; discriminate].
  destruct (Nat.eqb_spec h h') as [->|Hne]; split; intros H; try congruence.
Qed.

(** ** Counter arithmetic and savepoint names *)

Lemma fmt_d_inj (x y : Z) : fmt_d x = fmt_d y -> x = y.
Proof.
  unfold fmt_d. intros H.
  assert (Hi : Z.to_int x = Z.to_int y).
  { pose proof (NilEmpty.isi (Z.to_int x)) as H1.
    pose proof (NilEmpty.isi (Z.to_int y)) as H2.
    rewrite H in H1. congruence. }
  rewrite <- (DecimalZ.of_to x), <- (DecimalZ.of_to y). congruence.
Qed.

Lemma wrap64_add_l (x y : Z) : wrap64 (wrap64 x + y) = wrap64 (x + y).
Proof.
  unfold wrap64. f_equal.
  replace (((x + 2 ^ 63) mod 2 ^ 64 - 2 ^ 63 + y + 2 ^ 63))
    with ((x + 2 ^ 63) mod 2 ^ 64 + y) by lia.
  rewrite Zplus_mod_idemp_l. f_equal. lia.
Qed.

Lemma wrap64_eq (x y : Z) : wrap64 x = wrap64 y -> (x - y) mod 2 ^ 64 = 0.
Proof.
  unfold wrap64. intros H.
  assert ((x + 2 ^ 63) mod 2 ^ 64 = (y + 2 ^ 63) mod 2 ^ 64) by lia.
  replace (x - y) with ((x + 2 ^ 63) - (y + 2 ^ 63)) by lia.
  rewrite Zminus_mod, H0, Z.sub_diag. reflexivity.
Qed.

Lemma wrap64_small (x : Z) : - 2 ^ 63 <= x < 2 ^ 63 -> wrap64 x = x.
Proof. intros H. unfold wrap64. rewrite Z.mod_small; lia. Qed.

Lemma savepoint_name_inj (c : Z) (i j : nat) :
  Z.abs (Z.of_nat i - Z.of_nat j) < 2 ^ 64 ->
  savepoint_name c i = savepoint_name c j -> i = j.
Proof.
  intros Hij H. unfold savepoint_name in H.
  injection H as H. apply fmt_d_inj, wrap64_eq in H.
  replace (c + Z.of_nat i - (c + Z.of_nat j))
    with (Z.of_nat i - Z.of_nat j) in H by lia.
  apply Z.mod_divide in H; [|lia]. destruct H as [k Hk].
  assert (k = 0) by nia. lia.
Qed.

Lemma ctr_ctr (c : Z) (a b : nat) : ctr (ctr c a) b = ctr c (a + b).
Proof.
  destruct a as [|a]; [reflexivity|]. destruct b as [|b].
  - rewrite Nat.add_0_r. reflexivity.
  - cbn [ctr Nat.add]. rewrite wrap64_add_l. f_equal. lia.
Qed.

Lemma savepoint_name_ctr (c : Z) (a j : nat) :
  (0 < j)%nat -> savepoint_name (ctr c a) j = savepoint_name c (a + j).
Proof.
  intros Hj. unfold savepoint_name. destruct a as [|a]; [reflexivity|].
  cbn [ctr]. rewrite wrap64_add_l. do 3 f_equal. lia.
Qed.

Lemma names_from_ctr (c : Z) (a b : nat) :
  names_from (ctr c a) b = map (savepoint_name c) (seq (1 + a) b).
Proof.
  unfold names_from.
  replace (seq (1 + a) b) with (map (Nat.add a) (seq 1 b)).
  2:{ change (map (Nat.add a) (seq 1 b)) with (Nat.add a <$> seq 1 b).
      rewrite fmap_add_seq. f_equal. lia. }
  rewrite map_map. apply map_ext_in. intros j Hj.
  apply in_seq in Hj. apply savepoint_name_ctr. lia.
Qed.

Lemma names_from_app (c : Z) (a b : nat) :
  names_from c (a + b) = names_from c a ++ names_from (ctr c a) b.
Proof.
  rewrite names_from_ctr. unfold names_from.
  rewrite seq_app, map_app. reflexivity.
Qed.

Lemma NoDup_names_from (c : Z) (a : nat) :
  Z.of_nat a < 2 ^ 64 -> NoDup (names_from c a).
Proof.
  intros Ha. unfold names_from. apply NoDup_fmap_2_strong; [|apply NoDup_seq].
  intros i j Hi Hj. apply list_elem_of_In, in_seq in Hi. apply list_elem_of_In, in_seq in Hj.
  apply savepoint_name_inj; lia.
Qed.


(** ** Reading statements *)

Lemma classify_savepoint (n : string) :
  classify ("SAVEPOINT " +:+ n) = StSavepoint n.
Proof. reflexivity. Qed.

Lemma classify_rollback_to (n : string) :
  classify ("ROLLBACK TO SAVEPOINT " +:+ n) = StRollbackTo n.
Proof. reflexivity. Qed.

Lemma classify_release (n : string) :
  classify ("RELEASE SAVEPOINT " +:+ n) = StRelease n.
Proof. reflexivity. Qed.

Lemma strip_savepoint_rollback_to (n : string) :
  strip_prefix "SAVEPOINT " ("ROLLBACK TO SAVEPOINT " +:+ n) = None.
Proof. reflexivity. Qed.

Lemma strip_savepoint_release (n : string) :
  strip_prefix "SAVEPOINT " ("RELEASE SAVEPOINT " +:+ n) = None.
Proof. reflexivity. Qed.

Lemma strip_savepoint_savepoint (n : string) :
  strip_prefix "SAVEPOINT " ("SAVEPOINT " +:+ n) = Some n.
Proof. reflexivity. Qed.

Lemma strip_prefix_first (c d : ascii) (p s : string) :
  c <> d -> strip_prefix (String c p) (String d s) = None.
Proof.
  intros H. cbn. destruct (Ascii.eqb_spec c d); [contradiction | reflexivity].
Qed.

Lemma plain_not_savepoint (q : string) :
  is_control q = false -> strip_prefix "SAVEPOINT " q = None.
Proof.
  unfold is_control, classify. intros H.
  destruct (strip_prefix "SAVEPOINT " q) as [n|] eqn:Hs; [|reflexivity].
  destruct q as [|d q']; [discriminate|].
  assert (d = "S"%char) as ->.
  { pose proof Hs as Hs'. cbn [strip_prefix] in Hs'.
    destruct (Ascii.eqb_spec "S"%char d) as [E|E]; [symmetry; exact E | discriminate]. }
  rewrite !strip_prefix_first in H by discriminate.
  try rewrite Hs in H; discriminate.
Qed.


(** ** Statements inside an open transaction *)

Lemma in_tx_live (h : nat) (q : string)
    (step : Z -> Session -> Session + PgError) (w : World) (s : Session) :
  live h w = Some s ->
  exists clk scr,
    in_tx h q step w =
      let w1 := fun s' =>
        mkWorld (committed w) (Some (h, s')) (next_tx w) (cells w) clk scr
          (log w ++ [q]) in
      match next_fault w with
      | Some e => (Some e, w1 (abort s))
      | None =>
          match step clk s with
          | inl s' => (None, w1 s')
          | inr pe => (Some (driverError pe), w1 (abort s))
          end
      end.
Proof.
  intros H. unfold in_tx. rewrite H.
  destruct (tick_spec q w) as (clk & scr & ->). exists clk, scr.
  destruct (next_fault w); [reflexivity|]. cbn.
  destruct (step clk s); reflexivity.
Qed.

(** What one statement in an open transaction does to the world. *)
Lemma in_tx_facts (h : nat) (q : string)
    (step : Z -> Session -> Session + PgError) (w w' : World) (s : Session)
    (r : option error) :
  live h w = Some s ->
  in_tx h q step w = (r, w') ->
  committed w' = committed w /\ next_tx w' = next_tx w /\
  cells w' = cells w /\ log w' = log w ++ [q] /\
  exists s', session w' = Some (h, s') /\
    match r with
    | None => next_fault w = None /\ exists now, step now s = inl s'
    | Some _ => s' = abort s
    end.
Proof.
  intros Hl E. destruct (in_tx_live h q step w s Hl) as (clk & scr & E').
  rewrite E' in E. clear E'. cbn zeta in E.
  destruct (next_fault w) as [e|].
  - inversion E; subst; cbn. repeat split; eauto.
  - destruct (step clk s) as [s'|pe] eqn:Hs; inversion E; subst; cbn;
      repeat split; eauto 6.
Qed.

Lemma session_exec_savepoint (n : string) (s s' : Session) :
  session_exec ("SAVEPOINT " +:+ n) s = inl s' ->
  s' = mkSession (options s) (work s) ((n, work s) :: saves s) false.
Proof.
  unfold session_exec. rewrite classify_savepoint.
  destruct (aborted s); [discriminate|]. congruence.
Qed.

Lemma session_exec_rollback_to (n : string) (s s' : Session) :
  session_exec ("ROLLBACK TO SAVEPOINT " +:+ n) s = inl s' ->
  exists snap keep,
    rollback_to n (saves s) = Some (snap, keep) /\
    s' = mkSession (options s) snap keep false.
Proof.
  unfold session_exec. rewrite classify_rollback_to.
  destruct (rollback_to n (saves s)) as [[snap keep]|]; [|discriminate].
  intros [= <-]. eauto.
Qed.

Lemma session_exec_release (n : string) (s s' : Session) :
  session_exec ("RELEASE SAVEPOINT " +:+ n) s = inl s' ->
  exists keep,
    release n (saves s) = Some keep /\
    s' = mkSession (options s) (work s) keep false.
Proof.
  unfold session_exec. rewrite classify_release.
  destruct (aborted s); [discriminate|].
  destruct (release n (saves s)) as [keep|]; [|discriminate].
  intros [= <-]. eauto.
Qed.

Lemma session_exec_plain (q : string) (s s' : Session) :
  is_control q = false ->
  session_exec q s = inl s' ->
  options s' = options s /\ saves s' = saves s.
Proof.
  unfold is_control, session_exec. intros Hc.
  destruct (classify q); try discriminate; destruct (aborted s);
    try discriminate.
  - intros [= <-]. auto.
  - destruct (sql_sem q (user (work s))); [|discriminate].
    intros [= <-]. auto.
Qed.

(** Rolling back to, or releasing, a savepoint that sits in the upper part
    of the stack leaves the lower part alone. *)
Lemma rollback_to_app (n : string) (pre base : list (string * Store)) :
  n ∈ pre.*1 ->
  exists snap pre',
    rollback_to n (pre ++ base) = Some (snap, pre' ++ base) /\
    pre' ⊆ pre.
Proof.
  induction pre as [|[m st] pre IH]; cbn; intros Hin.
  - inversion Hin.
  - destruct (String.eqb_spec m n) as [->|Hne].
    + exists st, ((n, st) :: pre). split; [reflexivity | set_solver].
    + apply elem_of_cons in Hin as [Heq|Hin]; [congruence|].
      destruct (IH Hin) as (snap & pre' & -> & Hsub).
      exists snap, pre'. split; [reflexivity | set_solver].
Qed.

Lemma release_app (n : string) (pre base : list (string * Store)) :
  n ∈ pre.*1 ->
  exists pre', release n (pre ++ base) = Some (pre' ++ base) /\ pre' ⊆ pre.
Proof.
  induction pre as [|[m st] pre IH]; cbn; intros Hin.
  - inversion Hin.
  - destruct (String.eqb_spec m n) as [->|Hne].
    + exists pre. split; [reflexivity | set_solver].
    + apply elem_of_cons in Hin as [Heq|Hin]; [congruence|].
      destruct (IH Hin) as (pre' & -> & Hsub).
      exists pre'. split; [reflexivity | set_solver].
Qed.

(** The most recent savepoint is the one found when no younger one has
    its name. *)
Lemma rollback_to_fresh (n : string) (st : Store)
    (pre base : list (string * Store)) :
  n ∉ pre.*1 ->
  rollback_to n (pre ++ (n, st) :: base) = Some (st, (n, st) :: base).
Proof.
  induction pre as [|[m st'] pre IH]; cbn; intros Hin.
  - rewrite String.eqb_refl. reflexivity.
  - destruct (String.eqb_spec m n) as [->|Hne]; [set_solver|].
    apply IH. set_solver.
Qed.

Lemma release_fresh (n : string) (st : Store)
    (pre base : list (string * Store)) :
  n ∉ pre.*1 ->
  release n (pre ++ (n, st) :: base) = Some base.
Proof.
  induction pre as [|[m st'] pre IH]; cbn; intros Hin.
  - rewrite String.eqb_refl. reflexivity.
  - destruct (String.eqb_spec m n) as [->|Hne]; [set_solver|].
    apply IH. set_solver.
Qed.


(** ** The invariant of well-behaved callbacks *)

Lemma counter_lookup (seq : nat) (w : World) :
  (seq < length (cells w))%nat -> cells w !! seq = Some (counter seq w).
Proof.
  intros H. unfold counter.
  destruct (lookup_lt_is_Some_2 (cells w) seq H) as [x ->]. reflexivity.
Qed.

Lemma advances_refl (h seq : nat) (w : World) (s : Session) :
  session w = Some (h, s) -> (seq < length (cells w))%nat ->
  advances h seq 0 w w.
Proof.
  intros Hs Hseq. split; auto.
  - cbn. symmetry. apply list_insert_id, counter_lookup, Hseq.
  - exists s, s, []. repeat split; auto.
  - exists []. rewrite app_nil_r. auto.
Qed.

Lemma advances_counter (h seq a : nat) (w w' : World) :
  (seq < length (cells w))%nat -> advances h seq a w w' ->
  counter seq w' = ctr (counter seq w) a /\
  (seq < length (cells w'))%nat.
Proof.
  intros Hseq [_ _ Hc _ _]. unfold counter at 1. rewrite Hc.
  rewrite list_lookup_insert_eq by exact Hseq.
  rewrite length_insert. auto.
Qed.

Lemma names_from_mono (c : Z) (a b : nat) (n : string) :
  n ∈ names_from c a -> n ∈ names_from c (a + b).
Proof. rewrite names_from_app. set_solver. Qed.

Lemma names_from_shift (c : Z) (a b : nat) (n : string) :
  n ∈ names_from (ctr c a) b -> n ∈ names_from c (a + b).
Proof. rewrite names_from_app. set_solver. Qed.

Lemma savepoints_of_cons (q : string) (l : list string) :
  savepoints_of (q :: l) =
    match strip_prefix "SAVEPOINT " q with
    | Some n => n :: savepoints_of l
    | None => savepoints_of l
    end.
Proof. reflexivity. Qed.

Lemma savepoints_of_app (l1 l2 : list string) :
  savepoints_of (l1 ++ l2) = savepoints_of l1 ++ savepoints_of l2.
Proof. apply omap_app. Qed.

Lemma advances_trans (h seq a b : nat) (w w1 w2 : World) :
  (seq < length (cells w))%nat ->
  advances h seq a w w1 -> advances h seq b w1 w2 ->
  advances h seq (a + b) w w2.
Proof.
  intros Hseq H1 H2.
  destruct (advances_counter _ _ _ _ _ Hseq H1) as [Hc Hseq1].
  destruct H1 as [C1 N1 L1 (s & s1 & e1 & S0 & S1 & O1 & V1 & F1)
                    (ad1 & G1 & P1 & B1)].
  destruct H2 as [C2 N2 L2 (s1' & s2 & e2 & S1' & S2 & O2 & V2 & F2)
                    (ad2 & G2 & P2 & B2)].
  rewrite Hc in *. rewrite S1 in S1'. injection S1' as <-.
  split.
  - congruence.
  - congruence.
  - rewrite L2, L1, list_insert_insert_eq, ctr_ctr. reflexivity.
  - exists s, s2, (e2 ++ e1). repeat split; auto; try congruence.
    + rewrite V2, V1, app_assoc. reflexivity.
    + rewrite fmap_app. apply Forall_app. split.
      * eapply Forall_impl; [exact F2|]. intros n. apply names_from_shift.
      * eapply Forall_impl; [exact F1|]. intros n. apply names_from_mono.
  - exists (ad1 ++ ad2). repeat split.
    + rewrite G2, G1, app_assoc. reflexivity.
    + rewrite savepoints_of_app, P1, P2, names_from_app. reflexivity.
    + rewrite length_app. lia.
Qed.

Lemma Tx_ok_session (tx : Tx) (w : World) :
  Tx_ok tx w ->
  exists s, session w = Some (Tx_Tx tx, s) /\ live (Tx_Tx tx) w = Some s /\
            (savepointSeq tx < length (cells w))%nat.
Proof.
  intros [[s Hs] Hseq]. exists s. repeat split; auto. apply live_Some, Hs.
Qed.

Lemma advances_Tx_ok (tx : Tx) (a : nat) (w w' : World) :
  Tx_ok tx w -> advances (Tx_Tx tx) (savepointSeq tx) a w w' -> Tx_ok tx w'.
Proof.
  intros Hok H. destruct (Tx_ok_session _ _ Hok) as (s & _ & _ & Hseq).
  destruct (advances_counter _ _ _ _ _ Hseq H) as [_ Hseq'].
  destruct H as [_ _ _ (s0 & s' & e & _ & S' & _) _].
  split; [|exact Hseq']. exists s'. apply live_Some, S'.
Qed.

(** A statement that is not savepoint control. *)
Lemma advances_exec (tx : Tx) (q : string) (w : World) :
  is_control q = false -> Tx_ok tx w ->
  advances (Tx_Tx tx) (savepointSeq tx) 0 w (Tx_ExecContext tx q w).2.
Proof.
  intros Hq Hok. destruct (Tx_ok_session _ _ Hok) as (s & Hs & Hl & Hseq).
  destruct (Tx_ExecContext tx q w) as [r w'] eqn:E.
  unfold Tx_ExecContext, bun_Tx_ExecContext in E.
  destruct (in_tx_facts _ _ _ _ _ _ _ Hl E)
    as (C & N & L & G & s' & S' & R). cbn [snd].
  split; auto.
  - rewrite L. cbn. symmetry. apply list_insert_id, counter_lookup, Hseq.
  - exists s, s', []. repeat split; auto.
    + destruct r; [subst; reflexivity|].
      destruct R as (_ & now & R). apply (session_exec_plain _ _ _ Hq R).
    + destruct r; [subst; reflexivity|].
      destruct R as (_ & now & R). apply (session_exec_plain _ _ _ Hq R).
  - exists [q]. repeat split; auto.
    + rewrite savepoints_of_cons, (plain_not_savepoint _ Hq). reflexivity.
    + cbn. lia.
Qed.


(** Opening a scope: the counter moves by one and the SAVEPOINT goes out. *)
Lemma advances_open (tx : Tx) (w w2 : World) (r : option error) :
  Tx_ok tx w ->
  let name := savepoint_name (counter (savepointSeq tx) w) 1 in
  Tx_ExecContext tx ("SAVEPOINT " +:+ name)
    (atomic_AddInt64 (savepointSeq tx) 1 w).2 = (r, w2) ->
  advances (Tx_Tx tx) (savepointSeq tx) 1 w w2 /\
  log w2 = log w ++ ["SAVEPOINT " +:+ name] /\
  exists s s2,
    session w = Some (Tx_Tx tx, s) /\ session w2 = Some (Tx_Tx tx, s2) /\
    match r with
    | None =>
        s2 = mkSession (options s) (work s) ((name, work s) :: saves s) false
        /\ next_fault w = None
    | Some _ => s2 = abort s
    end.
Proof.
  intros Hok name E. destruct (Tx_ok_session _ _ Hok) as (s & Hs & Hl & Hseq).
  unfold Tx_ExecContext, bun_Tx_ExecContext in E.
  assert (Hl1 : live (Tx_Tx tx) (atomic_AddInt64 (savepointSeq tx) 1 w).2
                = Some s) by exact Hl.
  destruct (in_tx_facts _ _ _ _ _ _ _ Hl1 E)
    as (C & N & L & G & s' & S' & R). cbn in C, N, L, G.
  assert (Hs2 : match r with
                | None => s' = mkSession (options s) (work s)
                                 ((name, work s) :: saves s) false
                          /\ next_fault w = None
                | Some _ => s' = abort s
                end).
  { destruct r; [exact R|]. destruct R as (F & now & R).
    split; [apply (session_exec_savepoint _ _ _ R) | exact F]. }
  split; [|split; [exact G | exists s, s'; auto]].
  split; auto.
  - exists s, s'. destruct r.
    + exists []. subst s'. repeat split; auto.
    + exists [(name, work s)]. destruct Hs2 as [-> _]. repeat split; auto.
      cbn. repeat constructor.
  - exists ["SAVEPOINT " +:+ name]. repeat split; auto.
Qed.

(** Closing a scope whose savepoint is still on the stack. *)
Lemma advances_close (tx : Tx) (a : nat) (w w3 w4 : World) (q name : string)
    (s s3 : Session) (pre : list (string * Store)) (r : option error) :
  advances (Tx_Tx tx) (savepointSeq tx) a w w3 ->
  session w = Some (Tx_Tx tx, s) -> session w3 = Some (Tx_Tx tx, s3) ->
  saves s3 = pre ++ saves s -> name ∈ pre.*1 ->
  q = "ROLLBACK TO SAVEPOINT " +:+ name \/ q = "RELEASE SAVEPOINT " +:+ name ->
  Tx_ExecContext tx q w3 = (r, w4) ->
  advances (Tx_Tx tx) (savepointSeq tx) a w w4.
Proof.
  intros [C N L (s0 & s3' & extra & S0 & S3 & O3 & V3 & F3)
            (added & G & Pn & B)] Hs Hs3 Hpre Hin Hq E.
  rewrite Hs in S0. injection S0 as <-.
  rewrite Hs3 in S3. injection S3 as <-.
  assert (extra = pre) as ->.
  { apply (app_inv_tail (saves s)). congruence. }
  unfold Tx_ExecContext, bun_Tx_ExecContext in E.
  assert (Hl3 : live (Tx_Tx tx) w3 = Some s3) by (apply live_Some, Hs3).
  destruct (in_tx_facts _ _ _ _ _ _ _ Hl3 E)
    as (C4 & N4 & L4 & G4 & s4 & S4 & R).
  split; try congruence.
  - exists s, s4.
    destruct r as [e|].
    + subst s4. exists pre. repeat split; auto.
    + destruct R as (_ & now & R).
      assert (exists pre', options s4 = options s3 /\
                saves s4 = pre' ++ saves s /\ pre' ⊆ pre)
        as (pre' & O4 & V4 & Hsub).
      { destruct Hq as [-> | ->].
        - apply session_exec_rollback_to in R as (snap & keep & Hr & ->).
          rewrite Hpre in Hr.
          destruct (rollback_to_app name pre (saves s) Hin)
            as (snap' & pre' & Hr' & Hsub).
          rewrite Hr' in Hr. injection Hr as <- <-. eauto.
        - apply session_exec_release in R as (keep & Hr & ->).
          rewrite Hpre in Hr.
          destruct (release_app name pre (saves s) Hin) as (pre' & Hr' & Hsub).
          rewrite Hr' in Hr. injection Hr as <-. eauto. }
      exists pre'. repeat split; auto; try congruence.
      rewrite Forall_forall in F3 |- *. intros n Hn. apply F3.
      apply list_elem_of_fmap in Hn as (x & -> & Hx).
      apply list_elem_of_fmap. exists x. split; [reflexivity | set_solver].
  - exists (added ++ [q]). repeat split.
    + rewrite G4, G, app_assoc. reflexivity.
    + rewrite savepoints_of_app, Pn.
      destruct Hq as [-> | ->]; rewrite savepoints_of_cons;
        [rewrite strip_savepoint_rollback_to | rewrite strip_savepoint_release];
        apply app_nil_r.
    + rewrite length_app. lia.
Qed.

Lemma Tx_Transaction_advances (tx : Tx) (fn : TxFunc) (w : World) :
  scoped (Tx_Tx tx) (savepointSeq tx) fn -> Tx_ok tx w ->
  exists a,
    advances (Tx_Tx tx) (savepointSeq tx) a w (Tx_Transaction tx fn w).2.
Proof.
  intros Hfn Hok. destruct (Tx_ok_session _ _ Hok) as (s & Hs & Hl & Hseq).
  unfold Tx_Transaction.
  change (atomic_AddInt64 (savepointSeq tx) 1 w)
    with (wrap64 (counter (savepointSeq tx) w + 1),
          (atomic_AddInt64 (savepointSeq tx) 1 w).2).
  cbv iota beta zeta.
  set (id := wrap64 (counter (savepointSeq tx) w + 1)).
  change ("sp_" +:+ fmt_d id)
    with (savepoint_name (counter (savepointSeq tx) w) 1).
  set (name := savepoint_name (counter (savepointSeq tx) w) 1).
  destruct (Tx_ExecContext tx ("SAVEPOINT " +:+ name)
              (atomic_AddInt64 (savepointSeq tx) 1 w).2) as [r w2] eqn:E.
  destruct (advances_open tx w w2 r Hok E)
    as (A1 & _ & s' & s2 & Hs' & Hs2 & R).
  rewrite Hs in Hs'. injection Hs' as <-.
  destruct r as [e|]; [exists 1%nat; exact A1|].
  destruct R as [R _].
  pose proof (advances_Tx_ok tx 1 w w2 Hok A1) as Hok2.
  set (nestedTx := mkTx (Tx_Tx tx) id (savepointSeq tx)).
  destruct (Hfn nestedTx w2 eq_refl eq_refl Hok2) as (a & A2).
  pose proof (advances_trans _ _ _ _ _ _ _ Hseq A1 A2) as A3.
  destruct A2 as [_ _ _ (s2' & s3 & extra & S2' & S3 & _ & V3 & _) _].
  rewrite Hs2 in S2'. injection S2' as <-.
  assert (Hpre : saves s3 = (extra ++ [(name, work s)]) ++ saves s).
  { rewrite V3, R, <- app_assoc. reflexivity. }
  assert (Hin : name ∈ (extra ++ [(name, work s)]).*1).
  { rewrite fmap_app. set_solver. }
  destruct (fn nestedTx w2) as [[[err|]|p] w3]; cbn [snd] in *.
  - destruct (Tx_ExecContext tx ("ROLLBACK TO SAVEPOINT " +:+ name) w3)
      as [rb w4] eqn:E4.
    exists (1 + a)%nat.
    assert (advances (Tx_Tx tx) (savepointSeq tx) (1 + a) w w4).
    { apply (advances_close tx (1 + a) w w3 w4
               ("ROLLBACK TO SAVEPOINT " +:+ name) name s s3
               (extra ++ [(name, work s)]) rb A3 Hs S3 Hpre Hin);
        [left; reflexivity | exact E4]. }
    destruct rb; exact H.
  - destruct (Tx_ExecContext tx ("RELEASE SAVEPOINT " +:+ name) w3)
      as [rb w4] eqn:E4.
    exists (1 + a)%nat.
    assert (advances (Tx_Tx tx) (savepointSeq tx) (1 + a) w w4).
    { apply (advances_close tx (1 + a) w w3 w4
               ("RELEASE SAVEPOINT " +:+ name) name s s3
               (extra ++ [(name, work s)]) rb A3 Hs S3 Hpre Hin);
        [right; reflexivity | exact E4]. }
    destruct rb; exact H.
  - exists (1 + a)%nat. exact A3.
Qed.

Lemma run_scoped (p : Prog) (h seq : nat) : plain p -> scoped h seq (run p).
Proof.
  induction p as [err | v | q k IH | fn IHfn k IH]; intros Hp tx w Hh Hq Hok;
    subst h seq.
  - destruct (Tx_ok_session _ _ Hok) as (s & Hs & _ & Hseq).
    exists 0%nat. apply (advances_refl _ _ _ s); auto.
  - destruct (Tx_ok_session _ _ Hok) as (s & Hs & _ & Hseq).
    exists 0%nat. apply (advances_refl _ _ _ s); auto.
  - destruct Hp as [Hc Hk]. cbn [run].
    pose proof (advances_exec tx q w Hc Hok) as A1.
    destruct (Tx_ExecContext tx q w) as [err w1]. cbn [snd] in A1.
    destruct (IH err (Hk err) tx w1 eq_refl eq_refl
                (advances_Tx_ok _ _ _ _ Hok A1)) as (a & A2).
    exists (0 + a)%nat. eapply advances_trans; eauto. apply Hok.
  - destruct Hp as [Hfn Hk]. cbn [run].
    destruct (Tx_Transaction_advances tx (run fn) w (IHfn Hfn) Hok)
      as (a1 & A1).
    destruct (Tx_Transaction tx (run fn) w) as [[err|v] w1]; cbn [snd] in A1.
    + destruct (IH err (Hk err) tx w1 eq_refl eq_refl
                  (advances_Tx_ok _ _ _ _ Hok A1)) as (a & A2).
      exists (a1 + a)%nat. eapply advances_trans; eauto. apply Hok.
    + exists a1. exact A1.
Qed.


(** ** [Tx.Rollback] and [Tx.Commit] *)

Lemma Tx_Rollback_done (tx : Tx) (w : World) :
  live (Tx_Tx tx) w = None -> Tx_Rollback tx w = (None, w).
Proof.
  intros H. unfold Tx_Rollback, bun_Tx_Rollback. rewrite H. reflexivity.
Qed.

Lemma bun_Tx_Rollback_live (h : nat) (w : World) (s : Session) :
  live h w = Some s ->
  exists clk scr,
    bun_Tx_Rollback h w =
      (next_fault w,
       mkWorld (committed w) None (next_tx w) (cells w) clk scr
         (log w ++ ["ROLLBACK"])).
Proof.
  intros H. unfold bun_Tx_Rollback. rewrite H.
  destruct (tick_spec "ROLLBACK" w) as (clk & scr & ->). eauto.
Qed.

(** What [Tx.Rollback] leaves behind, whatever it returns. *)
Lemma Tx_Rollback_effect (tx : Tx) (w : World) :
  let w' := (Tx_Rollback tx w).2 in
  live (Tx_Tx tx) w' = None /\
  committed w' = committed w /\
  cells w' = cells w /\
  next_tx w' = next_tx w /\
  (forall s, live (Tx_Tx tx) w = Some s ->
     session w' = None /\ log w' = log w ++ ["ROLLBACK"]).
Proof.
  unfold Tx_Rollback. destruct (live (Tx_Tx tx) w) as [s|] eqn:Hl.
  - destruct (bun_Tx_Rollback_live _ _ _ Hl) as (clk & scr & ->).
    destruct (next_fault w) as [[]|]; cbn; repeat split; intros; auto.
  - unfold bun_Tx_Rollback. rewrite Hl. cbn. repeat split; auto; discriminate.
Qed.

Lemma Tx_Commit_effect (tx : Tx) (w : World) :
  let w' := (Tx_Commit tx w).2 in
  live (Tx_Tx tx) w' = None /\
  (forall s, live (Tx_Tx tx) w = Some s ->
     session w' = None /\ log w' = log w ++ ["COMMIT"]).
Proof.
  unfold Tx_Commit, bun_Tx_Commit.
  destruct (live (Tx_Tx tx) w) as [s|] eqn:Hl.
  - destruct (tick_spec "COMMIT" w) as (clk & scr & ->).
    destruct (next_fault w); [|destruct (aborted s)]; cbn;
      repeat split; intros; auto.
  - cbn. split; [exact Hl | discriminate].
Qed.

(** C7. [Tx.Rollback] on a scope that is done, committed or rolled back,
    returns nil and touches nothing; [Tx.Commit] and [Tx.Rollback] both
    leave the scope done, whatever they return; so a second [Rollback]
    right after a first returns nil. *)
Theorem Rollback_idempotent (tx : Tx) (w : World) :
  (live (Tx_Tx tx) w = None -> Tx_Rollback tx w = (None, w)) /\
  live (Tx_Tx tx) (Tx_Commit tx w).2 = None /\
  live (Tx_Tx tx) (Tx_Rollback tx w).2 = None /\
  Tx_Rollback tx (Tx_Commit tx w).2 = (None, (Tx_Commit tx w).2) /\
  Tx_Rollback tx (Tx_Rollback tx w).2 = (None, (Tx_Rollback tx w).2).
Proof.
  pose proof (Tx_Commit_effect tx w) as [Hc _].
  pose proof (Tx_Rollback_effect tx w) as [Hr _].
  repeat split; auto using Tx_Rollback_done.
Qed.

(** ** The frame of every callback *)

Lemma keeps_refl (h : nat) (w : World) :
  is_Some (live h w) -> keeps h w w.
Proof. intros H. repeat split; auto. exists []. symmetry. apply app_nil_r. Qed.

Lemma keeps_trans (h : nat) (w w1 w2 : World) :
  keeps h w w1 -> keeps h w1 w2 -> keeps h w w2.
Proof.
  intros (C1 & L1 & a1 & G1) (C2 & L2 & a2 & G2). repeat split; auto.
  - congruence.
  - exists (a1 ++ a2). rewrite G2, G1, app_assoc. reflexivity.
Qed.

Lemma keeps_exec (tx : Tx) (q : string) (w : World) :
  is_Some (live (Tx_Tx tx) w) ->
  keeps (Tx_Tx tx) w (Tx_ExecContext tx q w).2.
Proof.
  intros [s Hl]. destruct (Tx_ExecContext tx q w) as [r w'] eqn:E.
  unfold Tx_ExecContext, bun_Tx_ExecContext in E.
  destruct (in_tx_facts _ _ _ _ _ _ _ Hl E) as (C & _ & _ & G & s' & S' & _).
  repeat split; eauto. exists s'. apply live_Some, S'.
Qed.

Lemma keeps_AddInt64 (h p : nat) (d : Z) (w : World) :
  is_Some (live h w) -> keeps h w (atomic_AddInt64 p d w).2.
Proof. intros H. repeat split; auto. exists []. symmetry. apply app_nil_r. Qed.

Lemma Tx_Transaction_keeps (tx : Tx) (fn : TxFunc) (w : World) :
  (forall tx' w0, Tx_Tx tx' = Tx_Tx tx -> is_Some (live (Tx_Tx tx) w0) ->
     keeps (Tx_Tx tx) w0 (fn tx' w0).2) ->
  is_Some (live (Tx_Tx tx) w) ->
  keeps (Tx_Tx tx) w (Tx_Transaction tx fn w).2.
Proof.
  intros Hfn Hl. unfold Tx_Transaction.
  pose proof (keeps_AddInt64 (Tx_Tx tx) (savepointSeq tx) 1 w Hl) as K1.
  destruct (atomic_AddInt64 (savepointSeq tx) 1 w) as [id w1]. cbn [snd] in K1.
  pose proof (keeps_exec tx ("SAVEPOINT " +:+ ("sp_" +:+ fmt_d id)) w1
                (proj1 (proj2 K1))) as K2.
  destruct (Tx_ExecContext tx ("SAVEPOINT " +:+ ("sp_" +:+ fmt_d id)) w1)
    as [[e|] w2]; cbn [snd] in K2.
  { eapply keeps_trans; eauto. }
  pose proof (keeps_trans _ _ _ _ K1 K2) as K12.
  pose proof (Hfn (mkTx (Tx_Tx tx) id (savepointSeq tx)) w2 eq_refl
                (proj1 (proj2 K12))) as K3.
  destruct (fn (mkTx (Tx_Tx tx) id (savepointSeq tx)) w2) as [[[err|]|p] w3];
    cbn [snd] in K3; pose proof (keeps_trans _ _ _ _ K12 K3) as K123.
  - pose proof (keeps_exec tx ("ROLLBACK TO SAVEPOINT " +:+ ("sp_" +:+ fmt_d id))
                  w3 (proj1 (proj2 K123))) as K4.
    destruct (Tx_ExecContext tx _ w3) as [[rb|] w4]; cbn [snd] in *;
      eapply keeps_trans; eauto.
  - pose proof (keeps_exec tx ("RELEASE SAVEPOINT " +:+ ("sp_" +:+ fmt_d id))
                  w3 (proj1 (proj2 K123))) as K4.
    destruct (Tx_ExecContext tx _ w3) as [[rb|] w4]; cbn [snd] in *;
      eapply keeps_trans; eauto.
  - exact K123.
Qed.

Lemma run_keeps (p : Prog) (tx : Tx) (w : World) :
  is_Some (live (Tx_Tx tx) w) -> keeps (Tx_Tx tx) w (run p tx w).2.
Proof.
  revert tx w.
  induction p as [err | v | q k IH | fn IHfn k IH]; intros tx w Hl; cbn [run].
  - apply keeps_refl, Hl.
  - apply keeps_refl, Hl.
  - pose proof (keeps_exec tx q w Hl) as K1.
    destruct (Tx_ExecContext tx q w) as [err w1]. cbn [snd] in K1.
    eapply keeps_trans; [exact K1|]. apply IH, K1.
  - assert (K1 : keeps (Tx_Tx tx) w (Tx_Transaction tx (run fn) w).2).
    { apply Tx_Transaction_keeps; [|exact Hl]. intros tx' w0 Htx Hl0.
      rewrite <- Htx. apply IHfn. rewrite Htx. exact Hl0. }
    destruct (Tx_Transaction tx (run fn) w) as [[err|v] w1]; cbn [snd] in K1.
    + eapply keeps_trans; [exact K1|]. apply IH, K1.
    + exact K1.
Qed.

(** ** The callback-based runner *)

Lemma BeginTx_facts (opts : TxOptions) (w w1 : World) (h : nat) :
  BeginTx opts w = (inl h, w1) ->
  session w = None /\ next_fault w = None /\
  committed w1 = committed w /\ cells w1 = cells w /\
  log w1 = log w ++ ["BEGIN"] /\
  session w1 = Some (h, fresh opts (committed w)).
Proof.
  unfold BeginTx. destruct (tick_spec "BEGIN" w) as (clk & scr & ->).
  destruct (next_fault w); [discriminate|]. cbn.
  destruct (session w); [discriminate|]. intros [= <- <-]. cbn. auto 10.
Qed.

Lemma append_assoc (a b c : string) : (a +:+ b) +:+ c = a +:+ (b +:+ c).
Proof.
  induction a as [|x a IH]; [reflexivity|].
  change (String x ((a +:+ b) +:+ c) = String x (a +:+ (b +:+ c))).
  rewrite IH. reflexivity.
Qed.

Lemma rollback_failed_names_both (rbErr err : error) :
  Unwrap (rollback_failed rbErr err) = Some err /\
  contains (error_string rbErr) (error_string (rollback_failed rbErr err)) /\
  contains (error_string err) (error_string (rollback_failed rbErr err)).
Proof.
  split; [reflexivity|]. split.
  - exists "dbkit: rollback failed: ",
      (" (original error: " +:+ error_string err +:+ ")"). reflexivity.
  - exists ("dbkit: rollback failed: " +:+ error_string rbErr +:+
            " (original error: "), ")".
    cbn [error_string rollback_failed]. rewrite !append_assoc. reflexivity.
Qed.


Lemma runner_rollback (opts : TxOptions) (fn : TxFunc) (w w1 w3 : World)
    (h : nat) (r : outcome (option error)) :
  BeginTx opts w = (inl h, w1) ->
  fn (mkTx h 0 (length (cells w1))) (new_int64 0 w1).2 = (r, w3) ->
  let tx := mkTx h 0 (length (cells w1)) in
  let w4 := (Tx_Rollback tx w3).2 in
  live h w4 = None /\ committed w4 = committed w3 /\
  (is_Some (live h w3) -> log w4 = log w3 ++ ["ROLLBACK"]) /\
  (forall p, fn = run p ->
     committed w4 = committed w /\ log w4 = log w3 ++ ["ROLLBACK"]).
Proof.
  intros Hb Hfn tx w4.
  destruct (Tx_Rollback_effect tx w3) as (L4 & C4 & _ & _ & G4).
  fold w4 in L4, C4, G4. repeat split; auto.
  - intros [s Hs]. apply (G4 s Hs).
  - subst fn.
    destruct (BeginTx_facts _ _ _ _ Hb) as (_ & _ & C1 & _ & _ & S1).
    assert (Hl : is_Some (live (Tx_Tx tx) (new_int64 0 w1).2)).
    { exists (fresh opts (committed w)). apply live_Some. exact S1. }
    pose proof (run_keeps p tx _ Hl) as (C3 & _ & _).
    fold tx in Hfn. rewrite Hfn in C3. cbn in C3. congruence.
  - subst fn.
    destruct (BeginTx_facts _ _ _ _ Hb) as (_ & _ & C1 & _ & _ & S1).
    assert (Hl : is_Some (live (Tx_Tx tx) (new_int64 0 w1).2)).
    { exists (fresh opts (committed w)). apply live_Some. exact S1. }
    pose proof (run_keeps p tx _ Hl) as (_ & [s3 L3] & _).
    fold tx in Hfn. rewrite Hfn in L3. apply (G4 s3 L3).
Qed.

(** C6. When the callback returns an error, [TransactionWithOptions]
    calls [Rollback]: the scope is done afterwards, nothing the callback
    wrote is persisted, and for a callback that works through its [tx] the
    ROLLBACK goes out and the database is as before the call. The result
    is the callback's error itself when the rollback succeeds; when it
    fails, an error that wraps the callback's error and whose text holds
    the text of both. *)
Theorem Transaction_callback_error (opts : TxOptions) (fn : TxFunc)
    (w w1 w3 : World) (h : nat) (err : error) :
  BeginTx opts w = (inl h, w1) ->
  fn (mkTx h 0 (length (cells w1))) (new_int64 0 w1).2
    = (Returned (Some err), w3) ->
  exists rb w4,
    Tx_Rollback (mkTx h 0 (length (cells w1))) w3 = (rb, w4) /\
    live h w4 = None /\ committed w4 = committed w3 /\
    (is_Some (live h w3) -> log w4 = log w3 ++ ["ROLLBACK"]) /\
    (forall p, fn = run p ->
       committed w4 = committed w /\ log w4 = log w3 ++ ["ROLLBACK"]) /\
    match rb with
    | None => TransactionWithOptions opts fn w = (Returned (Some err), w4)
    | Some rbErr =>
        TransactionWithOptions opts fn w
          = (Returned (Some (rollback_failed rbErr err)), w4) /\
        Unwrap (rollback_failed rbErr err) = Some err /\
        contains (error_string rbErr)
          (error_string (rollback_failed rbErr err)) /\
        contains (error_string err)
          (error_string (rollback_failed rbErr err))
    end.
Proof.
  intros Hb Hfn.
  destruct (runner_rollback _ _ _ _ _ _ _ Hb Hfn) as (L & C & G & Hp).
  destruct (Tx_Rollback (mkTx h 0 (length (cells w1))) w3) as [rb w4] eqn:E.
  cbn [snd] in L, C, G, Hp.
  exists rb, w4. split; [reflexivity|]. do 4 (split; [assumption|]).
  unfold TransactionWithOptions. rewrite Hb. cbn [new_int64].
  cbn [new_int64 snd] in Hfn. rewrite Hfn, E.
  destruct rb as [rbErr|]; [|reflexivity].
  split; [reflexivity | apply rollback_failed_names_both].
Qed.

(** C5. When the callback panics, [TransactionWithOptions] calls
    [Rollback] and panics again with the same value, whatever [Rollback]
    returned: the scope is done, nothing the callback wrote is persisted,
    and for a callback that works through its [tx] the ROLLBACK goes out
    and the database is as before the call. *)
Theorem Transaction_callback_panic (opts : TxOptions) (fn : TxFunc)
    (w w1 w3 : World) (h : nat) (p : string) :
  BeginTx opts w = (inl h, w1) ->
  fn (mkTx h 0 (length (cells w1))) (new_int64 0 w1).2 = (Panicked p, w3) ->
  exists rb w4,
    Tx_Rollback (mkTx h 0 (length (cells w1))) w3 = (rb, w4) /\
    TransactionWithOptions opts fn w = (Panicked p, w4) /\
    live h w4 = None /\ committed w4 = committed w3 /\
    (is_Some (live h w3) -> log w4 = log w3 ++ ["ROLLBACK"]) /\
    (forall prog, fn = run prog ->
       committed w4 = committed w /\ log w4 = log w3 ++ ["ROLLBACK"]).
Proof.
  intros Hb Hfn.
  destruct (runner_rollback _ _ _ _ _ _ _ Hb Hfn) as (L & C & G & Hp).
  destruct (Tx_Rollback (mkTx h 0 (length (cells w1))) w3) as [rb w4] eqn:E.
  cbn [snd] in L, C, G, Hp.
  exists rb, w4. split; [reflexivity|].
  split; [|do 3 (split; [assumption|]); assumption].
  unfold TransactionWithOptions. rewrite Hb. cbn [new_int64].
  cbn [new_int64 snd] in Hfn. rewrite Hfn, E. reflexivity.
Qed.


Lemma scope_name_fresh (c : Z) (a : nat) (extra : list string) :
  Z.of_nat a < 2 ^ 64 ->
  Forall (fun n => n ∈ names_from (ctr c 1) a) extra ->
  savepoint_name c 1 ∉ extra.
Proof.
  intros Ha F Hin. rewrite Forall_forall in F. apply F in Hin.
  rewrite names_from_ctr in Hin.
  apply list_elem_of_In, in_map_iff in Hin as (j & Hj & Hin).
  apply in_seq in Hin. apply savepoint_name_inj in Hj; lia.
Qed.

Lemma BeginTx_log (opts : TxOptions) (w : World) :
  log (BeginTx opts w).2 = log w ++ ["BEGIN"].
Proof.
  unfold BeginTx. destruct (tick_spec "BEGIN" w) as (clk & scr & ->).
  destruct (next_fault w); [reflexivity|]. cbn.
  destruct (session w); reflexivity.
Qed.

Lemma names_from_zero (a : nat) :
  Z.of_nat a < 2 ^ 63 ->
  names_from 0 a = map (fun j => "sp_" +:+ fmt_d (Z.of_nat j)) (seq 1 a).
Proof.
  intros Ha. unfold names_from. apply map_ext_in. intros j Hj.
  apply in_seq in Hj. unfold savepoint_name.
  rewrite wrap64_small by lia. reflexivity.
Qed.

(** ** Runs without faults *)

Lemma exec_calm (tx : Tx) (q : string) (cm : Store) (h : nat) (s : Session)
    (nt : nat) (cl : list Z) (ck : Z) (lg : list string) :
  Tx_Tx tx = h ->
  Tx_ExecContext tx q (mkWorld cm (Some (h, s)) nt cl ck [] lg) =
    match session_exec q s with
    | inl s' => (None, mkWorld cm (Some (h, s')) nt cl ck [] (lg ++ [q]))
    | inr pe =>
        (Some (driverError pe),
         mkWorld cm (Some (h, abort s)) nt cl ck [] (lg ++ [q]))
    end.
Proof.
  intros <-. unfold Tx_ExecContext, bun_Tx_ExecContext, in_tx, live. cbn.
  rewrite Nat.eqb_refl. cbn. destruct (session_exec q s); reflexivity.
Qed.

Lemma session_exec_other (q : string) (o : TxOptions) (st : Store)
    (sv : list (string * Store)) :
  classify q = StOther ->
  session_exec q (mkSession o st sv false) =
    match sql_sem q (user st) with
    | inl u => inl (mkSession o (mkStore u (ledger st)) sv false)
    | inr e => inr e
    end.
Proof. intros H. unfold session_exec. rewrite H. reflexivity. Qed.

Lemma session_exec_savepoint_eq (n : string) (o : TxOptions) (st : Store)
    (sv : list (string * Store)) :
  session_exec ("SAVEPOINT " +:+ n) (mkSession o st sv false) =
    inl (mkSession o st ((n, st) :: sv) false).
Proof. reflexivity. Qed.

Lemma session_exec_rollback_to_top (n : string) (o : TxOptions)
    (st st' : Store) (sv : list (string * Store)) (ab : bool) :
  session_exec ("ROLLBACK TO SAVEPOINT " +:+ n)
    (mkSession o st' ((n, st) :: sv) ab) =
    inl (mkSession o st ((n, st) :: sv) false).
Proof.
  unfold session_exec. rewrite classify_rollback_to. cbn.
  rewrite String.eqb_refl. reflexivity.
Qed.

Lemma Tx_Commit_calm (tx : Tx) (cm : Store) (h : nat) (s : Session)
    (nt : nat) (cl : list Z) (ck : Z) (lg : list string) :
  Tx_Tx tx = h -> aborted s = false ->
  Tx_Commit tx (mkWorld cm (Some (h, s)) nt cl ck [] lg) =
    (None, mkWorld (work s) None nt cl ck [] (lg ++ ["COMMIT"])).
Proof.
  intros <- Hab. unfold Tx_Commit, bun_Tx_Commit, live. cbn.
  rewrite Nat.eqb_refl. cbn. rewrite Hab. reflexivity.
Qed.

(** C1. A nested scope opened by [Tx.Transaction] in an open transaction,
    around a callback that leaves savepoints to it.

    First part, one scope. Its name is sp_<n> with n the shared counter
    after one increment, and its callback runs under a [Tx] with the same
    handle and the same counter. When the callback returns nil the scope
    sends RELEASE SAVEPOINT for that name, and when the server takes it
    the callback's writes stay in the parent and the savepoint is gone.
    When the callback returns an error the scope sends ROLLBACK TO
    SAVEPOINT for that name and returns that error, or, when the
    statement itself fails, an error that wraps it; when the server takes
    the statement the parent's working data is what it was when the scope
    opened and the parent is open, not aborted, with nothing persisted.

    Second part, names. The SAVEPOINT statements of one physical
    transaction are sp_1, sp_2, ... in the order the scopes open, all
    different.

    Third part, isolation. W1, then a nested scope that writes W2 and
    fails, then W3, then commit: what is persisted is the effect of W1
    followed by W3.

    The bounds on the number of statements keep the int64 counter from
    wrapping. *)
Theorem Tx_Transaction_savepoints :
  (forall (tx : Tx) (body : Prog) (w w2 w3 : World) (r : option error),
    Tx_ok tx w -> plain body ->
    let id := wrap64 (counter (savepointSeq tx) w + 1) in
    let sp := "sp_" +:+ fmt_d id in
    Tx_ExecContext tx ("SAVEPOINT " +:+ sp)
      (atomic_AddInt64 (savepointSeq tx) 1 w).2 = (None, w2) ->
    run body (mkTx (Tx_Tx tx) id (savepointSeq tx)) w2 = (Returned r, w3) ->
    Z.of_nat (length (log w3)) - Z.of_nat (length (log w2)) < 2 ^ 64 ->
    exists s s3 res w4,
      session w = Some (Tx_Tx tx, s) /\ session w3 = Some (Tx_Tx tx, s3) /\
      Tx_Transaction tx (run body) w = (Returned res, w4) /\
      log w2 = log w ++ ["SAVEPOINT " +:+ sp] /\
      committed w4 = committed w /\
      match r with
      | None =>
          log w4 = log w3 ++ ["RELEASE SAVEPOINT " +:+ sp] /\
          (next_fault w3 = None -> aborted s3 = false ->
             res = None /\
             session w4 =
               Some (Tx_Tx tx, mkSession (options s) (work s3) (saves s) false))
      | Some err =>
          log w4 = log w3 ++ ["ROLLBACK TO SAVEPOINT " +:+ sp] /\
          (res = Some err \/
           exists rbErr, res = Some (savepoint_rollback_failed rbErr err)) /\
          (next_fault w3 = None ->
             res = Some err /\
             session w4 =
               Some (Tx_Tx tx,
                     mkSession (options s) (work s) ((sp, work s) :: saves s)
                       false))
      end) /\
  (forall (opts : TxOptions) (p : Prog) (w : World),
    plain p ->
    let w' := (TransactionWithOptions opts (run p) w).2 in
    Z.of_nat (length (log w')) - Z.of_nat (length (log w)) < 2 ^ 63 ->
    exists a,
      savepoints_of (log w') =
        savepoints_of (log w) ++
        map (fun j => "sp_" +:+ fmt_d (Z.of_nat j)) (seq 1 a) /\
      NoDup (map (fun j => "sp_" +:+ fmt_d (Z.of_nat j)) (seq 1 a))) /\
  (forall (W1 W2 W3 : string) (err : error) (w : World) (u1 u3 : Schema),
    session w = None -> script w = [] ->
    classify W1 = StOther -> classify W2 = StOther -> classify W3 = StOther ->
    sql_sem W1 (user (committed w)) = inl u1 -> sql_sem W3 u1 = inl u3 ->
    exists w',
      Transaction
        (run (Exec W1 (fun _ =>
              Nested (Exec W2 (fun _ => Return (Some err))) (fun _ =>
              Exec W3 (fun _ => Return None))))) w = (Returned None, w') /\
      committed w' = mkStore u3 (ledger (committed w)) /\
      log w' = log w ++ ["BEGIN"; W1; "SAVEPOINT sp_1"; W2;
                         "ROLLBACK TO SAVEPOINT sp_1"; W3; "COMMIT"]).
Proof.
  split; [|split].
  { intros tx body w w2 w3 r.
    intros Hok Hp id sp E Hrun Hbound.
    destruct (Tx_ok_session _ _ Hok) as (s & Hs & Hl & Hseq).
    destruct (advances_open tx w w2 None Hok E)
      as (A1 & G2 & s' & s2 & Hs' & Hs2 & R & _).
    rewrite Hs in Hs'. injection Hs' as <-.
    pose proof (advances_Tx_ok tx 1 w w2 Hok A1) as Hok2.
    destruct (advances_counter _ _ _ _ _ Hseq A1) as [Hc2 _].
    destruct (run_scoped body (Tx_Tx tx) (savepointSeq tx) Hp
                (mkTx (Tx_Tx tx) id (savepointSeq tx)) w2 eq_refl eq_refl Hok2)
      as (a & A2).
    rewrite Hrun in A2. cbn [snd] in A2.
    destruct A2 as [C3 _ _ (s2' & s3 & extra & S2' & S3 & O3 & V3 & F3)
                      (added & G3 & _ & B3)].
    rewrite Hs2 in S2'. injection S2' as <-.
    rewrite Hc2 in F3.
    assert (Hfresh : sp ∉ extra.*1).
    { apply (scope_name_fresh (counter (savepointSeq tx) w) a); [|exact F3].
      rewrite G3, length_app in Hbound. lia. }
    assert (Hsaves : saves s3 = extra ++ (sp, work s) :: saves s).
    { rewrite V3, R. reflexivity. }
    assert (Hl3 : live (Tx_Tx tx) w3 = Some s3) by (apply live_Some, S3).
    assert (C2 : committed w2 = committed w) by apply A1.
    exists s, s3.
    unfold Tx_Transaction.
    change (atomic_AddInt64 (savepointSeq tx) 1 w)
      with (id, (atomic_AddInt64 (savepointSeq tx) 1 w).2).
    cbv iota beta zeta. fold sp. rewrite E, Hrun.
    destruct r as [err|].
    - destruct (Tx_ExecContext tx ("ROLLBACK TO SAVEPOINT " +:+ sp) w3)
        as [rb w4] eqn:E4.
      pose proof E4 as E4'. unfold Tx_ExecContext, bun_Tx_ExecContext in E4'.
      destruct (in_tx_facts _ _ _ _ _ _ _ Hl3 E4')
        as (C4 & _ & _ & G4 & s4 & S4 & R4).
      exists (match rb with
              | Some rbErr => Some (savepoint_rollback_failed rbErr err)
              | None => Some err
              end), w4.
      split; [exact Hs|]. split; [exact S3|].
      split; [destruct rb; reflexivity|]. split; [exact G2|].
      split; [congruence|]. split; [exact G4|]. split.
      + destruct rb as [rbErr|]; [right; eauto | left; reflexivity].
      + intros Hf. destruct (in_tx_live _ ("ROLLBACK TO SAVEPOINT " +:+ sp)
                               (fun _ => session_exec
                                  ("ROLLBACK TO SAVEPOINT " +:+ sp)) _ _ Hl3)
          as (clk & scr & Eq).
        rewrite Eq, Hf in E4'. unfold session_exec in E4'.
        rewrite classify_rollback_to, Hsaves, rollback_to_fresh in E4'
          by exact Hfresh.
        cbn zeta in E4'. injection E4' as <- <-. cbn. rewrite O3, R. auto.
    - destruct (Tx_ExecContext tx ("RELEASE SAVEPOINT " +:+ sp) w3)
        as [rb w4] eqn:E4.
      pose proof E4 as E4'. unfold Tx_ExecContext, bun_Tx_ExecContext in E4'.
      destruct (in_tx_facts _ _ _ _ _ _ _ Hl3 E4')
        as (C4 & _ & _ & G4 & s4 & S4 & R4).
      exists (match rb with
              | Some e => wrapError (Some e) "Transaction.ReleaseSavepoint"
              | None => None
              end), w4.
      split; [exact Hs|]. split; [exact S3|].
      split; [destruct rb; reflexivity|]. split; [exact G2|].
      split; [congruence|]. split; [exact G4|].
      intros Hf Hab. destruct (in_tx_live _ ("RELEASE SAVEPOINT " +:+ sp)
                               (fun _ => session_exec
                                  ("RELEASE SAVEPOINT " +:+ sp)) _ _ Hl3)
          as (clk & scr & Eq).
      rewrite Eq, Hf in E4'. unfold session_exec in E4'.
      rewrite classify_release, Hab, Hsaves, release_fresh in E4'
        by exact Hfresh.
      cbn zeta in E4'. injection E4' as <- <-. cbn. rewrite O3, R. auto. }
  { intros opts p w.
    intros Hp w'. subst w'. unfold TransactionWithOptions.
    pose proof (BeginTx_log opts w) as Gb.
    destruct (BeginTx opts w) as [[h|e] w1] eqn:Hb; cbn [snd] in Gb.
    2:{ cbn [snd]. intros _. exists 0%nat. cbn [seq map].
        rewrite Gb, savepoints_of_app. split; [reflexivity | constructor]. }
    destruct (BeginTx_facts _ _ _ _ Hb) as (_ & _ & _ & _ & _ & S1).
    cbn [new_int64]. set (tx := mkTx h 0 (length (cells w1))).
    set (w2 := set_cells (cells w1 ++ [0]) w1).
    assert (Hok : Tx_ok tx w2).
    { split.
      - exists (fresh opts (committed w)). apply live_Some. exact S1.
      - cbn. rewrite length_app. cbn. lia. }
    assert (Hc : counter (length (cells w1)) w2 = 0).
    { unfold counter. cbn. rewrite list_lookup_middle; reflexivity. }
    destruct (run_scoped p h (length (cells w1)) Hp tx w2 eq_refl eq_refl Hok)
      as (a & A).
    pose proof (advances_Tx_ok tx a w2 _ Hok A) as [[s3 Hl3] _].
    destruct A as [_ _ _ _ (added & G3 & Pn & B3)]. rewrite Hc in Pn.
    assert (G2 : log w2 = log w ++ ["BEGIN"]) by exact Gb.
    destruct (run p tx w2) as [r w3]. cbn [snd] in *.
    assert (Hend : forall w4 q,
              log w4 = log w3 ++ [q] -> strip_prefix "SAVEPOINT " q = None ->
              Z.of_nat (length (log w4)) - Z.of_nat (length (log w)) < 2 ^ 63 ->
              exists a0,
                savepoints_of (log w4) =
                  savepoints_of (log w) ++
                  map (fun j => "sp_" +:+ fmt_d (Z.of_nat j)) (seq 1 a0) /\
                NoDup (map (fun j => "sp_" +:+ fmt_d (Z.of_nat j)) (seq 1 a0))).
    { intros w4 q G4 Hq Hbound. exists a.
      rewrite G4, G3, G2, !length_app in Hbound. cbn [length] in Hbound.
      rewrite <- names_from_zero by lia. split.
      - rewrite G4, G3, G2, !savepoints_of_app, Pn, !savepoints_of_cons, Hq.
        cbn. rewrite !app_nil_r. reflexivity.
      - apply NoDup_names_from. lia. }
    destruct (Tx_Rollback_effect tx w3) as (_ & _ & _ & _ & Gr).
    destruct (Tx_Commit_effect tx w3) as (_ & Gc).
    specialize (Gr s3 Hl3) as [_ Gr]. specialize (Gc s3 Hl3) as [_ Gc].
    destruct r as [[err|]|v].
    - destruct (Tx_Rollback tx w3) as [[rb|] w4]; cbn [snd] in *;
        apply (Hend w4 "ROLLBACK" Gr eq_refl).
    - destruct (Tx_Commit tx w3) as [[rb|] w4]; cbn [snd] in *;
        apply (Hend w4 "COMMIT" Gc eq_refl).
    - destruct (Tx_Rollback tx w3) as [rb w4]; cbn [snd] in *;
        apply (Hend w4 "ROLLBACK" Gr eq_refl). }
  { intros W1 W2 W3 err w u1 u3.
    destruct w as [cm ss nt cl ck sc lg]. cbn [session script committed log].
    intros -> -> H1 H2 H3 S1 S3.
    unfold Transaction, TransactionWithOptions, BeginTx. cbn [tick script fault
      session next_tx committed cells clock log new_int64 set_cells length].
    cbn [run]. unfold set_cells.
    cbn [committed session next_tx clock script log cells].
    rewrite exec_calm by reflexivity. rewrite session_exec_other, S1 by exact H1.
    unfold Tx_Transaction, atomic_AddInt64, set_cells.
    cbn [cells savepointSeq Tx_Tx committed session next_tx clock script log].
    rewrite list_lookup_middle by reflexivity.
    change (wrap64 (default 0 (Some 0) + 1)) with 1.
    change (fmt_d 1) with "1". change ("sp_" +:+ "1") with "sp_1".
    rewrite exec_calm, session_exec_savepoint_eq by reflexivity.
    rewrite exec_calm by reflexivity. cbn [user work ledger].
    assert (Hrb : forall st ab,
              session_exec ("ROLLBACK TO SAVEPOINT " +:+ "sp_1")
                (mkSession DefaultTxOptions st
                   [("sp_1", mkStore u1 (ledger cm))] ab)
              = inl (mkSession DefaultTxOptions (mkStore u1 (ledger cm))
                       [("sp_1", mkStore u1 (ledger cm))] false)).
    { intros st ab. apply session_exec_rollback_to_top. }
    rewrite session_exec_other by exact H2. cbn [user work ledger].
    destruct (sql_sem W2 u1) as [u2|pe];
      (rewrite exec_calm by reflexivity; unfold abort;
       cbn [options work saves]; rewrite Hrb;
       rewrite exec_calm by reflexivity;
       rewrite session_exec_other by exact H3; cbn [user work ledger];
       rewrite S3; rewrite Tx_Commit_calm by reflexivity;
       eexists; split; [reflexivity|]; cbn [committed log work];
       split; [reflexivity|]; rewrite <- !app_assoc; reflexivity). }
Qed.


(** ** Statements outside a transaction *)

Lemma tick_script (q : string) (w : World) :
  script (tick q w).2 = drop 1 (script w).
Proof. unfold tick. destruct (script w); reflexivity. Qed.

Lemma calm_next (n : nat) (w : World) : calm (S n) w -> next_fault w = None.
Proof.
  unfold calm, next_fault. destruct (script w) as [|ev rest]; [reflexivity|].
  cbn. intros H. apply Forall_cons in H. apply H.
Qed.

Lemma calm_drop (n : nat) (w w' : World) :
  calm (S n) w -> script w' = drop 1 (script w) -> calm n w'.
Proof.
  unfold calm. intros H ->. destruct (script w) as [|ev rest].
  - simpl. rewrite take_nil. constructor.
  - cbn in *. apply Forall_cons in H. apply H.
Qed.

Lemma classify_migrationsTable : classify migrationsTable = StCreateLedger.
Proof. reflexivity. Qed.

(** What [db.ExecContext(ctx, migrationsTable)] does. *)
Lemma create_ledger_facts (w w1 : World) (r : option error) :
  bun_DB_ExecContext migrationsTable w = (r, w1) ->
  session w1 = session w /\ user (committed w1) = user (committed w) /\
  ledger_rows (committed w1) = ledger_rows (committed w) /\
  (is_Some (ledger (committed w)) -> committed w1 = committed w) /\
  match r with
  | None =>
      session w = None /\ next_fault w = None /\
      ledger (committed w1) = Some (ledger_rows (committed w)) /\
      log w1 = log w ++ [migrationsTable] /\
      script w1 = drop 1 (script w)
  | Some _ => committed w1 = committed w
  end.
Proof.
  unfold bun_DB_ExecContext. destruct (session w) as [ss|] eqn:Hs.
  { intros [= <- <-]. auto. }
  pose proof (tick_script migrationsTable w) as Hscr.
  destruct (tick_spec migrationsTable w) as (clk & scr & Ht).
  rewrite Ht in *. cbn [snd script] in Hscr. subst scr.
  destruct (next_fault w); [intros [= <- <-]; cbn; auto|].
  rewrite classify_migrationsTable. unfold session_exec.
  rewrite classify_migrationsTable. cbn.
  intros [= <- <-]. cbn. unfold ledger_rows.
  destruct (committed w) as [u [rows|]]; cbn; repeat split; auto.
  intros [x Hx]. discriminate.
Qed.

Lemma create_ledger_calm (w : World) :
  session w = None -> next_fault w = None ->
  exists w1, bun_DB_ExecContext migrationsTable w = (None, w1).
Proof.
  intros Hs Hf. unfold bun_DB_ExecContext. rewrite Hs.
  destruct (tick_spec migrationsTable w) as (clk & scr & ->). rewrite Hf.
  rewrite classify_migrationsTable. unfold session_exec.
  rewrite classify_migrationsTable. cbn. eauto.
Qed.

(** What [getAppliedMigrations] does. *)
Lemma getApplied_facts (w w1 : World) (r : gmap string string + error) :
  getAppliedMigrations w = (r, w1) ->
  committed w1 = committed w /\ session w1 = session w /\
  match r with
  | inl applied =>
      applied = ledger_map (committed w) /\ session w = None /\
      is_Some (ledger (committed w)) /\
      log w1 = log w ++ [selectMigrations] /\
      script w1 = drop 1 (script w)
  | inr e => is_Some (as_Error e)
  end.
Proof.
  unfold getAppliedMigrations, bun_DB_selectMigrations.
  destruct (session w) as [ss|] eqn:Hs.
  { intros [= <- <-]. repeat split; cbn; eauto. }
  pose proof (tick_script selectMigrations w) as Hscr.
  destruct (tick_spec selectMigrations w) as (clk & scr & Ht).
  rewrite Ht in *. cbn [snd script] in Hscr. subst scr.
  destruct (next_fault w) as [e|].
  { intros [= <- <-]. cbn. repeat split; auto.
    unfold wrapError1. destruct (as_Error e) eqn:He; [rewrite He; eauto|].
    destruct (String.eqb _ _); [cbn; eauto|].
    destruct (as_PgError e); cbn; eauto. }
  cbn [committed]. unfold ledger_map, ledger_rows.
  destruct (ledger (committed w)) as [rows|] eqn:Hl.
  - intros [= <- <-]. cbn. rewrite ?Hl. repeat split; eauto.
  - intros [= <- <-]. cbn. repeat split; eauto.
Qed.

Lemma getApplied_calm (w : World) :
  session w = None -> next_fault w = None -> is_Some (ledger (committed w)) ->
  exists w1, getAppliedMigrations w = (inl (ledger_map (committed w)), w1).
Proof.
  intros Hs Hf [rows Hl].
  unfold getAppliedMigrations, bun_DB_selectMigrations. rewrite Hs.
  destruct (tick_spec selectMigrations w) as (clk & scr & ->). rewrite Hf.
  cbn [committed]. unfold ledger_map, ledger_rows. rewrite Hl. cbn. eauto.
Qed.


(** ** Errors keep a kind *)

Lemma as_Error_wrapError1 (e : error) (op : string) :
  is_Some (as_Error (wrapError1 e op)).
Proof.
  unfold wrapError1. destruct (as_Error e) eqn:He; [rewrite He; eauto|].
  destruct (String.eqb _ _); [cbn; eauto|].
  destruct (as_PgError e); cbn; eauto.
Qed.

(** ** One migration *)

Lemma Tx_Commit_live (tx : Tx) (w : World) (s : Session) :
  live (Tx_Tx tx) w = Some s ->
  exists clk scr,
    Tx_Commit tx w =
      let w1 := fun cm =>
        mkWorld cm None (next_tx w) (cells w) clk scr (log w ++ ["COMMIT"]) in
      match next_fault w with
      | Some e => (wrapError (Some e) "Commit", w1 (committed w))
      | None =>
          if aborted s then (None, w1 (committed w)) else (None, w1 (work s))
      end.
Proof.
  intros Hl. unfold Tx_Commit, bun_Tx_Commit. rewrite Hl.
  destruct (tick_spec "COMMIT" w) as (clk & scr & ->). exists clk, scr.
  destruct (next_fault w); [reflexivity|]. destruct (aborted s); reflexivity.
Qed.

Lemma session_insert_ok (id description checksum : string) (dur now : Z)
    (s s' : Session) :
  session_insert id description checksum dur now s = inl s' ->
  aborted s' = false /\ user (work s') = user (work s) /\
  (id ∉ map row_id (ledger_rows (work s))) /\
  ledger (work s') =
    Some (ledger_rows (work s) ++
          [mkLedgerRow id description checksum now dur]).
Proof.
  unfold session_insert, ledger_rows. destruct (aborted s); [discriminate|].
  destruct (ledger (work s)) as [rows|]; [|discriminate].
  destruct (_ || _); [discriminate|].
  destruct (existsb _ rows) eqn:Hex; [discriminate|].
  intros [= <-]. cbn. repeat split; auto.
  intros Hin. apply list_elem_of_In, in_map_iff in Hin as (r & Hr & Hin).
  assert (existsb (fun r => String.eqb (row_id r) id) rows = true).
  { apply existsb_exists. exists r. split; [exact Hin|].
    rewrite Hr. apply String.eqb_refl. }
  congruence.
Qed.

(** A single statement on a fresh session leaves the ledger's rows. *)
Lemma session_exec_fresh_ledger (q : string) (o : TxOptions) (st : Store)
    (s1 : Session) :
  session_exec q (fresh o st) = inl s1 ->
  ledger_rows (work s1) = ledger_rows st.
Proof.
  unfold session_exec, fresh. cbn.
  destruct (classify q); cbn; try discriminate.
  - intros [= <-]. reflexivity.
  - intros [= <-]. unfold ledger_rows. cbn. destruct (ledger st); reflexivity.
  - destruct (sql_sem q (user st)); [|discriminate]. intros [= <-]. reflexivity.
Qed.

(** [applyMigration]: one transaction, both effects or none. *)
Lemma applyMigration_spec (m : Migration) (checksum : string) (start : Z)
    (w : World) :
  exists res w',
    applyMigration m checksum start w = (Returned res, w') /\
    session w' = session w /\
    (exists l, log w' = log w ++ l /\
       l ∈ [ ["BEGIN"]; ["BEGIN"; SQL m; "ROLLBACK"];
             ["BEGIN"; SQL m; insertMigration; "ROLLBACK"]; apply_log m ]) /\
    match res with
    | None =>
        exists s1 s2 dur now,
          session w = None /\
          session_exec (SQL m) (fresh DefaultTxOptions (committed w)) = inl s1 /\
          session_insert (ID m) (Description m) checksum dur now s1 = inl s2 /\
          committed w' = work s2 /\ log w' = log w ++ apply_log m
    | Some e => committed w' = committed w /\ is_Some (as_Error e)
    end.
Proof.
  unfold applyMigration, Transaction, TransactionWithOptions.
  pose proof (BeginTx_log DefaultTxOptions w) as Gb.
  destruct (BeginTx DefaultTxOptions w) as [[h|e] w1] eqn:Hb; cbn [snd] in Gb.
  2:{ exists (wrapError (Some e) "Transaction.Begin"), w1.
      split; [reflexivity|].
      unfold BeginTx in Hb.
      destruct (tick_spec "BEGIN" w) as (clk & scr & Ht). rewrite Ht in Hb.
      assert (session w1 = session w /\ committed w1 = committed w) as [S C].
      { destruct (next_fault w); [injection Hb as <- <-; auto|]. cbn in Hb.
        destruct (session w); [injection Hb as <- <-; auto | discriminate]. }
      split; [exact S|]. split; [exists ["BEGIN"]; split; [exact Gb | set_solver]|].
      cbn. split; [exact C | apply as_Error_wrapError1]. }
  destruct (BeginTx_facts _ _ _ _ Hb) as (S0 & _ & C1 & _ & _ & S1).
  cbn [new_int64]. set (tx := mkTx h 0 (length (cells w1))).
  set (w2 := set_cells (cells w1 ++ [0]) w1).
  assert (Hl2 : live h w2 = Some (fresh DefaultTxOptions (committed w)))
    by (apply live_Some; exact S1).
  assert (C2 : committed w2 = committed w) by exact C1.
  assert (G2 : log w2 = log w ++ ["BEGIN"]) by exact Gb.
  (* rolling back after a failure *)
  assert (Hrb : forall w3 err l,
            is_Some (live h w3) -> committed w3 = committed w ->
            log w3 = log w ++ l -> is_Some (as_Error err) ->
            exists res w',
              match Tx_Rollback tx w3 with
              | (Some rbErr, w4) =>
                  (Returned (Some (rollback_failed rbErr err)), w4)
              | (None, w4) => (Returned (Some err), w4)
              end = (Returned (Some res), w') /\
              session w' = None /\ log w' = log w ++ l ++ ["ROLLBACK"] /\
              committed w' = committed w /\ is_Some (as_Error res)).
  { intros w3 err l [s3 Hl3] C3 G3 He.
    destruct (Tx_Rollback_effect tx w3) as (_ & C4 & _ & _ & G4).
    destruct (G4 s3 Hl3) as [S4 G4'].
    destruct (Tx_Rollback tx w3) as [[rbErr|] w4]; cbn [snd] in *;
      eexists _, w4; (split; [reflexivity|]);
      rewrite G4', G3, <- app_assoc; repeat split; auto; congruence. }
  unfold applyMigration_fn at 1.
  destruct (Tx_ExecContext tx (SQL m) w2) as [r3 w3] eqn:E3.
  pose proof E3 as E3'. unfold Tx_ExecContext, bun_Tx_ExecContext in E3'.
  destruct (in_tx_facts _ _ _ _ _ _ _ Hl2 E3')
    as (C3 & _ & _ & G3 & s3 & S3 & R3).
  assert (Hl3 : live h w3 = Some s3) by (apply live_Some; exact S3).
  destruct r3 as [err|].
  { assert (H1 : is_Some (live h w3)) by eauto.
    assert (H2 : committed w3 = committed w) by congruence.
    assert (H3 : log w3 = log w ++ ["BEGIN"; SQL m])
      by (rewrite G3, G2, <- app_assoc; reflexivity).
    assert (H4 : is_Some (as_Error (apply_error m err))) by (cbn; eauto).
    destruct (Hrb w3 _ _ H1 H2 H3 H4) as (res & w' & Eq & S' & G' & C' & He).
    exists (Some res), w'. split; [exact Eq|]. split; [congruence|].
    split; [eexists; split; [exact G' | set_solver]|]. auto. }
  destruct R3 as (_ & now3 & R3).
  destruct (bun_Tx_insertMigration (Tx_Tx tx) (ID m) (Description m) checksum
              (Milliseconds (time_Since start w3)) w3) as [r4 w4] eqn:E4.
  pose proof E4 as E4'. unfold bun_Tx_insertMigration in E4'.
  destruct (in_tx_facts _ _ _ _ _ _ _ Hl3 E4')
    as (C4 & _ & _ & G4 & s4 & S4 & R4).
  assert (Hl4 : live h w4 = Some s4) by (apply live_Some; exact S4).
  destruct r4 as [err|].
  { assert (H1 : is_Some (live h w4)) by eauto.
    assert (H2 : committed w4 = committed w) by congruence.
    assert (H3 : log w4 = log w ++ ["BEGIN"; SQL m; insertMigration])
      by (rewrite G4, G3, G2, <- !app_assoc; reflexivity).
    pose proof (as_Error_wrapError1 err "Migrate.Record") as H4.
    destruct (Hrb w4 _ _ H1 H2 H3 H4) as (res & w' & Eq & S' & G' & C' & He).
    exists (Some res), w'. split; [exact Eq|]. split; [congruence|].
    split; [eexists; split; [exact G' | set_solver]|]. auto. }
  destruct R4 as (_ & now4 & R4).
  destruct (session_insert_ok _ _ _ _ _ _ _ R4) as (Hab & _).
  destruct (Tx_Commit_live tx w4 s4 Hl4) as (clk & scr & Ec).
  rewrite Ec, Hab. cbn zeta.
  assert (G4' : log w4 ++ ["COMMIT"] = log w ++ apply_log m).
  { rewrite G4, G3, G2, <- !app_assoc. reflexivity. }
  destruct (next_fault w4) as [e|].
  - eexists _, _. split; [reflexivity|]. cbn [session log committed].
    split; [congruence|].
    split; [exists (apply_log m); split; [exact G4' | set_solver]|].
    cbn. split; [congruence | apply as_Error_wrapError1].
  - eexists None, _. split; [reflexivity|]. cbn [session log committed].
    split; [congruence|].
    split; [exists (apply_log m); split; [exact G4' | set_solver]|].
    exists s3, s4, (Milliseconds (time_Since start w3)), now4.
    repeat split; auto.
Qed.


Lemma applyMigration_ok (m : Migration) (c : string) (start : Z)
    (w w1 : World) :
  applyMigration m c start w = (Returned None, w1) ->
  session w = None /\ session w1 = None /\
  log w1 = log w ++ apply_log m /\
  exists s1 row,
    session_exec (SQL m) (fresh DefaultTxOptions (committed w)) = inl s1 /\
    user (committed w1) = user (work s1) /\
    ledger (committed w1) = Some (ledger_rows (committed w) ++ [row]) /\
    row_id row = ID m /\ row_description row = Description m /\
    row_checksum row = c /\
    ID m ∉ map row_id (ledger_rows (committed w)).
Proof.
  intros E.
  destruct (applyMigration_spec m c start w) as (res & w' & Eq & S & _ & R).
  rewrite E in Eq. injection Eq as <- <-.
  destruct R as (s1 & s2 & dur & now & S0 & R1 & R2 & C & G).
  destruct (session_insert_ok _ _ _ _ _ _ _ R2) as (_ & U & Hin & L).
  rewrite (session_exec_fresh_ledger _ _ _ _ R1) in Hin, L.
  repeat split; try congruence.
  exists s1, (mkLedgerRow (ID m) (Description m) c now dur).
  rewrite C. repeat split; auto.
Qed.

Lemma applyMigration_err (m : Migration) (c : string) (start : Z)
    (w w1 : World) (e : error) :
  applyMigration m c start w = (Returned (Some e), w1) ->
  committed w1 = committed w /\ session w1 = session w /\
  is_Some (as_Error e).
Proof.
  intros E.
  destruct (applyMigration_spec m c start w) as (res & w' & Eq & S & _ & R).
  rewrite E in Eq. injection Eq as <- <-. destruct R. auto.
Qed.

Lemma applyMigration_no_panic (m : Migration) (c : string) (start : Z)
    (w w1 : World) (p : string) :
  applyMigration m c start w <> (Panicked p, w1).
Proof.
  intros E.
  destruct (applyMigration_spec m c start w) as (res & w' & Eq & _).
  congruence.
Qed.

(** ** The ledger as a map *)

Lemma ledger_map_snoc (st st' : Store) (row : LedgerRow) :
  ledger_rows st' = ledger_rows st ++ [row] ->
  ledger_map st' = <[row_id row := row_checksum row]> (ledger_map st).
Proof.
  intros H. unfold ledger_map. rewrite H, map_app, foldl_app. reflexivity.
Qed.

Lemma ledger_map_notin (st : Store) (id : string) :
  id ∉ map row_id (ledger_rows st) -> ledger_map st !! id = None.
Proof.
  unfold ledger_map. induction (ledger_rows st) as [|row rows IH] using rev_ind.
  - intros _. apply lookup_empty.
  - rewrite !map_app, foldl_app. cbn. intros Hin.
    rewrite lookup_insert_ne by set_solver. apply IH. set_solver.
Qed.

(** ** The loop of [Migrate] *)

Lemma Migrate_loop_app (applied : gmap string string)
    (pre rest : list Migration) (result : MigrationResult) (w : World) :
  Migrate_loop applied (pre ++ rest) result w =
    match Migrate_loop applied pre result w with
    | (Returned (inl r1), w1) => Migrate_loop applied rest r1 w1
    | other => other
    end.
Proof.
  revert result w. induction pre as [|m pre IH]; intros result w.
  - reflexivity.
  - cbn [app Migrate_loop]. destruct (applied !! ID m) as [existing|].
    + destruct (negb _); [reflexivity | apply IH].
    + destruct (applyMigration _ _ _ w) as [[[e|]|p] w1];
        [reflexivity | apply IH | reflexivity].
Qed.

Lemma Migrate_loop_ok (applied : gmap string string) (ms : list Migration)
    (result r : MigrationResult) (w w' : World) :
  Migrate_loop applied ms result w = (Returned (inl r), w') ->
  map am_ID (Applied r) =
    map am_ID (Applied result) ++
    filter (fun id => applied !! id = None) (map ID ms) /\
  Skipped r =
    Skipped result ++ filter (fun id => is_Some (applied !! id)) (map ID ms) /\
  TotalTime r = TotalTime result /\
  session w' = session w /\
  log w' =
    log w ++
    concat (map apply_log (filter (fun m => applied !! ID m = None) ms)) /\
  (exists rows,
     ledger_rows (committed w') = ledger_rows (committed w) ++ rows /\
     map row_id rows = filter (fun id => applied !! id = None) (map ID ms)) /\
  (filter (fun m => applied !! ID m = None) ms = [] ->
     committed w' = committed w).
Proof.
  revert result w. induction ms as [|m ms IH]; intros result w E.
  - cbn in E. injection E as <- <-. cbn. rewrite !app_nil_r.
    repeat split; auto. exists []. rewrite app_nil_r. auto.
  - cbn [Migrate_loop] in E. cbn [map].
    destruct (applied !! ID m) as [existing|] eqn:Ha.
    + destruct (negb _); [discriminate|].
      destruct (IH _ _ E) as (A & K & T & S & G & (rows & Lr & Li) & Cm).
      cbn [Applied Skipped TotalTime] in A, K, T.
      repeat first
        [ rewrite filter_cons_True by (cbn; rewrite Ha; eauto)
        | rewrite filter_cons_False by (cbn; rewrite Ha; discriminate) ].
      rewrite K, <- app_assoc. repeat split; eauto.
    + destruct (applyMigration _ _ _ w) as [[[e|]|p] w1] eqn:Ea;
        try discriminate.
      destruct (applyMigration_ok _ _ _ _ _ Ea)
        as (S0 & S1 & G1 & s1 & row & _ & _ & L1 & I1 & _).
      destruct (IH _ _ E) as (A & K & T & S & G & (rows & Lr & Li) & Cm).
      cbn [Applied Skipped TotalTime] in A, K, T.
      repeat first
        [ rewrite filter_cons_True by exact Ha
        | rewrite filter_cons_False
            by (cbn; rewrite Ha; intros [? ?]; discriminate) ].
      split.
      { rewrite A. cbn [Applied]. rewrite map_app.
        exact (eq_sym (app_assoc _ [ID m] _)). }
      split; [exact K|]. split; [exact T|]. split; [congruence|].
      split.
      { cbn [map concat]. rewrite G, G1, <- app_assoc. reflexivity. }
      split; [|discriminate].
      assert (L1' : ledger_rows (committed w1) =
                    ledger_rows (committed w) ++ [row]).
      { unfold ledger_rows at 1. rewrite L1. reflexivity. }
      exists (row :: rows). rewrite Lr, L1', <- app_assoc. cbn [map].
      rewrite I1, Li. split; reflexivity.
Qed.

Lemma Migrate_loop_table (applied : gmap string string) (ms : list Migration)
    (result r : MigrationResult) (w w' : World) :
  Migrate_loop applied ms result w = (Returned (inl r), w') ->
  is_Some (ledger (committed w)) -> is_Some (ledger (committed w')).
Proof.
  revert result w. induction ms as [|m ms IH]; intros result w E H.
  - cbn in E. injection E as <- <-. exact H.
  - cbn [Migrate_loop] in E. destruct (applied !! ID m) as [existing|].
    + destruct (negb _); [discriminate | eapply IH; eauto].
    + destruct (applyMigration _ _ _ w) as [[[e|]|p] w1] eqn:Ea;
        try discriminate.
      destruct (applyMigration_ok _ _ _ _ _ Ea)
        as (_ & _ & _ & s1 & row & _ & _ & L1 & _).
      eapply IH; eauto.
Qed.

Lemma Migrate_loop_ledger (applied : gmap string string) (ms : list Migration)
    (result r : MigrationResult) (w w' : World) :
  Migrate_loop applied ms result w = (Returned (inl r), w') ->
  applied ⊆ ledger_map (committed w) ->
  ledger_map (committed w) ⊆ ledger_map (committed w') /\
  forall m, m ∈ ms ->
    ledger_map (committed w') !! ID m = Some (checksumSQL (SQL m)).
Proof.
  revert result w. induction ms as [|m ms IH]; intros result w E Hsub.
  - cbn in E. injection E as <- <-. split; [reflexivity|]. intros m Hm.
    inversion Hm.
  - cbn [Migrate_loop] in E.
    destruct (applied !! ID m) as [existing|] eqn:Ha.
    + destruct (String.eqb_spec existing (checksumSQL (SQL m))) as [->|Hne];
        [|discriminate]. cbn [negb] in E.
      destruct (IH _ _ E Hsub) as (Hsub' & Hall). split; [exact Hsub'|].
      intros m' Hm'. apply elem_of_cons in Hm' as [->|Hm']; [|auto].
      eapply lookup_weaken; [|exact Hsub'].
      eapply lookup_weaken; [exact Ha | exact Hsub].
    + destruct (applyMigration _ _ _ w) as [[[e|]|p] w1] eqn:Ea;
        try discriminate.
      destruct (applyMigration_ok _ _ _ _ _ Ea)
        as (S0 & S1 & G1 & s1 & row & _ & _ & L1 & I1 & _ & K1 & Hin).
      assert (Lm : ledger_map (committed w1) =
                   <[ID m := checksumSQL (SQL m)]> (ledger_map (committed w))).
      { rewrite <- I1, <- K1. apply ledger_map_snoc.
        unfold ledger_rows at 1. rewrite L1. reflexivity. }
      assert (Hnone : ledger_map (committed w) !! ID m = None)
        by (apply ledger_map_notin, Hin).
      assert (Hsub1 : ledger_map (committed w) ⊆ ledger_map (committed w1)).
      { rewrite Lm. apply insert_subseteq, Hnone. }
      destruct (IH _ _ E) as (Hsub' & Hall).
      { etransitivity; eauto. }
      split; [etransitivity; eauto|].
      intros m' Hm'. apply elem_of_cons in Hm' as [->|Hm']; [|auto].
      eapply lookup_weaken; [|exact Hsub']. rewrite Lm.
      apply lookup_insert_eq.
Qed.

Lemma Migrate_loop_no_panic (applied : gmap string string)
    (ms : list Migration) (result : MigrationResult) (w w' : World)
    (p : string) :
  Migrate_loop applied ms result w <> (Panicked p, w').
Proof.
  revert result w. induction ms as [|m ms IH]; intros result w E.
  - discriminate.
  - cbn [Migrate_loop] in E. destruct (applied !! ID m) as [existing|].
    + destruct (negb _); [discriminate | eapply IH; eauto].
    + destruct (applyMigration _ _ _ w) as [[[e|]|p'] w1] eqn:Ea;
        [discriminate | eapply IH; eauto |].
      eapply applyMigration_no_panic; eauto.
Qed.

Lemma Migrate_loop_error (applied : gmap string string)
    (ms : list Migration) (result : MigrationResult) (w w' : World)
    (e : error) :
  Migrate_loop applied ms result w = (Returned (inr e), w') ->
  is_Some (as_Error e).
Proof.
  revert result w. induction ms as [|m ms IH]; intros result w E.
  - discriminate.
  - cbn [Migrate_loop] in E. destruct (applied !! ID m) as [existing|].
    + destruct (negb _); [injection E as <- <-; cbn; eauto | eapply IH; eauto].
    + destruct (applyMigration _ _ _ w) as [[[e'|]|p'] w1] eqn:Ea;
        [| eapply IH; eauto | discriminate].
      injection E as <- <-. eapply applyMigration_err; eauto.
Qed.


(** ** [Migrate] as a whole *)

Lemma ledger_map_rows (st st' : Store) :
  ledger_rows st' = ledger_rows st -> ledger_map st' = ledger_map st.
Proof. unfold ledger_map. intros ->. reflexivity. Qed.

(** A successful [Migrate] is its two opening statements and a successful
    loop. *)
Lemma Migrate_success (ms : list Migration) (w w' : World)
    (r : MigrationResult) :
  Migrate ms w = (Returned (inl r), w') ->
  exists w2 r0,
    Migrate_loop (ledger_map (committed w)) ms (mkMigrationResult [] [] 0) w2
      = (Returned (inl r0), w') /\
    r = mkMigrationResult (Applied r0) (Skipped r0)
          (time_Since (time_Now w) w') /\
    session w = None /\ session w2 = None /\
    log w2 = log w ++ [migrationsTable; selectMigrations] /\
    ledger_rows (committed w2) = ledger_rows (committed w) /\
    user (committed w2) = user (committed w) /\
    is_Some (ledger (committed w2)) /\
    (is_Some (ledger (committed w)) -> committed w2 = committed w).
Proof.
  unfold Migrate.
  destruct (bun_DB_ExecContext migrationsTable w) as [r1 w1] eqn:E1.
  destruct (create_ledger_facts _ _ _ E1) as (S1 & U1 & L1 & K1 & R1).
  destruct r1 as [e|]; [discriminate|].
  destruct R1 as (S0 & _ & T1 & G1 & _).
  destruct (getAppliedMigrations w1) as [r2 w2] eqn:E2.
  destruct (getApplied_facts _ _ _ E2) as (C2 & S2 & R2).
  destruct r2 as [applied|e]; [|discriminate].
  destruct R2 as (-> & _ & _ & G2 & _).
  rewrite (ledger_map_rows _ _ L1).
  destruct (Migrate_loop _ ms _ w2) as [[[r0|e]|p] w3] eqn:E3;
    try discriminate.
  intros [= <- <-]. exists w2, r0. repeat split; try congruence.
  - rewrite G2, G1, <- app_assoc. reflexivity.
  - rewrite C2, T1. eauto.
  - intros H. rewrite C2. auto.
Qed.

(** Running a longer list goes through the run of its prefix. *)
Lemma Migrate_prefix (pre rest : list Migration) (w w1 : World)
    (r1 : MigrationResult) :
  Migrate pre w = (Returned (inl r1), w1) ->
  Migrate (pre ++ rest) w =
    match Migrate_loop (ledger_map (committed w)) rest
            (mkMigrationResult (Applied r1) (Skipped r1) 0) w1 with
    | (Returned (inl r), w3) =>
        (Returned (inl (mkMigrationResult (Applied r) (Skipped r)
                          (time_Since (time_Now w) w3))), w3)
    | other => other
    end.
Proof.
  unfold Migrate.
  destruct (bun_DB_ExecContext migrationsTable w) as [[e|] w0] eqn:E1;
    [discriminate|].
  destruct (create_ledger_facts _ _ _ E1) as (_ & _ & L1 & _).
  destruct (getAppliedMigrations w0) as [[applied|e] w2] eqn:E2;
    [|discriminate].
  destruct (getApplied_facts _ _ _ E2) as (_ & _ & -> & _).
  rewrite (ledger_map_rows _ _ L1), Migrate_loop_app.
  destruct (Migrate_loop _ pre _ w2) as [[[r0|e]|p] w3] eqn:E3;
    try discriminate.
  intros [= <- <-]. cbn [Applied Skipped].
  destruct (Migrate_loop_ok _ _ _ _ _ _ E3) as (_ & _ & T & _).
  cbn in T. destruct r0 as [a k t]. cbn in T. subst t. reflexivity.
Qed.

Lemma Migrate_loop_skip_all (applied : gmap string string)
    (ms : list Migration) (result : MigrationResult) (w : World) :
  (forall m, m ∈ ms -> applied !! ID m = Some (checksumSQL (SQL m))) ->
  Migrate_loop applied ms result w =
    (Returned (inl (mkMigrationResult (Applied result)
                      (Skipped result ++ map ID ms) (TotalTime result))), w).
Proof.
  revert result. induction ms as [|m ms IH]; intros result H.
  - cbn. rewrite app_nil_r. destruct result; reflexivity.
  - cbn [Migrate_loop]. rewrite (H m) by set_solver.
    rewrite String.eqb_refl. cbn [negb]. rewrite IH by set_solver.
    cbn [Applied Skipped TotalTime map]. rewrite <- app_assoc. reflexivity.
Qed.

Lemma Migrate_error_kind (ms : list Migration) (w w' : World) (e : error) :
  Migrate ms w = (Returned (inr e), w') -> is_Some (GetErrorCode e).
Proof.
  intros E. assert (H : is_Some (as_Error e)).
  { unfold Migrate in E.
    destruct (bun_DB_ExecContext migrationsTable w) as [[e1|] w1];
      [injection E as <- <-; cbn; eauto|].
    destruct (getAppliedMigrations w1) as [[applied|e2] w2] eqn:E2.
    - destruct (Migrate_loop _ ms _ w2) as [[[r0|e3]|p] w3] eqn:E3;
        try discriminate.
      injection E as <- <-. eapply Migrate_loop_error; eauto.
    - injection E as <- <-. apply (getApplied_facts _ _ _ E2). }
  unfold GetErrorCode. destruct H as [x ->]. eauto.
Qed.

Lemma Migrate_no_panic (ms : list Migration) (w w' : World) (p : string) :
  Migrate ms w <> (Panicked p, w').
Proof.
  unfold Migrate. intros E.
  destruct (bun_DB_ExecContext migrationsTable w) as [[e1|] w1];
    [discriminate|].
  destruct (getAppliedMigrations w1) as [[applied|e2] w2]; [|discriminate].
  destruct (Migrate_loop _ ms _ w2) as [[[r0|e3]|p'] w3] eqn:E3;
    try discriminate.
  injection E as <- <-. eapply Migrate_loop_no_panic; eauto.
Qed.


Lemma drift_error_names (id existing checksum : string) :
  GetErrorCode (drift_error id existing checksum) = Some CodeUnknown /\
  contains id (error_string (drift_error id existing checksum)) /\
  contains existing (error_string (drift_error id existing checksum)) /\
  contains checksum (error_string (drift_error id existing checksum)).
Proof.
  split; [reflexivity|].
  assert (E : error_string (drift_error id existing checksum) =
              "dbkit.Migrate: migration " +:+ id +:+
              " has changed (checksum mismatch: expected " +:+ existing +:+
              ", got " +:+ checksum +:+ ")") by reflexivity.
  rewrite E. repeat split.
  - exists "dbkit.Migrate: migration ",
      (" has changed (checksum mismatch: expected " +:+ existing +:+
       ", got " +:+ checksum +:+ ")"). reflexivity.
  - exists ("dbkit.Migrate: migration " +:+ id +:+
            " has changed (checksum mismatch: expected "),
      (", got " +:+ checksum +:+ ")").
    rewrite !append_assoc. reflexivity.
  - exists ("dbkit.Migrate: migration " +:+ id +:+
            " has changed (checksum mismatch: expected " +:+ existing +:+
            ", got "), ")".
    rewrite !append_assoc. reflexivity.
Qed.

(** The run stops at a changed migration, in the state the prefix left. *)
Lemma Migrate_drift_result (pre post : list Migration) (m : Migration)
    (w w1 : World) (r1 : MigrationResult) (existing : string) :
  Migrate pre w = (Returned (inl r1), w1) ->
  ledger_map (committed w) !! ID m = Some existing ->
  existing <> checksumSQL (SQL m) ->
  Migrate (pre ++ m :: post) w =
    (Returned (inr (drift_error (ID m) existing (checksumSQL (SQL m)))), w1).
Proof.
  intros E Ha Hne. rewrite (Migrate_prefix _ _ _ _ _ E).
  cbn [Migrate_loop]. rewrite Ha.
  destruct (String.eqb_spec existing (checksumSQL (SQL m))); [contradiction|].
  reflexivity.
Qed.


(** C10. A successful [Migrate] walks the list in input order: the ids it
    applied are the input ids absent from the ledger it read, the ids it
    skipped are those present, both in input order; the statements it sent
    are the two opening ones and then, migration by migration in input
    order, BEGIN, the migration's SQL, the ledger INSERT, COMMIT. So every
    input id is in exactly one of the two lists. *)
Theorem Migrate_input_order (ms : list Migration) (w w' : World)
    (r : MigrationResult) :
  Migrate ms w = (Returned (inl r), w') ->
  map am_ID (Applied r) =
    filter (fun id => ledger_map (committed w) !! id = None) (map ID ms) /\
  Skipped r =
    filter (fun id => is_Some (ledger_map (committed w) !! id)) (map ID ms) /\
  log w' =
    log w ++ [migrationsTable; selectMigrations] ++
    concat (map apply_log
              (filter (fun m => ledger_map (committed w) !! ID m = None) ms)) /\
  (forall id, id ∈ map ID ms ->
     (id ∈ map am_ID (Applied r) /\ id ∉ Skipped r) \/
     (id ∈ Skipped r /\ id ∉ map am_ID (Applied r))) /\
  sublist (map am_ID (Applied r)) (map ID ms) /\
  sublist (Skipped r) (map ID ms).
Proof.
  intros E.
  destruct (Migrate_success _ _ _ _ E)
    as (w2 & r0 & El & -> & _ & _ & G2 & _).
  destruct (Migrate_loop_ok _ _ _ _ _ _ El) as (A & K & _ & _ & G & _).
  cbn [Applied Skipped map app] in *.
  split; [exact A|]. split; [exact K|]. split.
  { rewrite G, G2, <- app_assoc. reflexivity. }
  split.
  { intros id Hid. rewrite A, K.
    destruct (ledger_map (committed w) !! id) as [c|] eqn:Hl; [right | left];
      split.
    - apply list_elem_of_filter. split; [rewrite Hl; eauto | exact Hid].
    - intros H. apply list_elem_of_filter in H as [H _]. congruence.
    - apply list_elem_of_filter. split; [exact Hl | exact Hid].
    - intros H. apply list_elem_of_filter in H as [[x H] _]. congruence. }
  rewrite A, K. split; apply sublist_filter.
Qed.

(** C3. When [Migrate] reaches a migration whose id is in the ledger it
    read with another checksum, it returns at once: the error names the
    id and both checksums, the world is the one the migrations before it
    left, whatever follows in the list, and the rows the ledger had are
    all still there, in place. *)
Theorem Migrate_checksum_drift (pre post : list Migration) (m : Migration)
    (w w1 : World) (r1 : MigrationResult) (existing : string) :
  Migrate pre w = (Returned (inl r1), w1) ->
  ledger_map (committed w) !! ID m = Some existing ->
  existing <> checksumSQL (SQL m) ->
  exists e,
    Migrate (pre ++ m :: post) w = (Returned (inr e), w1) /\
    contains (ID m) (error_string e) /\
    contains existing (error_string e) /\
    contains (checksumSQL (SQL m)) (error_string e) /\
    exists added,
      ledger_rows (committed w1) = ledger_rows (committed w) ++ added.
Proof.
  intros E Ha Hne.
  exists (drift_error (ID m) existing (checksumSQL (SQL m))).
  split; [apply (Migrate_drift_result _ _ _ _ _ _ _ E Ha Hne)|].
  destruct (drift_error_names (ID m) existing (checksumSQL (SQL m)))
    as (_ & H1 & H2 & H3).
  do 3 (split; [assumption|]).
  destruct (Migrate_success _ _ _ _ E)
    as (w2 & r0 & El & _ & _ & _ & _ & L2 & _).
  destruct (Migrate_loop_ok _ _ _ _ _ _ El)
    as (_ & _ & _ & _ & _ & (rows & Lr & _) & _).
  exists rows. congruence.
Qed.

(** C4. After a [Migrate] that succeeded, every id of the list is in the
    ledger with the checksum of its SQL; a second [Migrate] of the same
    list, its two statements meeting no fault, applies nothing, skips
    every id, sends only those two statements and leaves the database as
    it was. *)
Theorem Migrate_idempotent (ms : list Migration) (w w1 : World)
    (r1 : MigrationResult) :
  Migrate ms w = (Returned (inl r1), w1) ->
  calm 2 w1 ->
  (forall m, m ∈ ms ->
     ledger_map (committed w1) !! ID m = Some (checksumSQL (SQL m))) /\
  exists t w2,
    Migrate ms w1 = (Returned (inl (mkMigrationResult [] (map ID ms) t)), w2) /\
    committed w2 = committed w1 /\
    log w2 = log w1 ++ [migrationsTable; selectMigrations].
Proof.
  intros E Hcalm.
  destruct (Migrate_success _ _ _ _ E)
    as (w2 & r0 & El & _ & _ & S2 & _ & L2 & _ & T2 & _).
  destruct (Migrate_loop_ok _ _ _ _ _ _ El) as (_ & _ & _ & S1 & _).
  destruct (Migrate_loop_ledger _ _ _ _ _ _ El) as (_ & Hall).
  { rewrite (ledger_map_rows _ _ L2). reflexivity. }
  pose proof (Migrate_loop_table _ _ _ _ _ _ El T2) as T1.
  split; [exact Hall|].
  assert (Hs1 : session w1 = None) by congruence.
  destruct (create_ledger_calm w1 Hs1 (calm_next _ _ Hcalm)) as (wa & Ea).
  destruct (create_ledger_facts _ _ _ Ea)
    as (Sa & _ & La & Ka & _ & _ & Ta & Ga & Scr).
  pose proof (calm_drop _ _ _ Hcalm Scr) as Hcalm'.
  assert (Hsa : session wa = None) by congruence.
  destruct (getApplied_calm wa Hsa (calm_next _ _ Hcalm')) as (wb & Eb).
  { rewrite Ta. eauto. }
  destruct (getApplied_facts _ _ _ Eb) as (Cb & _ & _ & _ & _ & Gb & _).
  unfold Migrate. rewrite Ea, Eb, (ledger_map_rows _ _ La).
  rewrite (Migrate_loop_skip_all _ _ _ _ Hall). cbn [Applied Skipped app].
  eexists _, wb. split; [reflexivity|]. split.
  - rewrite Cb. apply Ka, T1.
  - rewrite Gb, Ga, <- app_assoc. reflexivity.
Qed.

(** C2. A migration whose id is not in the ledger [Migrate] read is applied
    by [applyMigration] in one transaction: the statements sent are BEGIN,
    the SQL, the INSERT and COMMIT, or end in ROLLBACK after the statement
    that failed. It succeeds only when the SQL and the INSERT both took
    effect; a failing SQL statement or an id already in the table make it
    fail. When it fails nothing is persisted, [Migrate] returns that error
    in the state the earlier migrations left, and the rest of the list
    plays no part. *)
Theorem Migrate_failure_contained (pre post : list Migration) (m : Migration)
    (w w1 : World) (r1 : MigrationResult) :
  Migrate pre w = (Returned (inl r1), w1) ->
  ledger_map (committed w) !! ID m = None ->
  exists res w2,
    applyMigration m (checksumSQL (SQL m)) (time_Now w1) w1
      = (Returned res, w2) /\
    (exists l, log w2 = log w1 ++ l /\
       l ∈ [ ["BEGIN"]; ["BEGIN"; SQL m; "ROLLBACK"];
             ["BEGIN"; SQL m; insertMigration; "ROLLBACK"]; apply_log m ]) /\
    (forall pe,
       session_exec (SQL m) (fresh DefaultTxOptions (committed w1)) = inr pe ->
       res <> None) /\
    (ID m ∈ map row_id (ledger_rows (committed w1)) -> res <> None) /\
    match res with
    | Some err =>
        committed w2 = committed w1 /\
        Migrate (pre ++ m :: post) w = (Returned (inr err), w2)
    | None =>
        exists s1 s2 dur now,
          session_exec (SQL m) (fresh DefaultTxOptions (committed w1))
            = inl s1 /\
          session_insert (ID m) (Description m) (checksumSQL (SQL m)) dur now
            s1 = inl s2 /\
          committed w2 = work s2 /\ log w2 = log w1 ++ apply_log m
    end.
Proof.
  intros E Ha.
  destruct (applyMigration_spec m (checksumSQL (SQL m)) (time_Now w1) w1)
    as (res & w2 & Eq & _ & Hl & R).
  exists res, w2. split; [exact Eq|]. split; [exact Hl|].
  split; [|split].
  - intros pe Hpe ->. destruct R as (s1 & s2 & dur & now & _ & R1 & _).
    congruence.
  - intros Hin ->. destruct R as (s1 & s2 & dur & now & _ & R1 & R2 & _).
    destruct (session_insert_ok _ _ _ _ _ _ _ R2) as (_ & _ & Hnot & _).
    rewrite (session_exec_fresh_ledger _ _ _ _ R1) in Hnot. contradiction.
  - destruct res as [err|].
    + destruct R as [C _]. split; [exact C|].
      rewrite (Migrate_prefix _ _ _ _ _ E). cbn [Migrate_loop].
      rewrite Ha. unfold time_Now in Eq |- *. rewrite Eq. reflexivity.
    + destruct R as (s1 & s2 & dur & now & _ & R1 & R2 & C & G).
      exists s1, s2, dur, now. auto.
Qed.

Lemma GetErrorCode_as_Error (e : error) :
  is_Some (as_Error e) -> is_Some (GetErrorCode e).
Proof. unfold GetErrorCode. intros [d ->]. eauto. Qed.

Lemma GetErrorCode_wrapError1 (e : error) (op : string) :
  is_Some (GetErrorCode (wrapError1 e op)).
Proof. apply GetErrorCode_as_Error, as_Error_wrapError1. Qed.

(** C8, as the code has it. The errors the transaction manager and the
    migration engine build themselves carry a kind: those of [Migrate],
    [MigrationStatus], [BeginWithOptions], [Tx.Commit], [Tx.Rollback] and
    the savepoint methods, and those of a failed BEGIN, SAVEPOINT, RELEASE
    or COMMIT inside [TransactionWithOptions] and [Tx.Transaction]. What
    the two runners return besides is the callback's own error, or the
    composite around it when the rollback failed as well: these carry the
    kind of the callback's error, and none when that has none. No kind is
    a checksum-drift kind: the error of a changed migration carries
    [CodeUnknown], the kind of unclassified failures, and is told apart
    only by its operation and message. *)
Theorem error_kinds :
  (forall ms w w' e,
     Migrate ms w = (Returned (inr e), w') -> is_Some (GetErrorCode e)) /\
  (forall ms w w' e,
     MigrationStatus ms w = (inr e, w') -> is_Some (GetErrorCode e)) /\
  (forall opts w w' e,
     BeginWithOptions opts w = (inr e, w') -> is_Some (GetErrorCode e)) /\
  (forall tx w w' e,
     Tx_Commit tx w = (Some e, w') \/ Tx_Rollback tx w = (Some e, w') ->
     is_Some (GetErrorCode e)) /\
  (forall tx name w w' e,
     Tx_Savepoint tx name w = (Some e, w') \/
     Tx_RollbackTo tx name w = (Some e, w') \/
     Tx_ReleaseSavepoint tx name w = (Some e, w') ->
     is_Some (GetErrorCode e)) /\
  (forall opts fn w w' e,
     TransactionWithOptions opts fn w = (Returned (Some e), w') ->
     is_Some (GetErrorCode e) \/
     exists tx w0 w1 err,
       fn tx w0 = (Returned (Some err), w1) /\
       (e = err \/ exists rbErr, e = rollback_failed rbErr err) /\
       GetErrorCode e = GetErrorCode err) /\
  (forall tx fn w w' e,
     Tx_Transaction tx fn w = (Returned (Some e), w') ->
     is_Some (GetErrorCode e) \/
     exists tx' w0 w1 err,
       fn tx' w0 = (Returned (Some err), w1) /\
       (e = err \/ exists rbErr, e = savepoint_rollback_failed rbErr err) /\
       GetErrorCode e = GetErrorCode err) /\
  (forall pre post m w w1 r1 existing,
     Migrate pre w = (Returned (inl r1), w1) ->
     ledger_map (committed w) !! ID m = Some existing ->
     existing <> checksumSQL (SQL m) ->
     exists e,
       Migrate (pre ++ m :: post) w = (Returned (inr e), w1) /\
       GetErrorCode e = Some CodeUnknown /\
       (exists d, as_Error e = Some d /\ Op d = "Migrate") /\
       contains "checksum mismatch" (error_string e)).
Proof.
  split; [|split; [|split; [|split; [|split; [|split; [|split]]]]]].
  - intros ms w w' e E. exact (Migrate_error_kind _ _ _ _ E).
  - intros ms w w' e. unfold MigrationStatus.
    destruct (bun_DB_ExecContext migrationsTable w) as [[e1|] w1];
      [intros [= <- <-]; cbn; eauto|].
    destruct (getAppliedMigrations w1) as [r2 w2] eqn:E2.
    destruct (getApplied_facts _ _ _ E2) as (_ & _ & R2).
    destruct r2 as [applied|e2]; [discriminate|].
    intros [= <- <-]. apply GetErrorCode_as_Error, R2.
  - intros opts w w' e. unfold BeginWithOptions.
    destruct (BeginTx opts w) as [[h|e1] w1].
    + destruct (new_int64 0 w1). discriminate.
    + intros [= <- <-]. apply GetErrorCode_wrapError1.
  - intros tx w w' e [E|E].
    + unfold Tx_Commit in E.
      destruct (bun_Tx_Commit (Tx_Tx tx) w) as [[e1|] w1];
        [|discriminate]. cbn in E. injection E as <- <-.
      apply GetErrorCode_wrapError1.
    + unfold Tx_Rollback in E.
      destruct (bun_Tx_Rollback (Tx_Tx tx) w) as [[e1|] w1];
        [|discriminate].
      destruct e1; try discriminate;
        change (wrapError (Some ?x) ?o) with (Some (wrapError1 x o)) in E;
        injection E as <- <-; apply GetErrorCode_wrapError1.
  - intros tx name w w' e E.
    unfold Tx_Savepoint, Tx_RollbackTo, Tx_ReleaseSavepoint in E.
    destruct E as [E|[E|E]];
      match type of E with
      | context [Tx_ExecContext ?t ?q ?w0] =>
          destruct (Tx_ExecContext t q w0) as [[e1|] w1]
      end; cbn in E; try discriminate; injection E as <- <-;
      apply GetErrorCode_wrapError1.
  - intros opts fn w w' e. unfold TransactionWithOptions.
    destruct (BeginTx opts w) as [[h|e1] w1].
    + destruct (new_int64 0 w1) as [seq w2].
      destruct (fn (mkTx h 0 seq) w2) as [[[err|]|v] w3] eqn:Hfn.
      * destruct (Tx_Rollback (mkTx h 0 seq) w3) as [[rbErr|] w4];
          intros [= <- <-]; right; exists (mkTx h 0 seq), w2, w3, err;
          (split; [exact Hfn|]); split; eauto.
      * destruct (Tx_Commit (mkTx h 0 seq) w3) as [[e1|] w4];
          [|discriminate].
        intros [= <- <-]. left. apply GetErrorCode_wrapError1.
      * destruct (Tx_Rollback (mkTx h 0 seq) w3). discriminate.
    + intros [= <- <-]. left. apply GetErrorCode_wrapError1.
  - intros tx fn w w' e. unfold Tx_Transaction.
    destruct (atomic_AddInt64 (savepointSeq tx) 1 w) as [id w1].
    destruct (Tx_ExecContext tx _ w1) as [[e1|] w2].
    + intros [= <- <-]. left. apply GetErrorCode_wrapError1.
    + destruct (fn (mkTx (Tx_Tx tx) id (savepointSeq tx)) w2)
        as [[[err|]|v] w3] eqn:Hfn; [| |discriminate].
      * destruct (Tx_ExecContext tx _ w3) as [[rbErr|] w4];
          intros [= <- <-]; right;
          exists (mkTx (Tx_Tx tx) id (savepointSeq tx)), w2, w3, err;
          (split; [exact Hfn|]); split; eauto.
      * destruct (Tx_ExecContext tx _ w3) as [[e1|] w4]; [|discriminate].
        intros [= <- <-]. left. apply GetErrorCode_wrapError1.
  - intros pre post m w w1 r1 existing E Ha Hne.
    exists (drift_error (ID m) existing (checksumSQL (SQL m))).
    split; [apply (Migrate_drift_result _ _ _ _ _ _ _ E Ha Hne)|].
    split; [reflexivity|]. split; [eexists; split; reflexivity|].
    exists ("dbkit.Migrate: migration " +:+ ID m +:+ " has changed ("),
      (": expected " +:+ existing +:+ ", got " +:+ checksumSQL (SQL m) +:+ ")").
    change (error_string (drift_error (ID m) existing (checksumSQL (SQL m))))
      with ("dbkit.Migrate: migration " +:+ ID m +:+
            " has changed (checksum mismatch: expected " +:+ existing +:+
            ", got " +:+ checksumSQL (SQL m) +:+ ")").
    rewrite !append_assoc. reflexivity.
Qed.

(** C9, as the code has it. [MigrationStatus] creates, changes and deletes
    no ledger row and leaves the user's schema alone; when the ledger
    table exists it leaves the database exactly as it found it. Its one
    write is the CREATE TABLE IF NOT EXISTS of an absent ledger table. *)
Theorem MigrationStatus_ledger (ms : list Migration) (w : World) :
  ledger_rows (committed (MigrationStatus ms w).2)
    = ledger_rows (committed w) /\
  user (committed (MigrationStatus ms w).2) = user (committed w) /\
  (is_Some (ledger (committed w)) ->
     committed (MigrationStatus ms w).2 = committed w).
Proof.
  unfold MigrationStatus.
  destruct (bun_DB_ExecContext migrationsTable w) as [r1 w1] eqn:E1.
  destruct (create_ledger_facts _ _ _ E1) as (_ & U1 & L1 & K1 & _).
  destruct r1 as [e|]; [cbn; auto|].
  destruct (getAppliedMigrations w1) as [r2 w2] eqn:E2.
  destruct (getApplied_facts _ _ _ E2) as (C2 & _).
  destruct r2; cbn [snd]; rewrite C2; auto.
Qed.



(* --------------------------------------------------------------------- *)
(** ** The error wrapper and the checks on errors                         *)
(* --------------------------------------------------------------------- *)


Lemma as_Error_Some_wrapError1 (err : error) (op : string) (e : Error error) :
  as_Error err = Some e -> wrapError1 err op = err.
Proof. intros H. unfold wrapError1. rewrite H. reflexivity. Qed.

Lemma wrapError1_idem (err : error) (op op' : string) :
  wrapError1 (wrapError1 err op) op' = wrapError1 err op.
Proof.
  destruct (as_Error_wrapError1 err op) as [e He].
  eapply as_Error_Some_wrapError1; eauto.
Qed.


Lemma String_eqb_false (a b : string) : a <> b -> String.eqb a b = false.
Proof. intros H. apply String.eqb_neq. exact H. Qed.

Lemma last_char_app_r (a b : string) (c : Ascii.ascii) :
  last_char b = Some c -> last_char (a +:+ b) = Some c.
Proof.
  intros Hb. induction a as [|x a IH]; [exact Hb|].
  change (String x a +:+ b) with (String x (a +:+ b)).
  cbn [last_char]. destruct (a +:+ b) eqn:E; [|exact IH].
  cbn in IH. discriminate.
Qed.

Lemma pgError_text_not_no_rows (pe : PgError) :
  String.eqb (error_string (pgError pe)) "sql: no rows in result set" = false.
Proof.
  apply String_eqb_false. intros H.
  apply (f_equal last_char) in H. cbn [error_string] in H.
  rewrite (last_char_app_r _ _ ")"%char) in H; [vm_compute in H; discriminate|].
  do 4 (apply last_char_app_r). reflexivity.
Qed.

Lemma Error_Is_sentinel (e : Error error) (c : ErrorCode) (s : error) :
  sentinel c = Some s -> (Error_Is e s = true <-> Code e = c).
Proof.
  intros Hs. unfold Error_Is.
  destruct (Code e), c; cbn in Hs; inversion Hs; subst; vm_compute;
    split; congruence.
Qed.

Lemma sentinel_elem (c : ErrorCode) (s : error) :
  sentinel c = Some s -> s ∈ sentinels.
Proof.
  destruct c; cbn; intros H; inversion H; subst; unfold sentinels; set_solver.
Qed.

Lemma sentinel_text (s : error) :
  s ∈ sentinels -> exists t, s = errorString t.
Proof.
  unfold sentinels. intros H.
  repeat (apply elem_of_cons in H as [-> | H]; [eexists; reflexivity|]).
  inversion H.
Qed.

Lemma foreign_spec (err : error) :
  foreign err = true ->
  as_Error err = None /\ forall s, s ∈ sentinels -> chain_Is err s = false.
Proof.
  unfold foreign. destruct (as_Error err); [discriminate|].
  intros H. split; [reflexivity|]. intros s Hs.
  rewrite forallb_forall in H. apply negb_true_iff, H.
  apply list_elem_of_In. exact Hs.
Qed.

(** What [wrapError] builds from an error that holds no [*Error]. *)
Lemma wrapError1_new (err : error) (op : string) :
  as_Error err = None ->
  exists e c,
    wrapError1 err op = dbError e /\ Op e = op /\ Cause e = Some c /\
    (c = err \/ exists pe, as_PgError err = Some pe /\ c = pgError pe /\
                           e = wrapPgError pe op) /\
    (Code e = CodeNotFound <->
     error_string err = "sql: no rows in result set").
Proof.
  intros H. unfold wrapError1. rewrite H.
  destruct (String.eqb (error_string err) "sql: no rows in result set") eqn:E.
  - apply String.eqb_eq in E. eexists _, err. repeat split; auto.
  - apply String.eqb_neq in E.
    destruct (as_PgError err) as [pe|] eqn:Hpe.
    + exists (wrapPgError pe op), (pgError pe).
      assert (G : Op (wrapPgError pe op) = op /\
                  Cause (wrapPgError pe op) = Some (pgError pe) /\
                  Code (wrapPgError pe op) <> CodeNotFound).
      { unfold wrapPgError.
        repeat match goal with
               | |- context [if ?b then _ else _] => destruct b
               end; cbn; repeat split; congruence. }
      destruct G as (G1 & G2 & G3).
      split; [reflexivity|]. split; [exact G1|]. split; [exact G2|].
      split; [right; eauto|]. split; intros; congruence.
    + eexists _, err. split; [reflexivity|]. cbn.
      repeat split; auto; intros; congruence.
Qed.

Lemma chain_Is_leaf (err t : error) (pe : PgError) :
  as_Error err = None -> as_PgError err = Some pe ->
  (forall m i, t <> wrapErr m i) ->
  chain_Is err t = true -> chain_Is (pgError pe) t = true.
Proof.
  intros HE HP Ht. induction err as [ | | s | p | e | m i IH | d];
    cbn in HE, HP;
    try discriminate.
  - inversion HP; subst. auto.
  - intros H. cbn [chain_Is] in H. apply orb_true_iff in H as [H|H].
    + destruct t; cbn in H; try discriminate. exfalso. eapply Ht; eauto.
    + auto.
Qed.

Lemma chain_Is_dbError (e : Error error) (c t : error) :
  Cause e = Some c -> chain_Is c t = true -> chain_Is (dbError e) t = true.
Proof.
  intros Hc H. cbn [chain_Is]. rewrite Hc, H. rewrite !orb_true_r. reflexivity.
Qed.

Lemma chain_Is_wrapError1 (err t : error) (op : string) :
  (forall m i, t <> wrapErr m i) ->
  chain_Is err t = true -> chain_Is (wrapError1 err op) t = true.
Proof.
  intros Ht H. destruct (as_Error err) as [e0|] eqn:HE.
  - rewrite (as_Error_Some_wrapError1 _ _ _ HE). exact H.
  - destruct (wrapError1_new err op HE) as (e & c & -> & _ & Hc & Hor & _).
    apply (chain_Is_dbError e c t Hc).
    destruct Hor as [-> | (pe & Hpe & -> & _)]; [exact H|].
    eapply chain_Is_leaf; eauto.
Qed.

Lemma chain_Is_pgError_sentinel (pe : PgError) (s : error) :
  s ∈ sentinels -> chain_Is (pgError pe) s = false.
Proof. intros H. destruct (sentinel_text s H) as [t ->]. reflexivity. Qed.

Lemma foreign_wrapError1 (err : error) (op : string) (c : ErrorCode)
    (s : error) :
  foreign err = true -> sentinel c = Some s ->
  (chain_Is (wrapError1 err op) s = true <->
   GetErrorCode (wrapError1 err op) = Some c).
Proof.
  intros F Hs. apply foreign_spec in F as [HE HS].
  destruct (wrapError1_new err op HE) as (e & c0 & -> & _ & Hc & Hor & _).
  unfold GetErrorCode. cbn [as_Error chain_Is].
  assert (Hc0 : chain_Is c0 s = false).
  { destruct Hor as [-> | (pe & _ & -> & _)].
    - apply HS. eapply sentinel_elem; eauto.
    - apply chain_Is_pgError_sentinel. eapply sentinel_elem; eauto. }
  rewrite Hc, Hc0, orb_false_r.
  destruct (sentinel_text s (sentinel_elem _ _ Hs)) as [t ->].
  cbn [error_eqb orb].
  rewrite (Error_Is_sentinel e c _ Hs). split; congruence.
Qed.

Lemma foreign_IsNotFound (err : error) (op : string) :
  foreign err = true ->
  (IsNotFound (wrapError (Some err) op) = true <->
   error_string err = "sql: no rows in result set").
Proof.
  intros F. unfold IsNotFound. cbn [wrapError errors_Is].
  rewrite (foreign_wrapError1 err op CodeNotFound ErrNotFound F eq_refl).
  apply foreign_spec in F as [HE _].
  destruct (wrapError1_new err op HE) as (e & c0 & -> & _ & _ & _ & Hnf).
  unfold GetErrorCode. cbn [as_Error]. rewrite <- Hnf. split; congruence.
Qed.

Lemma wrapError1_pgError (pe : PgError) (op : string) :
  wrapError1 (pgError pe) op = dbError (wrapPgError pe op).
Proof.
  unfold wrapError1. cbn [as_Error as_PgError].
  rewrite pgError_text_not_no_rows. reflexivity.
Qed.

Lemma driverError_text_not_no_rows (pe : PgError) :
  String.eqb (error_string (driverError pe)) "sql: no rows in result set"
    = false.
Proof.
  apply String_eqb_false. intros H.
  apply (f_equal last_char) in H. cbn [error_string] in H.
  rewrite (last_char_app_r _ _ ")"%char) in H; [vm_compute in H; discriminate|].
  do 4 (apply last_char_app_r). reflexivity.
Qed.

(** What [wrapError] makes of a server error as pgdriver reports it: no
    [*Error] and no [*pgconn.PgError] is found in it, so it is wrapped as
    an unclassified error whatever its SQLSTATE. *)
Lemma wrapError1_driverError (pe : PgError) (op : string) :
  wrapError1 (driverError pe) op =
    dbError {| Code := CodeUnknown;
               Message := error_string (driverError pe);
               Op := op; Table := ""; Column := ""; Constraint_ := "";
               Detail := ""; Hint_ := ""; Query := "";
               Cause := Some (driverError pe) |}.
Proof.
  unfold wrapError1. cbn [as_Error as_PgError].
  rewrite driverError_text_not_no_rows. reflexivity.
Qed.

Lemma foreign_pgError (pe : PgError) : foreign (pgError pe) = true.
Proof. reflexivity. Qed.

(** The code [wrapPgError] gives a SQLSTATE. *)
Lemma wrapPgError_Code (pe : PgError) (op : string) :
  let c := Code (wrapPgError pe op) in
  (c = CodeDuplicate <-> pg_Code pe = "23505") /\
  (c = CodeForeignKey <-> pg_Code pe = "23503") /\
  (c = CodeNotNullViolation <-> pg_Code pe = "23502") /\
  (c = CodeCheckViolation <-> pg_Code pe = "23514") /\
  (c = CodeSerialization <-> pg_Code pe = "40001") /\
  (c = CodeDeadlock <-> pg_Code pe = "40P01") /\
  (c = CodeTimeout <-> pg_Code pe = "57014") /\
  (c = CodeConnectionFailed <->
     pg_Code pe = "08000" \/ pg_Code pe = "08003" \/ pg_Code pe = "08006") /\
  c <> CodeNotFound.
Proof.
  unfold wrapPgError.
  repeat match goal with
         | |- context [String.eqb ?a ?b] =>
             let E := fresh "E" in
             destruct (String.eqb a b) eqn:E;
             [apply String.eqb_eq in E | apply String.eqb_neq in E]
         end; cbn;
    repeat split; intros; try congruence;
    repeat match goal with
           | H : _ \/ _ |- _ => destruct H
           end; try congruence; auto.
Qed.

(** X1. [wrapError] is idempotent and keeps nil: an error that went through
    it once comes back unchanged, under the operation it was first given,
    and the result is nil exactly when the input is. *)
Theorem wrapError_idempotent (err : option error) (op op' : string) :
  wrapError (wrapError err op) op' = wrapError err op /\
  (wrapError err op = None <-> err = None).
Proof.
  destruct err as [e|]; cbn.
  - rewrite wrapError1_idem. split; [reflexivity|]. split; discriminate.
  - split; [reflexivity|]. split; reflexivity.
Qed.

(** X2. Wrapping hides no cause from [errors.Is]: a target that is no
    [fmt.Errorf] value and matched the error before [wrapError] still
    matches its result. *)
Theorem wrapError_keeps_cause (err : option error) (t : error) (op : string) :
  (forall m i, t <> wrapErr m i) ->
  errors_Is err t = true -> errors_Is (wrapError err op) t = true.
Proof.
  intros Ht. destruct err as [e|]; cbn; [|discriminate].
  apply chain_Is_wrapError1. exact Ht.
Qed.

(** X3. A [fmt.Errorf] wrapper around a PostgreSQL error does not survive
    [wrapError]: the result's cause is the [PgError] itself, its message
    comes from the [PgError], and [errors.Is] against the wrapper no longer
    matches. *)
Theorem wrapError_drops_wrapper (m op : string) (pe : PgError) :
  m <> "sql: no rows in result set" ->
  let err := wrapErr m (pgError pe) in
  wrapError (Some err) op = Some (dbError (wrapPgError pe op)) /\
  Unwrap (dbError (wrapPgError pe op)) = Some (pgError pe) /\
  errors_Is (Some err) err = true /\
  errors_Is (wrapError (Some err) op) err = false.
Proof.
  intros Hm err.
  assert (E : wrapError (Some err) op = Some (dbError (wrapPgError pe op))).
  { cbn. unfold wrapError1. cbn [as_Error as_PgError error_string err].
    rewrite (String_eqb_false _ _ Hm). reflexivity. }
  assert (C : Cause (wrapPgError pe op) = Some (pgError pe)).
  { unfold wrapPgError.
    repeat match goal with
           | |- context [if ?b then _ else _] => destruct b
           end; reflexivity. }
  split; [exact E|]. split; [exact C|]. split.
  - cbn. rewrite String.eqb_refl. unfold PgError_eqb.
    rewrite !String.eqb_refl. reflexivity.
  - rewrite E. cbn [errors_Is chain_Is]. rewrite C. cbn.
    unfold Error_Is. destruct (Code (wrapPgError pe op)); reflexivity.
Qed.

(** X4. On the result of wrapping an error from outside the package, the
    sentinel checks agree with the error code: [errors.Is] matches the
    sentinel of a code exactly when [GetErrorCode] reports that code. *)
Theorem Is_agrees_with_code (err : error) (op : string) (c : ErrorCode)
    (s : error) :
  foreign err = true -> sentinel c = Some s ->
  (errors_Is (wrapError (Some err) op) s = true <->
   GetErrorCode (wrapError1 err op) = Some c).
Proof. intros F Hs. cbn. apply foreign_wrapError1; auto. Qed.

(** X5. An error from outside the package is reported as not found exactly
    when its text is that of [sql.ErrNoRows]; wrapping [sql.ErrNoRows] in
    another message loses the classification. *)
Theorem IsNotFound_by_text (err : error) (op : string) :
  foreign err = true ->
  (IsNotFound (wrapError (Some err) op) = true <->
   error_string err = "sql: no rows in result set").
Proof. apply foreign_IsNotFound. Qed.

(** X6. The checks a wrapped PostgreSQL error passes are fixed by its
    SQLSTATE: 23505 duplicate, 23503 foreign key, 23502 not null, 23514
    check, 57014 timeout, 08000/08003/08006 connection, 40001 and 40P01
    retryable; it is never not-found. *)
Theorem pgError_checks (pe : PgError) (op : string) :
  let err := wrapError (Some (pgError pe)) op in
  (IsDuplicate err = true <-> pg_Code pe = "23505") /\
  (IsForeignKey err = true <-> pg_Code pe = "23503") /\
  (IsNotNullViolation err = true <-> pg_Code pe = "23502") /\
  (IsCheckViolation err = true <-> pg_Code pe = "23514") /\
  (IsTimeout err = true <-> pg_Code pe = "57014") /\
  (IsConnection err = true <->
     pg_Code pe = "08000" \/ pg_Code pe = "08003" \/ pg_Code pe = "08006") /\
  (IsRetryable err = true <-> pg_Code pe = "40001" \/ pg_Code pe = "40P01") /\
  IsNotFound err = false.
Proof.
  intros err.
  assert (K : forall c s, sentinel c = Some s ->
            (errors_Is err s = true <-> Code (wrapPgError pe op) = c)).
  { intros c s Hs. unfold err. cbn [wrapError errors_Is].
    rewrite (foreign_wrapError1 _ op c s (foreign_pgError pe) Hs).
    rewrite wrapError1_pgError. unfold GetErrorCode. cbn [as_Error].
    split; congruence. }
  destruct (wrapPgError_Code pe op)
    as (C1 & C2 & C3 & C4 & C5 & C6 & C7 & C8 & C9).
  cbv zeta in *.
  unfold IsDuplicate, IsForeignKey, IsNotNullViolation, IsCheckViolation,
    IsTimeout, IsConnection, IsRetryable, IsNotFound.
  rewrite orb_true_iff.
  rewrite (K CodeDuplicate _ eq_refl), (K CodeForeignKey _ eq_refl),
    (K CodeNotNullViolation _ eq_refl), (K CodeCheckViolation _ eq_refl),
    (K CodeTimeout _ eq_refl), (K CodeConnectionFailed _ eq_refl),
    (K CodeSerialization _ eq_refl), (K CodeDeadlock _ eq_refl).
  repeat split; try tauto.
  apply not_true_is_false. rewrite (K CodeNotFound _ eq_refl). exact C9.
Qed.

(** X7. The fields of a PostgreSQL error come back through the getters
    after wrapping: table, column, constraint, detail and hint are those
    of the [PgError], an empty field being reported as absent. *)
Theorem pgError_fields (pe : PgError) (op : string) :
  let err := wrapError (Some (pgError pe)) op in
  GetTable err = nonempty (pg_TableName pe) /\
  GetColumn err = nonempty (pg_ColumnName pe) /\
  GetConstraint err = nonempty (pg_ConstraintName pe) /\
  GetDetail err = nonempty (pg_Detail pe) /\
  GetHint err = nonempty (pg_Hint pe).
Proof.
  intros err. unfold err. cbn [wrapError].
  rewrite wrapError1_pgError.
  unfold GetTable, GetColumn, GetConstraint, GetDetail, GetHint, nonempty.
  cbn [errors_As_Error as_Error].
  assert (F : Table (wrapPgError pe op) = pg_TableName pe /\
              Column (wrapPgError pe op) = pg_ColumnName pe /\
              Constraint_ (wrapPgError pe op) = pg_ConstraintName pe /\
              Detail (wrapPgError pe op) = pg_Detail pe /\
              Hint_ (wrapPgError pe op) = pg_Hint pe).
  { unfold wrapPgError.
    repeat match goal with
           | |- context [if ?b then _ else _] => destruct b
           end; repeat split. }
  destruct F as (-> & -> & -> & -> & ->).
  repeat split; match goal with
                | |- context [String.eqb ?a ""] => destruct (String.eqb a "")
                end; reflexivity.
Qed.

(** X8. A [QueryResult] is consistent: [HasError] holds exactly when [Err]
    is non-nil, [Unwrap] pairs [Result] with [Err], and a non-nil [Err]
    always carries an error code. *)
Theorem QueryResult_consistent {T : Type} (result : T) (err : option error)
    (op : string) :
  let qr := WithErr result err op in
  (QueryResult_HasError qr = true <-> QueryResult_Err qr <> None) /\
  QueryResult_Unwrap qr = (QueryResult_Result qr, QueryResult_Err qr) /\
  QueryResult_Result qr = result /\
  (forall e, QueryResult_Err qr = Some e -> is_Some (GetErrorCode e)).
Proof.
  cbn. unfold QueryResult_HasError, QueryResult_Err, QueryResult_Unwrap,
    QueryResult_Result. cbn.
  destruct err as [e|]; cbn.
  - split; [split; congruence|]. split; [reflexivity|].
    split; [reflexivity|].
    intros e' [= <-]. unfold GetErrorCode.
    destruct (as_Error_wrapError1 e op) as [d ->]. eauto.
  - split; [split; congruence|]. split; [reflexivity|].
    split; [reflexivity|]. intros e [=].
Qed.

(* --------------------------------------------------------------------- *)
(** ** Manual control of transactions and savepoints                      *)
(* --------------------------------------------------------------------- *)

Lemma wrapError1_ErrTxDone (op : string) :
  wrapError1 ErrTxDone op =
    dbError {| Code := CodeUnknown;
               Message := "sql: transaction has already been committed or rolled back";
               Op := op; Table := ""; Column := ""; Constraint_ := "";
               Detail := ""; Hint_ := ""; Query := "";
               Cause := Some ErrTxDone |}.
Proof. reflexivity. Qed.

Lemma Tx_Commit_done (tx : Tx) (w : World) :
  live (Tx_Tx tx) w = None ->
  Tx_Commit tx w = (Some (wrapError1 ErrTxDone "Commit"), w).
Proof.
  intros H. unfold Tx_Commit, bun_Tx_Commit. rewrite H. reflexivity.
Qed.

(** X9. [Tx.Commit] is not idempotent, unlike [Tx.Rollback]: on a scope
    that is done it changes nothing and returns an error of kind Unknown
    under the operation Commit whose cause is [sql.ErrTxDone]; so does a
    [Commit] after a [Commit] or after a [Rollback]. *)
Theorem Commit_after_done (tx : Tx) (w : World) :
  let e := wrapError1 ErrTxDone "Commit" in
  (live (Tx_Tx tx) w = None -> Tx_Commit tx w = (Some e, w)) /\
  Tx_Commit tx (Tx_Commit tx w).2 = (Some e, (Tx_Commit tx w).2) /\
  Tx_Commit tx (Tx_Rollback tx w).2 = (Some e, (Tx_Rollback tx w).2) /\
  errors_Is (Some e) ErrTxDone = true /\
  GetErrorCode e = Some CodeUnknown /\
  (exists d, as_Error e = Some d /\ Op d = "Commit").
Proof.
  intros e. split; [apply Tx_Commit_done|].
  split; [apply Tx_Commit_done, Tx_Commit_effect|].
  split; [apply Tx_Commit_done, Tx_Rollback_effect|].
  split; [reflexivity|]. split; [reflexivity|].
  eexists. split; reflexivity.
Qed.

(** X10. When the callback returns nil, [TransactionWithOptions] commits:
    COMMIT is the last statement, the scope is done, and if the round trip
    meets no fault the call returns nil and what the open transaction held
    becomes the persisted state. If COMMIT fails nothing is persisted and
    the error is the one [Tx.Commit] built, under the operation Commit,
    not Transaction.Commit. *)
Theorem Transaction_commits (opts : TxOptions) (fn : TxFunc)
    (w w1 w3 : World) (h : nat) (s : Session) :
  BeginTx opts w = (inl h, w1) ->
  fn (mkTx h 0 (length (cells w1))) (new_int64 0 w1).2 = (Returned None, w3) ->
  live h w3 = Some s ->
  exists res w4,
    TransactionWithOptions opts fn w = (Returned res, w4) /\
    session w4 = None /\ log w4 = log w3 ++ ["COMMIT"] /\
    match next_fault w3 with
    | None => res = None /\ (aborted s = false -> committed w4 = work s)
    | Some e =>
        res = Some (wrapError1 e "Commit") /\ committed w4 = committed w3
    end.
Proof.
  intros HB Hfn Hl. unfold TransactionWithOptions. rewrite HB.
  unfold new_int64 in *. cbn [fst snd] in *. rewrite Hfn.
  destruct (Tx_Commit_live (mkTx h 0 (length (cells w1))) w3 s Hl)
    as (clk & scr & ->).
  destruct (next_fault w3) as [e|]; cbn.
  - rewrite wrapError1_idem. eexists _, _. split; [reflexivity|].
    cbn. auto.
  - destruct (aborted s); eexists _, _; (split; [reflexivity|]); cbn;
      repeat split; auto; discriminate.
Qed.

(** X11. When BEGIN fails the callback never runs: the call returns the
    fault wrapped under Transaction.Begin, BEGIN is the only statement
    sent, and the persisted state, the open session and the heap are as
    before. *)
Theorem Transaction_begin_fails (opts : TxOptions) (fn : TxFunc) (w : World)
    (e : error) :
  next_fault w = Some e ->
  exists w',
    TransactionWithOptions opts fn w
      = (Returned (Some (wrapError1 e "Transaction.Begin")), w') /\
    log w' = log w ++ ["BEGIN"] /\ committed w' = committed w /\
    session w' = session w /\ cells w' = cells w /\ next_tx w' = next_tx w.
Proof.
  intros Hf. unfold TransactionWithOptions, BeginTx.
  destruct (tick_spec "BEGIN" w) as (clk & scr & ->). rewrite Hf.
  eexists. split; [reflexivity|]. cbn. auto.
Qed.

Lemma names_from_sp (c : Z) (a : nat) (n : string) :
  n ∈ names_from c a -> strip_prefix "sp_" n <> None.
Proof.
  unfold names_from. intros H. apply list_elem_of_fmap in H as (j & -> & _).
  unfold savepoint_name. cbn. discriminate.
Qed.

Lemma rollback_to_missing (name : string) (sv : list (string * Store)) :
  name ∉ sv.*1 -> rollback_to name sv = None.
Proof.
  induction sv as [|[n st] sv IH]; intros H; [reflexivity|]. cbn.
  destruct (String.eqb n name) eqn:E.
  - apply String.eqb_eq in E. subst. exfalso. apply H. cbn. set_solver.
  - apply IH. intros Hin. apply H. cbn. set_solver.
Qed.

(** X12. A manual savepoint brackets whatever the code does next through
    the [Tx], nested transactions included: after [Savepoint name] and any
    callback body that leaves savepoints to [Tx.Transaction],
    [RollbackTo name] restores the data the transaction held at the
    savepoint, keeps that savepoint, drops the younger ones and clears an
    aborted state; [ReleaseSavepoint name] instead keeps the data and
    removes the savepoint. Nothing is persisted either way. The name must
    not start with sp_, the prefix of the generated names. *)
Theorem Savepoint_bracket (tx : Tx) (name : string) (p : Prog) (w : World)
    (s : Session) :
  Tx_ok tx w -> live (Tx_Tx tx) w = Some s -> aborted s = false ->
  next_fault w = None -> plain p -> strip_prefix "sp_" name = None ->
  let w1 := (Tx_Savepoint tx name w).2 in
  let w2 := (run p tx w1).2 in
  next_fault w2 = None ->
  Tx_Savepoint tx name w = (None, w1) /\
  exists s2,
    session w2 = Some (Tx_Tx tx, s2) /\
    (exists w3,
       Tx_RollbackTo tx name w2 = (None, w3) /\
       committed w3 = committed w /\
       session w3 =
         Some (Tx_Tx tx,
               mkSession (options s) (work s) ((name, work s) :: saves s)
                 false)) /\
    (aborted s2 = false ->
     exists w3,
       Tx_ReleaseSavepoint tx name w2 = (None, w3) /\
       committed w3 = committed w /\
       session w3 =
         Some (Tx_Tx tx, mkSession (options s) (work s2) (saves s) false)).
Proof.
  intros Hok Hl Hab Hf Hp Hn w1 w2 Hf2.
  assert (E1 : exists clk scr,
    Tx_Savepoint tx name w =
      (None, mkWorld (committed w)
               (Some (Tx_Tx tx,
                      mkSession (options s) (work s)
                        ((name, work s) :: saves s) false))
               (next_tx w) (cells w) clk scr
               (log w ++ ["SAVEPOINT " +:+ name]))).
  { unfold Tx_Savepoint, Tx_ExecContext, bun_Tx_ExecContext.
    destruct (in_tx_live (Tx_Tx tx) ("SAVEPOINT " +:+ name)
                (fun _ => session_exec ("SAVEPOINT " +:+ name)) w s Hl)
      as (clk & scr & ->).
    rewrite Hf. cbv zeta. destruct s as [o st sv ab]. cbn in Hab. subst ab.
    rewrite session_exec_savepoint_eq. exists clk, scr. reflexivity. }
  destruct E1 as (clk & scr & E1).
  assert (Hw1 : w1 = mkWorld (committed w)
               (Some (Tx_Tx tx,
                      mkSession (options s) (work s)
                        ((name, work s) :: saves s) false))
               (next_tx w) (cells w) clk scr
               (log w ++ ["SAVEPOINT " +:+ name])).
  { unfold w1. rewrite E1. reflexivity. }
  split; [rewrite E1, Hw1; reflexivity|].
  set (s1 := mkSession (options s) (work s) ((name, work s) :: saves s) false)
    in *.
  assert (Hok1 : Tx_ok tx w1).
  { rewrite Hw1. split; [|apply Hok]. unfold live. cbn.
    rewrite Nat.eqb_refl. eauto. }
  destruct (run_scoped p (Tx_Tx tx) (savepointSeq tx) Hp tx w1 eq_refl eq_refl
              Hok1) as (a & A).
  fold w2 in A.
  destruct (adv_session _ _ _ _ _ A) as (s1' & s2 & extra & S1 & S2 & Ho & Hs & Hx).
  assert (s1' = s1) by (rewrite Hw1 in S1; cbn in S1; congruence). subst s1'.
  assert (Hnot : name ∉ extra.*1).
  { intros Hin. rewrite Forall_forall in Hx. apply Hx in Hin.
    apply names_from_sp in Hin. contradiction. }
  assert (Hc2 : committed w2 = committed w).
  { rewrite (adv_committed _ _ _ _ _ A), Hw1. reflexivity. }
  assert (Hl2 : live (Tx_Tx tx) w2 = Some s2) by (apply live_Some; exact S2).
  exists s2. split; [exact S2|]. split.
  - unfold Tx_RollbackTo, Tx_ExecContext, bun_Tx_ExecContext.
    destruct (in_tx_live (Tx_Tx tx) ("ROLLBACK TO SAVEPOINT " +:+ name)
                (fun _ => session_exec ("ROLLBACK TO SAVEPOINT " +:+ name))
                w2 s2 Hl2) as (clk2 & scr2 & ->).
    rewrite Hf2. cbv zeta.
    unfold session_exec. rewrite classify_rollback_to, Hs.
    cbn [saves s1]. rewrite (rollback_to_fresh _ _ _ _ Hnot).
    eexists. split; [reflexivity|]. cbn. rewrite Ho. auto.
  - intros Hab2.
    unfold Tx_ReleaseSavepoint, Tx_ExecContext, bun_Tx_ExecContext.
    destruct (in_tx_live (Tx_Tx tx) ("RELEASE SAVEPOINT " +:+ name)
                (fun _ => session_exec ("RELEASE SAVEPOINT " +:+ name))
                w2 s2 Hl2) as (clk2 & scr2 & ->).
    rewrite Hf2. cbv zeta.
    unfold session_exec. rewrite classify_release, Hab2, Hs.
    cbn [saves s1]. rewrite (release_fresh _ _ _ _ Hnot).
    eexists. split; [reflexivity|]. cbn. rewrite Ho. auto.
Qed.

(** X13. [RollbackTo] a name that is no savepoint of the transaction fails.
    The server's answer 3B001 reaches the code as a [pgdriver.Error], in
    which [wrapError] finds no [pgconn.PgError]: the error comes back
    under the operation RollbackTo with kind Unknown, the driver error as
    its cause and the driver error's text as its message, and no table,
    column or constraint. The data stays as it was and the transaction is
    left aborted. *)
Theorem RollbackTo_unknown (tx : Tx) (name : string) (w : World)
    (s : Session) :
  live (Tx_Tx tx) w = Some s -> name ∉ (saves s).*1 -> next_fault w = None ->
  exists e w',
    Tx_RollbackTo tx name w = (Some (dbError e), w') /\
    Code e = CodeUnknown /\ Op e = "RollbackTo" /\
    Cause e = Some (driverError (pg_no_savepoint name)) /\
    Message e = error_string (driverError (pg_no_savepoint name)) /\
    as_PgError (dbError e) = None /\
    GetTable (Some (dbError e)) = None /\
    GetConstraint (Some (dbError e)) = None /\
    session w' = Some (Tx_Tx tx, abort s) /\ committed w' = committed w.
Proof.
  intros Hl Hn Hf.
  unfold Tx_RollbackTo, Tx_ExecContext, bun_Tx_ExecContext.
  destruct (in_tx_live (Tx_Tx tx) ("ROLLBACK TO SAVEPOINT " +:+ name)
              (fun _ => session_exec ("ROLLBACK TO SAVEPOINT " +:+ name))
              w s Hl) as (clk & scr & ->).
  rewrite Hf. cbv zeta. unfold session_exec.
  rewrite classify_rollback_to, (rollback_to_missing _ _ Hn).
  cbn [wrapError]. rewrite wrapError1_driverError.
  eexists _, _. split; [reflexivity|]. cbn.
  repeat split; reflexivity.
Qed.

(** X14. On a scope that is done, [Tx.Transaction] does not run its
    callback and sends no statement: it returns an error under the
    operation Transaction.Savepoint whose cause is [sql.ErrTxDone]. The
    savepoint counter is incremented all the same. *)
Theorem Tx_Transaction_done (tx : Tx) (fn : TxFunc) (w : World) :
  live (Tx_Tx tx) w = None ->
  let e := wrapError1 ErrTxDone "Transaction.Savepoint" in
  let w1 :=
    set_cells (<[savepointSeq tx :=
                   wrap64 (counter (savepointSeq tx) w + 1)]> (cells w)) w in
  Tx_Transaction tx fn w = (Returned (Some e), w1) /\
  errors_Is (Some e) ErrTxDone = true /\
  log w1 = log w /\ committed w1 = committed w /\ session w1 = session w.
Proof.
  intros Hl e w1. unfold Tx_Transaction, atomic_AddInt64.
  unfold Tx_ExecContext, bun_Tx_ExecContext, in_tx.
  assert (Hl1 : live (Tx_Tx tx) w1 = None) by exact Hl.
  unfold w1, counter in Hl1. rewrite Hl1. repeat split.
Qed.

(** X15. Manual control: after [BeginWithOptions], whatever a callback body
    does through the [Tx], [Rollback] leaves the persisted state as it was
    before the transaction began and the scope done. *)
Theorem Begin_Rollback_discards (opts : TxOptions) (p : Prog) (w w1 : World)
    (tx : Tx) :
  BeginWithOptions opts w = (inl tx, w1) ->
  let w2 := (run p tx w1).2 in
  let w3 := (Tx_Rollback tx w2).2 in
  committed w3 = committed w /\ session w3 = None /\
  live (Tx_Tx tx) w3 = None /\ log w3 = log w2 ++ ["ROLLBACK"] /\
  (next_fault w2 = None -> Tx_Rollback tx w2 = (None, w3)).
Proof.
  intros HB w2 w3. unfold BeginWithOptions in HB.
  destruct (BeginTx opts w) as [[h|e] w0] eqn:HBe; [|discriminate].
  unfold new_int64 in HB. cbn in HB. inversion HB; subst tx w1. clear HB.
  destruct (BeginTx_facts _ _ _ _ HBe) as (_ & _ & Hc & _ & _ & Hs).
  set (tx := mkTx h 0 (length (cells w0))) in *.
  set (w1 := set_cells (cells w0 ++ [0]) w0) in *.
  assert (Hl1 : is_Some (live (Tx_Tx tx) w1)).
  { unfold live, w1. cbn. rewrite Hs, Nat.eqb_refl. eauto. }
  destruct (run_keeps p tx w1 Hl1) as (K1 & [s2 K2] & _).
  fold w2 in K1, K2.
  destruct (Tx_Rollback_effect tx w2) as (R1 & R2 & _ & _ & R5).
  destruct (R5 s2 K2) as (R6 & R7). fold w3 in R1, R2, R6, R7.
  split; [rewrite R2, K1; exact Hc|]. split; [exact R6|].
  split; [exact R1|]. split; [exact R7|].
  intros Hf. unfold w3, Tx_Rollback.
  destruct (bun_Tx_Rollback_live _ _ _ K2) as (clk & scr & ->).
  rewrite Hf. reflexivity.
Qed.


(* --------------------------------------------------------------------- *)
(** ** Checksums, status and the applied migrations                       *)
(* --------------------------------------------------------------------- *)

Lemma String_length_app (a b : string) :
  String.length (a +:+ b) = (String.length a + String.length b)%nat.
Proof.
  induction a as [|c a IH]; [reflexivity|].
  change (String c a +:+ b) with (String c (a +:+ b)).
  cbn [String.length]. rewrite IH. reflexivity.
Qed.

Lemma String_length_substring0 (n : nat) (s : string) :
  String.length (String.substring 0 n s) = Nat.min n (String.length s).
Proof.
  revert s. induction n as [|n IH]; intros [|c s]; cbn; try reflexivity.
  rewrite IH. reflexivity.
Qed.

Lemma substring0_app (n : nat) (s t : string) :
  (n <= String.length s)%nat -> String.substring 0 n (s +:+ t) = String.substring 0 n s.
Proof.
  revert s. induction n as [|n IH]; intros [|c s] H; cbn [String.length] in H;
    try lia.
  - destruct t; reflexivity.
  - reflexivity.
  - change (String c s +:+ t) with (String c (s +:+ t)).
    cbn [String.substring]. rewrite IH by lia. reflexivity.
Qed.

Lemma substring0_idem (n : nat) (s : string) :
  String.substring 0 n (String.substring 0 n s) = String.substring 0 n s.
Proof.
  revert s. induction n as [|n IH]; intros [|c s]; cbn; try reflexivity.
  rewrite IH. reflexivity.
Qed.

(** X16. [truncateSQL] returns a text of at most [maxLen + 3] bytes that
    agrees with the statement on its first [maxLen] bytes, and the
    statement itself when that has at most [maxLen] bytes; so the
    statement a failed migration's error carries has at most 203 bytes. *)
Theorem truncateSQL_bound (sql : string) (maxLen : nat) :
  (String.length (truncateSQL sql maxLen) <= maxLen + 3)%nat /\
  String.substring 0 maxLen (truncateSQL sql maxLen) = String.substring 0 maxLen sql /\
  ((String.length sql <= maxLen)%nat -> truncateSQL sql maxLen = sql) /\
  (forall m err,
     exists e, apply_error m err = dbError e /\
               (String.length (Query e) <= 203)%nat).
Proof.
  assert (B : forall s n,
    (String.length (truncateSQL s n) <= n + 3)%nat).
  { intros s n. unfold truncateSQL.
    destruct (String.length s <=? n)%nat eqn:E.
    - apply Nat.leb_le in E. lia.
    - rewrite String_length_app, String_length_substring0. cbn. lia. }
  split; [apply B|]. split; [|split].
  - unfold truncateSQL. destruct (String.length sql <=? maxLen)%nat eqn:E;
      [reflexivity|].
    apply Nat.leb_gt in E. rewrite substring0_app.
    + apply substring0_idem.
    + rewrite String_length_substring0. lia.
  - intros H. unfold truncateSQL. apply Nat.leb_le in H. rewrite H.
    reflexivity.
  - intros m err. eexists. split; [reflexivity|]. cbn. apply B.
Qed.

Lemma hex_val_digit (n : N) : (n < 16)%N -> hex_val (hex_digit n) = n.
Proof.
  intros H. destruct n as [|p]; [reflexivity|].
  do 5 (try (destruct p as [p|p|]; try reflexivity; try lia)).
Qed.

Lemma hex_EncodeToString_inj (a b : string) :
  hex_EncodeToString a = hex_EncodeToString b -> a = b.
Proof.
  revert b. induction a as [|c a IH]; intros [|d b] H; cbn in H;
    try discriminate; [reflexivity|].
  injection H as H1 H2 H3.
  apply (f_equal hex_val) in H1, H2.
  pose proof (N_ascii_bounded c) as Bc. pose proof (N_ascii_bounded d) as Bd.
  rewrite !hex_val_digit in H1, H2
    by (try (apply N.mod_lt; lia); apply N.Div0.div_lt_upper_bound; lia).
  f_equal; [|apply IH; exact H3].
  rewrite <- (ascii_N_embedding c), <- (ascii_N_embedding d). f_equal.
  rewrite (N.div_mod (N_of_ascii c) 16), (N.div_mod (N_of_ascii d) 16) by lia.
  congruence.
Qed.

Lemma hex_EncodeToString_length (a : string) :
  String.length (hex_EncodeToString a) = (2 * String.length a)%nat.
Proof. induction a as [|c a IH]; cbn; [reflexivity|]. rewrite IH. lia. Qed.

(** X17. The checksum is exact for the digest: two statements have the same
    checksum only if they have the same SHA-256 digest, and the checksum
    has two characters per digest byte, 64 for the 32 bytes of SHA-256,
    which is the width of the ledger's checksum column. *)
Theorem checksumSQL_exact (a b : string) :
  (checksumSQL a = checksumSQL b <-> Sum256 a = Sum256 b) /\
  String.length (checksumSQL a) = (2 * String.length (Sum256 a))%nat /\
  (String.length (Sum256 a) = 32%nat ->
   (64 <? String.length (checksumSQL a))%nat = false).
Proof.
  unfold checksumSQL. split; [|split].
  - split; [apply hex_EncodeToString_inj | congruence].
  - apply hex_EncodeToString_length.
  - intros H. rewrite hex_EncodeToString_length, H. reflexivity.
Qed.

Lemma MigrationStatus_ok (ms : list Migration) (w w' : World)
    (entries : list MigrationStatusEntry) :
  MigrationStatus ms w = (inl entries, w') ->
  entries = map (status_entry (ledger_map (committed w))) ms /\
  session w = None /\
  log w' = log w ++ [migrationsTable; selectMigrations].
Proof.
  unfold MigrationStatus. intros H.
  destruct (bun_DB_ExecContext migrationsTable w) as [r1 w1] eqn:E1.
  destruct (create_ledger_facts _ _ _ E1) as (S1 & _ & L1 & _ & R1).
  destruct r1 as [e|]; [discriminate|].
  destruct R1 as (Sw & _ & _ & G1 & _).
  destruct (getAppliedMigrations w1) as [r2 w2] eqn:E2.
  destruct (getApplied_facts _ _ _ E2) as (_ & _ & R2).
  destruct r2 as [applied|e]; [|discriminate].
  destruct R2 as (-> & _ & _ & G2 & _).
  inversion H; subst. rewrite (ledger_map_rows _ _ L1).
  split; [reflexivity|]. split; [exact Sw|].
  rewrite G2, G1, <- app_assoc. reflexivity.
Qed.

Lemma status_entry_facts (applied : gmap string string) (m : Migration) :
  se_ID (status_entry applied m) = ID m /\
  se_Description (status_entry applied m) = Description m /\
  se_Checksum (status_entry applied m) = checksumSQL (SQL m) /\
  (se_Applied (status_entry applied m) = true <->
   is_Some (applied !! ID m)) /\
  (se_ChecksumMatch (status_entry applied m) = true <->
   applied !! ID m = Some (checksumSQL (SQL m))) /\
  (se_Applied (status_entry applied m) = false ->
   se_ChecksumMatch (status_entry applied m) = false).
Proof.
  unfold status_entry. destruct (applied !! ID m) as [c|]; cbn.
  - split; [reflexivity|]. split; [reflexivity|]. split; [reflexivity|].
    split; [split; eauto|]. split; [|discriminate].
    split.
    + intros He. apply String.eqb_eq in He. congruence.
    + intros He. injection He as ->. apply String.eqb_refl.
  - split; [reflexivity|]. split; [reflexivity|]. split; [reflexivity|].
    split; [split; [discriminate | intros [? He]; discriminate]|].
    split; [split; discriminate | reflexivity].
Qed.

(** X18. When [MigrationStatus] succeeds it reports one entry per migration
    of the list, in the order of the list, with the checksum of the SQL it
    was given: an entry is Applied exactly when its id is in the ledger,
    and ChecksumMatch exactly when the ledger holds that id with this
    checksum; a pending migration never shows a match. *)
Theorem MigrationStatus_entries (ms : list Migration) (w w' : World)
    (entries : list MigrationStatusEntry) :
  MigrationStatus ms w = (inl entries, w') ->
  map se_ID entries = map ID ms /\
  Forall2
    (fun m e =>
       se_ID e = ID m /\ se_Description e = Description m /\
       se_Checksum e = checksumSQL (SQL m) /\
       (se_Applied e = true <->
        is_Some (ledger_map (committed w) !! ID m)) /\
       (se_ChecksumMatch e = true <->
        ledger_map (committed w) !! ID m = Some (checksumSQL (SQL m))) /\
       (se_Applied e = false -> se_ChecksumMatch e = false))
    ms entries.
Proof.
  intros H. destruct (MigrationStatus_ok _ _ _ _ H) as (-> & _).
  split.
  - rewrite map_map. apply map_ext. intros m. unfold status_entry.
    destruct (ledger_map (committed w) !! ID m); reflexivity.
  - apply Forall2_fmap_r, Forall_Forall2_diag, Forall_forall. intros m _.
    apply status_entry_facts.
Qed.

(** X19. After a [Migrate] that succeeded, [MigrationStatus] of the same
    list, its two statements meeting no fault, reports every migration as
    applied with a matching checksum, and leaves the database as it
    was. *)
Theorem Migrate_then_status (ms : list Migration) (w w1 : World)
    (r1 : MigrationResult) :
  Migrate ms w = (Returned (inl r1), w1) ->
  calm 2 w1 ->
  exists w2,
    MigrationStatus ms w1 =
      (inl (map (fun m =>
                   mkMigrationStatusEntry (ID m) (Description m)
                     (checksumSQL (SQL m)) true true) ms), w2) /\
    committed w2 = committed w1.
Proof.
  intros E Hcalm.
  destruct (Migrate_success _ _ _ _ E)
    as (w2 & r0 & El & _ & _ & S2 & _ & L2 & _ & T2 & _).
  destruct (Migrate_loop_ok _ _ _ _ _ _ El) as (_ & _ & _ & S1 & _).
  destruct (Migrate_loop_ledger _ _ _ _ _ _ El) as (_ & Hall).
  { rewrite (ledger_map_rows _ _ L2). reflexivity. }
  pose proof (Migrate_loop_table _ _ _ _ _ _ El T2) as T1.
  assert (Hs1 : session w1 = None) by congruence.
  destruct (create_ledger_calm w1 Hs1 (calm_next _ _ Hcalm)) as (wa & Ea).
  destruct (create_ledger_facts _ _ _ Ea)
    as (Sa & _ & La & Ka & _ & _ & Ta & Ga & Scr).
  pose proof (calm_drop _ _ _ Hcalm Scr) as Hcalm'.
  assert (Hsa : session wa = None) by congruence.
  destruct (getApplied_calm wa Hsa (calm_next _ _ Hcalm')) as (wb & Eb).
  { rewrite Ta. eauto. }
  destruct (getApplied_facts _ _ _ Eb) as (Cb & _).
  unfold MigrationStatus. rewrite Ea, Eb, (ledger_map_rows _ _ La).
  exists wb. split.
  - f_equal. f_equal. apply map_ext_in. intros m Hm.
    unfold status_entry. rewrite (Hall m) by (apply list_elem_of_In; exact Hm).
    rewrite String.eqb_refl. reflexivity.
  - rewrite Cb. apply Ka, T1.
Qed.

Lemma selectLedger_facts (q : LedgerSelect) (w w1 : World)
    (r : list LedgerRow + error) :
  bun_DB_selectLedger q w = (r, w1) ->
  committed w1 = committed w /\ session w1 = session w /\
  match r with
  | inl rows =>
      exists all,
        ledger (committed w) = Some all /\ rows = order_by (sel_OrderExpr q) all
  | inr _ => True
  end.
Proof.
  unfold bun_DB_selectLedger. destruct (session w) eqn:Hs.
  - intros [= <- <-]. auto.
  - destruct (tick_spec (select_text q) w) as (clk & scr & ->).
    destruct (next_fault w); [intros [= <- <-]; cbn; auto|]. cbn.
    destruct (ledger (committed w)) as [rows|] eqn:Hl;
      intros [= <- <-]; cbn; eauto.
Qed.

Lemma insert_row_perm (r : LedgerRow) (l : list LedgerRow) :
  insert_row r l ≡ₚ r :: l.
Proof.
  induction l as [|x l IH]; cbn; [reflexivity|].
  destruct (row_applied_at r <=? row_applied_at x); [reflexivity|].
  rewrite IH. apply Permutation_swap.
Qed.

Lemma insert_row_sorted (r : LedgerRow) (l : list LedgerRow) :
  Sorted (fun a b => row_applied_at a <= row_applied_at b) l ->
  Sorted (fun a b => row_applied_at a <= row_applied_at b) (insert_row r l).
Proof.
  induction l as [|x l IH]; intros H; cbn.
  - repeat constructor.
  - destruct (row_applied_at r <=? row_applied_at x) eqn:E.
    + apply Z.leb_le in E. constructor; [exact H|]. constructor. exact E.
    + apply Z.leb_gt in E. apply Sorted_inv in H as [H1 H2].
      constructor; [apply IH, H1|].
      destruct l as [|y l]; cbn.
      * constructor. lia.
      * destruct (row_applied_at r <=? row_applied_at y); constructor;
          [lia|]. inversion H2; subst. assumption.
Qed.

Lemma sort_rows_perm (rows : list LedgerRow) : sort_rows rows ≡ₚ rows.
Proof.
  induction rows as [|r l IH]; cbn; [reflexivity|].
  rewrite insert_row_perm, IH. reflexivity.
Qed.

Lemma sort_rows_sorted (rows : list LedgerRow) :
  Sorted (fun a b => row_applied_at a <= row_applied_at b) (sort_rows rows).
Proof.
  induction rows as [|r l IH]; cbn; [constructor|].
  apply insert_row_sorted, IH.
Qed.

(** What the server makes of the ORDER BY of [GetAppliedMigrations]. *)
Lemma order_by_selectApplied (rows : list LedgerRow) :
  order_by (sel_OrderExpr selectApplied) rows = sort_rows rows.
Proof. reflexivity. Qed.

(** X20. [GetAppliedMigrations], when it succeeds, returns the rows of the
    ledger, each once and, by the ORDER BY applied_at ASC it sends, by
    ascending time of application: same id, description and checksum, and
    the duration in nanoseconds, which reads back as the stored
    milliseconds. It changes no ledger row and no user data. *)
Theorem GetAppliedMigrations_ledger (w w' : World)
    (res : list AppliedMigration) :
  GetAppliedMigrations w = (inl res, w') ->
  res ≡ₚ map applied_of_row (ledger_rows (committed w)) /\
  Sorted Z.le (map am_AppliedAt res) /\
  ledger_rows (committed w') = ledger_rows (committed w) /\
  user (committed w') = user (committed w) /\
  (forall row,
     Z.abs (row_duration_ms row) < 2 ^ 63 / time_Millisecond ->
     Milliseconds (am_Duration (applied_of_row row)) = row_duration_ms row).
Proof.
  intros H. unfold GetAppliedMigrations in H.
  destruct (bun_DB_ExecContext migrationsTable w) as [r1 w1] eqn:E1.
  destruct (create_ledger_facts _ _ _ E1) as (_ & U1 & L1 & _ & R1).
  destruct r1 as [e|]; [discriminate|].
  destruct (bun_DB_selectLedger selectApplied w1) as [r2 w2] eqn:E2.
  destruct (selectLedger_facts _ _ _ _ E2) as (C2 & _ & R2).
  destruct r2 as [rows|e]; [|discriminate].
  destruct R2 as (all & Hall & ->). rewrite order_by_selectApplied in H.
  inversion H; subst. clear H.
  assert (Hrows : ledger_rows (committed w) = all).
  { rewrite <- L1. unfold ledger_rows. rewrite Hall. reflexivity. }
  rewrite Hrows. split; [|split; [|split; [|split]]].
  - change (applied_of_row <$> sort_rows all ≡ₚ applied_of_row <$> all).
    rewrite sort_rows_perm. reflexivity.
  - rewrite map_map.
    change (Sorted Z.le ((fun r => row_applied_at r) <$> sort_rows all)).
    eapply Sorted_fmap; [|apply sort_rows_sorted]. auto.
  - rewrite C2, L1. exact Hrows.
  - rewrite C2. exact U1.
  - intros row Hb. unfold applied_of_row, Milliseconds, time_Millisecond in *.
    cbn [am_Duration].
    change (2 ^ 63 / 1000000) with 9223372036854 in Hb.
    rewrite wrap64_small by lia.
    rewrite Z.quot_mul by lia. reflexivity.
Qed.

(** X21. A list that names an id twice cannot succeed when the first of the
    two is applied by this call: the ledger is read once, at the start, so
    the second is attempted as well, fails, and is rolled back. [Migrate]
    returns an error with the database as the first one left it. *)
Theorem Migrate_duplicate_id (pre post : list Migration) (m m' : Migration)
    (w w1 : World) (r1 : MigrationResult) :
  Migrate (pre ++ [m]) w = (Returned (inl r1), w1) ->
  ledger_map (committed w) !! ID m = None ->
  ID m' = ID m ->
  exists e w2,
    Migrate (pre ++ m :: m' :: post) w = (Returned (inr e), w2) /\
    committed w2 = committed w1 /\ is_Some (GetErrorCode e) /\
    ID m ∈ map row_id (ledger_rows (committed w1)).
Proof.
  intros E Ha Hid.
  assert (Hin : ID m ∈ map row_id (ledger_rows (committed w1))).
  { destruct (Migrate_success _ _ _ _ E)
      as (w2 & r0 & El & _ & _ & _ & _ & L2 & _).
    destruct (Migrate_loop_ok _ _ _ _ _ _ El)
      as (_ & _ & _ & _ & _ & (rows & Lr & Hr) & _).
    rewrite Lr, L2, map_app, Hr, map_app.
    apply elem_of_app. right.
    rewrite filter_app. apply elem_of_app. right.
    change (map ID [m]) with [ID m].
    rewrite filter_cons_True by exact Ha. set_solver. }
  destruct (applyMigration_spec m' (checksumSQL (SQL m')) (time_Now w1) w1)
    as (res & w2 & Eq & _ & _ & R).
  destruct res as [err|].
  - destruct R as [C Hk]. exists err, w2.
    replace (pre ++ m :: m' :: post) with ((pre ++ [m]) ++ m' :: post)
      by (rewrite <- app_assoc; reflexivity).
    rewrite (Migrate_prefix _ _ _ _ _ E). cbn [Migrate_loop].
    rewrite Hid, Ha. unfold time_Now in Eq |- *. rewrite Eq.
    split; [reflexivity|]. split; [exact C|]. split; [|exact Hin].
    unfold GetErrorCode. destruct Hk as [d ->]. eauto.
  - exfalso. destruct R as (s1 & s2 & dur & now & _ & R1 & R2 & _).
    destruct (session_insert_ok _ _ _ _ _ _ _ R2) as (_ & _ & Hnot & _).
    rewrite (session_exec_fresh_ledger _ _ _ _ R1), Hid in Hnot.
    contradiction.
Qed.

Lemma selectLedger_calm (q : LedgerSelect) (w : World)
    (rows : list LedgerRow) :
  session w = None -> next_fault w = None ->
  ledger (committed w) = Some rows ->
  exists w1,
    bun_DB_selectLedger q w = (inl (order_by (sel_OrderExpr q) rows), w1).
Proof.
  intros Hs Hf Hl. unfold bun_DB_selectLedger. rewrite Hs.
  destruct (tick_spec (select_text q) w) as (clk & scr & ->). rewrite Hf.
  cbn. rewrite Hl. eauto.
Qed.

(** X22. After a [Migrate] that succeeded, [GetAppliedMigrations], its two
    statements meeting no fault, lists the migrations that were in the
    ledger before together with those the call applied, each once, and
    leaves the database as it was. *)
Theorem Migrate_then_applied (ms : list Migration) (w w1 : World)
    (r1 : MigrationResult) :
  Migrate ms w = (Returned (inl r1), w1) ->
  calm 2 w1 ->
  exists res w2,
    GetAppliedMigrations w1 = (inl res, w2) /\
    map am_ID res ≡ₚ
      map row_id (ledger_rows (committed w)) ++ map am_ID (Applied r1) /\
    committed w2 = committed w1.
Proof.
  intros E Hcalm.
  destruct (Migrate_success _ _ _ _ E)
    as (w2 & r0 & El & Hr & _ & S2 & _ & L2 & _ & T2 & _).
  destruct (Migrate_loop_ok _ _ _ _ _ _ El)
    as (A1 & _ & _ & S1 & _ & (rows & Lr & Hrows) & _).
  pose proof (Migrate_loop_table _ _ _ _ _ _ El T2) as T1.
  assert (Hs1 : session w1 = None) by congruence.
  destruct (create_ledger_calm w1 Hs1 (calm_next _ _ Hcalm)) as (wa & Ea).
  destruct (create_ledger_facts _ _ _ Ea)
    as (Sa & _ & La & Ka & _ & _ & Ta & Ga & Scr).
  pose proof (calm_drop _ _ _ Hcalm Scr) as Hcalm'.
  assert (Hsa : session wa = None) by congruence.
  destruct (selectLedger_calm selectApplied wa _ Hsa (calm_next _ _ Hcalm') Ta)
    as (wb & Eb).
  destruct (selectLedger_facts _ _ _ _ Eb) as (Cb & _).
  unfold GetAppliedMigrations. rewrite Ea, Eb.
  eexists _, wb. split; [reflexivity|]. split.
  - rewrite map_map, order_by_selectApplied.
    change (map (fun x => am_ID (applied_of_row x)) ?l) with (map row_id l).
    change (row_id <$> sort_rows (ledger_rows (committed w1)) ≡ₚ
            map row_id (ledger_rows (committed w)) ++ map am_ID (Applied r1)).
    rewrite sort_rows_perm, Lr, L2, fmap_app.
    apply Permutation_app_head. rewrite Hr. cbn [Applied].
    change (row_id <$> rows) with (map row_id rows).
    rewrite Hrows, A1. reflexivity.
  - rewrite Cb. apply Ka, T1.
Qed.


(* --------------------------------------------------------------------- *)
(** ** Pagination and retries                                             *)
(* --------------------------------------------------------------------- *)


(** X23. [Paginate] appends a LIMIT and an OFFSET to the query. The limit
    is the size asked for when that is between 1 and 100, 20 when it is
    below 1 and 100 when it is above 100. The offset is
    [(page - 1) * limit] in 64-bit arithmetic, with pages below 1 read as
    1: for pages up to 2^63/100 that is the exact product, and not
    negative. *)
Theorem Paginate_bounds (page pageSize : Z) (q : SelectQuery) :
  - 2 ^ 63 <= page < 2 ^ 63 ->
  exists limit offset,
    Paginate page pageSize q = q ++ [QLimit limit; QOffset offset] /\
    1 <= limit <= 100 /\
    (pageSize < 1 -> limit = 20) /\
    (100 < pageSize -> limit = 100) /\
    (1 <= pageSize <= 100 -> limit = pageSize) /\
    offset = wrap64 ((Z.max 1 page - 1) * limit) /\
    (page <= 2 ^ 63 / 100 ->
     offset = (Z.max 1 page - 1) * limit /\ 0 <= offset).
Proof.
  intros Hp. unfold Paginate, DefaultPageSize, MaxPageSize.
  set (pg := if page <? 1 then 1 else page).
  set (ps0 := if pageSize <? 1 then 20 else pageSize).
  set (ps := if 100 <? ps0 then 100 else ps0).
  assert (Hps : 1 <= ps <= 100 /\ (pageSize < 1 -> ps = 20) /\
                (100 < pageSize -> ps = 100) /\
                (1 <= pageSize <= 100 -> ps = pageSize)).
  { unfold ps, ps0. destruct (pageSize <? 1) eqn:E2;
      [apply Z.ltb_lt in E2; cbn; lia|].
    apply Z.ltb_ge in E2. destruct (100 <? pageSize) eqn:E3;
      [apply Z.ltb_lt in E3 | apply Z.ltb_ge in E3]; lia. }
  assert (Hpg : 1 <= pg /\ pg = Z.max 1 page).
  { unfold pg. destruct (page <? 1) eqn:E1;
      [apply Z.ltb_lt in E1 | apply Z.ltb_ge in E1]; lia. }
  destruct Hps as (Hps1 & Hps2 & Hps3 & Hps4).
  destruct Hpg as [Hpg1 Hpg2].
  eexists _, _. split; [reflexivity|].
  split; [exact Hps1|]. split; [exact Hps2|]. split; [exact Hps3|].
  split; [exact Hps4|]. rewrite <- Hpg2.
  rewrite (wrap64_small (pg - 1)) by lia. split; [reflexivity|].
  change (2 ^ 63 / 100) with 92233720368547758. intros Hb.
  rewrite wrap64_small by nia. split; [reflexivity | nia].
Qed.

(** X24. The page [PaginateWithCount] returns is consistent with the count
    the database gave: the size is between 1 and 100, the page at least 1,
    [TotalPages] is the least number of pages of that size that hold
    [TotalItems] rows and at least 1, and [HasNextPage] and
    [HasPreviousPage] say whether the page lies before the last and after
    the first. *)
Theorem PaginateWithCount_meta {T : Type}
    (db_Count : SelectQuery -> Z + error)
    (db_Scan : SelectQuery -> list T + error)
    (page pageSize : Z) (queryFn : option (SelectQuery -> SelectQuery))
    (p : OffsetPage T) :
  PaginateWithCount db_Count db_Scan page pageSize queryFn = inl p ->
  0 <= TotalItems p < 2 ^ 62 ->
  1 <= PageSize p <= 100 /\ 1 <= Page p /\ Page p = Z.max 1 page /\
  1 <= TotalPages p /\
  (TotalPages p - 1) * PageSize p < Z.max 1 (TotalItems p)
    <= TotalPages p * PageSize p /\
  (HasNextPage (Page_Info p) = true <-> Page p < TotalPages p) /\
  (HasPreviousPage (Page_Info p) = true <-> 1 < Page p) /\
  TotalCount (Page_Info p) = TotalItems p.
Proof.
  unfold PaginateWithCount, DefaultPageSize, MaxPageSize.
  set (pg := if page <? 1 then 1 else page).
  set (ps0 := if pageSize <? 1 then 20 else pageSize).
  set (ps := if 100 <? ps0 then 100 else ps0).
  assert (Hps : 1 <= ps <= 100).
  { unfold ps, ps0. destruct (pageSize <? 1) eqn:E2;
      [|apply Z.ltb_ge in E2; destruct (100 <? pageSize) eqn:E3;
        [|apply Z.ltb_ge in E3]]; cbn; lia. }
  assert (Hpg : 1 <= pg /\ pg = Z.max 1 page).
  { unfold pg. destruct (page <? 1) eqn:E1;
      [apply Z.ltb_lt in E1 | apply Z.ltb_ge in E1]; lia. }
  destruct (db_Count _) as [total|e]; [|discriminate].
  destruct (db_Scan _) as [items|e]; [|discriminate].
  intros [= <-]. cbn [TotalItems PageSize Page TotalPages Page_Info
                      HasNextPage HasPreviousPage TotalCount].
  intros Ht.
  rewrite (wrap64_small (total + ps)) by lia.
  rewrite (wrap64_small (total + ps - 1)) by lia.
  rewrite Z.quot_div_nonneg by lia.
  set (tp0 := (total + ps - 1) / ps).
  assert (Hq : tp0 * ps <= total + ps - 1 < (tp0 + 1) * ps).
  { pose proof (Z.div_mod (total + ps - 1) ps ltac:(lia)) as D.
    pose proof (Z.mod_pos_bound (total + ps - 1) ps ltac:(lia)) as M.
    fold tp0 in D. nia. }
  set (tp := if tp0 <? 1 then 1 else tp0).
  assert (Htp : 1 <= tp /\ (tp0 < 1 -> tp = 1) /\ (1 <= tp0 -> tp = tp0)).
  { unfold tp. destruct (tp0 <? 1) eqn:E;
      [apply Z.ltb_lt in E | apply Z.ltb_ge in E]; lia. }
  split; [exact Hps|]. split; [apply Hpg|]. split; [apply Hpg|].
  split; [apply Htp|]. split.
  - destruct (Z.lt_ge_cases tp0 1) as [L|L].
    + replace tp with 1 by (symmetry; apply Htp; exact L). nia.
    + replace tp with tp0 by (symmetry; apply Htp; exact L). nia.
  - split; [apply Z.ltb_lt|]. split; [apply Z.ltb_lt | reflexivity].
Qed.

(** X25. [CursorPaginateResult] with a non-negative limit returns the first
    [limit] items, reversed when paging backward, and reports more rows,
    in the direction of travel only, exactly when it was given more than
    [limit] items; the cursors are those of the first and last item it
    returns, empty when it returns none. With a negative limit and any
    item it panics. *)
Theorem CursorPaginateResult_page {T : Type} (items : list T) (limit : Z)
    (forward : bool) (cursorFn : T -> string) :
  (0 <= limit ->
   exists out info,
     CursorPaginateResult items limit forward cursorFn
       = Returned (out, info) /\
     out = (if forward then take (Z.to_nat limit) items
            else reverse (take (Z.to_nat limit) items)) /\
     Z.of_nat (length out) <= limit /\
     HasNextPage info = forward && (limit <? Z.of_nat (length items)) /\
     HasPreviousPage info
       = negb forward && (limit <? Z.of_nat (length items)) /\
     StartCursor info = default "" (cursorFn <$> head out) /\
     EndCursor info = default "" (cursorFn <$> last out)) /\
  (limit < 0 -> items <> [] ->
   exists p, CursorPaginateResult items limit forward cursorFn = Panicked p).
Proof.
  split.
  - intros Hl. unfold CursorPaginateResult.
    assert (E0 : (limit <? 0) = false) by (apply Z.ltb_ge; lia).
    destruct items as [|x items'] eqn:Hi.
    + eexists _, _. split; [reflexivity|].
      rewrite take_nil. cbn [length]. change (Z.of_nat 0) with 0.
      rewrite E0, !andb_false_r.
      destruct forward; cbn; repeat split; lia.
    + rewrite <- Hi. clear Hi x items'.
      rewrite E0, andb_false_r.
      set (hasMore := limit <? Z.of_nat (length items)).
      assert (Ht : (if hasMore then take (Z.to_nat limit) items else items)
                   = take (Z.to_nat limit) items).
      { unfold hasMore. destruct (limit <? Z.of_nat (length items)) eqn:E;
          [reflexivity|]. apply Z.ltb_ge in E.
        symmetry. apply take_ge. lia. }
      rewrite Ht.
      assert (Hlen : Z.of_nat (length (take (Z.to_nat limit) items)) <= limit).
      { rewrite length_take. lia. }
      destruct forward; cbn [negb andb].
      * eexists _, _. split; [reflexivity|]. split; [reflexivity|].
        split; [exact Hlen|]. cbn.
        repeat split;
          match goal with
          | |- context [head ?l] => destruct (head l); reflexivity
          | |- context [last ?l] => destruct (last l); reflexivity
          end.
      * eexists _, _. split; [reflexivity|]. split; [reflexivity|].
        split; [rewrite length_reverse; exact Hlen|]. cbn.
        repeat split;
          match goal with
          | |- context [head ?l] => destruct (head l); reflexivity
          | |- context [last ?l] => destruct (last l); reflexivity
          end.
  - intros Hl Hne. unfold CursorPaginateResult.
    destruct items as [|x items']; [contradiction|].
    assert (E0 : (limit <? 0) = true) by (apply Z.ltb_lt; lia).
    assert (E1 : (limit <? Z.of_nat (length (x :: items'))) = true)
      by (apply Z.ltb_lt; lia).
    rewrite E0, E1. eexists. reflexivity.
Qed.

Lemma RetryOnConflict_loop_trace {St : Type} (n : nat)
    (fn : St -> option error * St) (lastErr : option error)
    (tr : list (option error)) (s : St) :
  IsConflict lastErr = true \/ (lastErr = None /\ tr = []) ->
  lastErr = default None (last tr) ->
  Forall (fun e => IsConflict e = true) tr ->
  exists r tr' s',
    RetryOnConflict_loop n (traced fn) lastErr (tr, s) = (r, (tr ++ tr', s')) /\
    (length tr' <= n)%nat /\
    r = default None (last (tr ++ tr')) /\
    Forall (fun e => IsConflict e = true) (removelast (tr ++ tr')) /\
    ((length tr' < n)%nat -> tr' <> [] /\ IsConflict r = false) /\
    (tr' = [] -> n = O).
Proof.
  revert lastErr tr s.
  induction n as [|n IH]; intros lastErr tr s Hc Hlast Hall.
  - exists lastErr, [], s. cbn. rewrite app_nil_r.
    split; [reflexivity|]. split; [lia|]. split; [exact Hlast|].
    split; [|split; [lia | reflexivity]].
    destruct tr as [|x tr] using rev_ind; [constructor|].
    rewrite removelast_last. apply Forall_app in Hall. apply Hall.
  - cbn [RetryOnConflict_loop]. unfold traced at 1.
    destruct (fn s) as [e s1] eqn:Hfn.
    assert (Hrl : Forall (fun e0 => IsConflict e0 = true)
                    (removelast (tr ++ [e]))).
    { rewrite removelast_last. exact Hall. }
    destruct e as [err|].
    + destruct (IsConflict (Some err)) eqn:Hic; cbn [negb].
      * destruct (IH (Some err) (tr ++ [Some err]) s1) as
          (r & tr' & s' & E & Hlen & Hr & Hf & Hlt & Hnil).
        { left. exact Hic. }
        { rewrite last_snoc. reflexivity. }
        { apply Forall_app. split; [exact Hall|]. constructor; auto. }
        exists r, (Some err :: tr'), s'.
        rewrite <- app_assoc in E, Hr, Hf. cbn [app] in E, Hr, Hf.
        split; [exact E|]. split; [cbn; lia|]. split; [exact Hr|].
        split; [exact Hf|]. split; [|discriminate].
        intros Hn. cbn in Hn.
        destruct tr' as [|y tr'].
        -- specialize (Hnil eq_refl). subst n. cbn in Hn. lia.
        -- destruct Hlt as [_ Hlt]; [cbn in *; lia|]. split; [discriminate|].
           exact Hlt.
      * exists (Some err), [Some err], s1.
        split; [reflexivity|]. split; [cbn; lia|].
        split; [rewrite last_snoc; reflexivity|].
        split; [exact Hrl|]. split; [|discriminate].
        intros _. split; [discriminate | exact Hic].
    + exists None, [None], s1.
      split; [reflexivity|]. split; [cbn; lia|].
      split; [rewrite last_snoc; reflexivity|].
      split; [exact Hrl|]. split; [|discriminate].
      intros _. split; [discriminate | reflexivity].
Qed.

(** X26. [RetryOnConflict] calls [fn] at most [maxRetries] times and returns
    what the last call returned: every call before the last returned a
    conflict, and it stops early only on nil or on an error that is no
    conflict. With [maxRetries] zero or negative it never calls [fn] and
    returns nil. *)
Theorem RetryOnConflict_attempts {St : Type} (maxRetries : Z)
    (fn : St -> option error * St) (s : St) :
  exists r tr s',
    RetryOnConflict maxRetries (traced fn) ([], s) = (r, (tr, s')) /\
    Z.of_nat (length tr) <= Z.max 0 maxRetries /\
    r = default None (last tr) /\
    Forall (fun e => IsConflict e = true) (removelast tr) /\
    (Z.of_nat (length tr) < maxRetries -> IsConflict r = false) /\
    (maxRetries <= 0 -> r = None /\ tr = [] /\ s' = s).
Proof.
  unfold RetryOnConflict.
  destruct (RetryOnConflict_loop_trace (Z.to_nat maxRetries) fn None [] s)
    as (r & tr & s' & E & Hlen & Hr & Hf & Hlt & Hnil); auto.
  cbn [app] in *. exists r, tr, s'.
  split; [exact E|]. split; [lia|]. split; [exact Hr|]. split; [exact Hf|].
  split.
  - intros H. apply Hlt. lia.
  - intros H. replace (Z.to_nat maxRetries) with O in * by lia.
    cbn in E. inversion E; subst. auto.
Qed.

(* --------------------------------------------------------------------- *)
(** ** No transaction is left open                                        *)
(* --------------------------------------------------------------------- *)

(** X27. [TransactionWithOptions] always ends the transaction it began,
    whatever the callback body does through the [Tx]: the last statement
    it sends is COMMIT when the callback returned nil and ROLLBACK when it
    returned an error or panicked, never COMMIT then, and no session is
    left open. *)
Theorem Transaction_ends (opts : TxOptions) (p : Prog) (w w1 : World)
    (h : nat) :
  BeginTx opts w = (inl h, w1) ->
  let body := run p (mkTx h 0 (length (cells w1))) (new_int64 0 w1).2 in
  let w' := (TransactionWithOptions opts (run p) w).2 in
  session w' = None /\
  log w' = log body.2 ++ [match body.1 with
                          | Returned None => "COMMIT"
                          | _ => "ROLLBACK"
                          end] /\
  (body.1 <> Returned None -> committed w' = committed w).
Proof.
  intros HB body w'.
  destruct (BeginTx_facts _ _ _ _ HB) as (_ & _ & Hc & _ & _ & Hs).
  set (tx := mkTx h 0 (length (cells w1))) in *.
  assert (Hl1 : is_Some (live (Tx_Tx tx) (new_int64 0 w1).2)).
  { unfold live, new_int64. cbn. rewrite Hs, Nat.eqb_refl. eauto. }
  destruct (run_keeps p tx _ Hl1) as (K1 & [s3 K2] & _).
  fold body in K1, K2.
  unfold w', TransactionWithOptions. rewrite HB.
  change (new_int64 0 w1) with (length (cells w1), (new_int64 0 w1).2).
  cbv iota beta. fold tx. fold body.
  destruct body as [[[err|]|v] w3] eqn:Hb; cbn [fst snd] in *.
  - pose proof (Tx_Rollback_effect tx w3) as (_ & R2 & _ & _ & R5).
    destruct (R5 s3 K2) as (R6 & R7).
    destruct (Tx_Rollback tx w3) as [[rbErr|] w4]; cbn [snd] in *;
      (split; [exact R6|]); (split; [rewrite R7; reflexivity|]);
      intros _; rewrite R2, K1; exact Hc.
  - pose proof (Tx_Commit_effect tx w3) as (_ & R5).
    destruct (R5 s3 K2) as (R6 & R7).
    destruct (Tx_Commit tx w3) as [[cErr|] w4]; cbn [snd] in *;
      (split; [exact R6|]); (split; [rewrite R7; reflexivity|]);
      intros H; contradiction.
  - pose proof (Tx_Rollback_effect tx w3) as (_ & R2 & _ & _ & R5).
    destruct (R5 s3 K2) as (R6 & R7).
    destruct (Tx_Rollback tx w3) as [rb w4]; cbn [snd] in *.
    split; [exact R6|]. split; [rewrite R7; reflexivity|].
    intros _. rewrite R2, K1. exact Hc.
Qed.

Lemma applyMigration_session (m : Migration) (c : string) (start : Z)
    (w : World) :
  session (applyMigration m c start w).2 = session w.
Proof.
  destruct (applyMigration_spec m c start w) as (res & w' & -> & S & _).
  exact S.
Qed.

Lemma Migrate_loop_session (applied : gmap string string)
    (ms : list Migration) (result : MigrationResult) (w : World) :
  session (Migrate_loop applied ms result w).2 = session w.
Proof.
  revert result w. induction ms as [|m ms IH]; intros result w; cbn;
    [reflexivity|].
  destruct (applied !! ID m) as [existing|].
  - destruct (negb (String.eqb existing (checksumSQL (SQL m))));
      [reflexivity | apply IH].
  - pose proof (applyMigration_session m (checksumSQL (SQL m)) (time_Now w) w)
      as S.
    destruct (applyMigration m (checksumSQL (SQL m)) (time_Now w) w)
      as [[[err|]|v] w1]; cbn [snd] in *; try exact S.
    rewrite IH. exact S.
Qed.

(** X28. [Migrate] leaves no transaction behind: whether it succeeds or
    stops at an error, the connection holds the same open session after
    the call as before it, none when it began with none. *)
Theorem Migrate_closes (ms : list Migration) (w : World) :
  session (Migrate ms w).2 = session w.
Proof.
  unfold Migrate.
  destruct (bun_DB_ExecContext migrationsTable w) as [r1 w1] eqn:E1.
  destruct (create_ledger_facts _ _ _ E1) as (S1 & _).
  destruct r1 as [e|]; [exact S1|].
  destruct (getAppliedMigrations w1) as [r2 w2] eqn:E2.
  destruct (getApplied_facts _ _ _ E2) as (_ & S2 & _).
  destruct r2 as [applied|e]; [|cbn; congruence].
  pose proof (Migrate_loop_session applied ms (mkMigrationResult [] [] 0) w2)
    as S3.
  destruct (Migrate_loop applied ms (mkMigrationResult [] [] 0) w2)
    as [[[r|e]|v] w3]; cbn [snd] in *; congruence.
Qed.

End Properties.

(* ===================================================================== *)
(** * The properties at work on the small platform                        *)
(* ===================================================================== *)

Import Demo.

(** Rollback on a handle that never began, and twice on an open one. *)
Lemma Rollback_idempotent_witness :
  live 0 empty_db = None /\
  Tx_Rollback tx0 empty_db = (None, empty_db) /\
  Tx_Rollback tx0 (Tx_Rollback tx0 opened).2
    = (None, (Tx_Rollback tx0 opened).2).
Proof.
  split; [reflexivity|]. split.
  - apply (proj1 (Rollback_idempotent tx0 empty_db)). reflexivity.
  - apply (Rollback_idempotent tx0 opened).
Defined.

(** W1, a nested scope that writes W2 and fails, W3, commit, on the empty
    database: W1 and W3 are persisted, the one savepoint is sp_1, and the
    scope alone leaves its parent open on the data it found. *)
Lemma Tx_Transaction_savepoints_witness :
  (exists w',
     Transaction (run nested_rollback) empty_db = (Returned None, w') /\
     committed w' = store ["W1"; "W3"] None /\
     log w' = ["BEGIN"; "W1"; "SAVEPOINT sp_1"; "W2";
               "ROLLBACK TO SAVEPOINT sp_1"; "W3"; "COMMIT"]) /\
  (exists a,
     savepoints_of (log (Transaction (run nested_rollback) empty_db).2) =
       map (fun j => "sp_" +:+ fmt_d (Z.of_nat j)) (seq 1 a) /\
     NoDup (map (fun j => "sp_" +:+ fmt_d (Z.of_nat j)) (seq 1 a))) /\
  (exists s s3 res w4,
     session opened = Some (0%nat, s) /\
     session (run failing_body (mkTx 0 1 0)
                (Tx_ExecContext tx0 "SAVEPOINT sp_1"
                   (atomic_AddInt64 0 1 opened).2).2).2 = Some (0%nat, s3) /\
     Tx_Transaction tx0 (run failing_body) opened = (Returned res, w4) /\
     res = Some boom /\
     session w4 =
       Some (0%nat,
             mkSession (options s) (work s) (("sp_1", work s) :: saves s)
               false)).
Proof.
  destruct (@Tx_Transaction_savepoints platform) as (Scope & Names & Isolation).
  split; [|split].
  - apply (Isolation "W1" "W2" "W3" boom empty_db ["W1"] ["W1"; "W3"]);
      reflexivity.
  - apply (Names DefaultTxOptions nested_rollback empty_db).
    + cbn. repeat split; auto.
    + reflexivity.
  - destruct (Scope tx0 failing_body opened
                (Tx_ExecContext tx0 "SAVEPOINT sp_1"
                   (atomic_AddInt64 0 1 opened).2).2
                (run failing_body (mkTx 0 1 0)
                   (Tx_ExecContext tx0 "SAVEPOINT sp_1"
                      (atomic_AddInt64 0 1 opened).2).2).2
                (Some boom))
      as (s & s3 & res & w4 & Hs & Hs3 & E & _ & _ & _ & _ & H).
    + split; [eexists; reflexivity | cbn; lia].
    + cbn. repeat split; auto.
    + reflexivity.
    + reflexivity.
    + reflexivity.
    + destruct (H eq_refl) as [Hres Hs4].
      exists s, s3, res, w4.
      split; [exact Hs|]. split; [exact Hs3|]. split; [exact E|].
      split; [exact Hres | exact Hs4].
Defined.

(** The callback fails and the connection is lost on ROLLBACK. *)
Lemma Transaction_callback_error_witness :
  exists rbErr w4,
    Tx_Rollback tx1 (run failing tx1 (new_int64 0 begun).2).2
      = (Some rbErr, w4) /\
    TransactionWithOptions DefaultTxOptions (run failing) lossy
      = (Returned (Some (rollback_failed rbErr boom)), w4) /\
    Unwrap (rollback_failed rbErr boom) = Some boom /\
    committed w4 = committed lossy /\
    log w4 = ["BEGIN"; "W1"; "ROLLBACK"].
Proof.
  destruct (Transaction_callback_error DefaultTxOptions (run failing) lossy
              begun (run failing tx1 (new_int64 0 begun).2).2 0 boom)
    as (rb & w4 & E & _ & _ & _ & Hp & R).
  - reflexivity.
  - reflexivity.
  - destruct (Hp failing eq_refl) as [C G].
    destruct rb as [rbErr|]; [|discriminate E].
    destruct R as (R1 & R2 & _).
    exists rbErr, w4. split; [exact E|]. split; [exact R1|].
    split; [exact R2|]. split; [exact C | exact G].
Defined.

(** The callback panics and the connection is lost on ROLLBACK. *)
Lemma Transaction_callback_panic_witness :
  exists rb w4,
    Tx_Rollback tx1 (run panicking tx1 (new_int64 0 begun).2).2 = (rb, w4) /\
    is_Some rb /\
    TransactionWithOptions DefaultTxOptions (run panicking) lossy
      = (Panicked "index out of range", w4) /\
    committed w4 = committed lossy /\
    log w4 = ["BEGIN"; "W1"; "ROLLBACK"].
Proof.
  destruct (Transaction_callback_panic DefaultTxOptions (run panicking) lossy
              begun (run panicking tx1 (new_int64 0 begun).2).2 0
              "index out of range")
    as (rb & w4 & E & R & _ & _ & _ & Hp).
  - reflexivity.
  - reflexivity.
  - destruct (Hp panicking eq_refl) as [C G].
    exists rb, w4. split; [exact E|]. split.
    + destruct rb; [eauto | discriminate E].
    + split; [exact R|]. split; [exact C | exact G].
Defined.

(** b_002 before a_001, as supplied. *)
Lemma Migrate_input_order_witness :
  map am_ID (Applied (result_of (Migrate [Mb; Ma] empty_db).1))
    = ["b_002"; "a_001"] /\
  log (Migrate [Mb; Ma] empty_db).2 =
    [migrationsTable; selectMigrations] ++ apply_log Mb ++ apply_log Ma.
Proof.
  destruct (Migrate_input_order [Mb; Ma] empty_db (Migrate [Mb; Ma] empty_db).2
              (result_of (Migrate [Mb; Ma] empty_db).1))
    as (A & _ & G & _).
  - vm_compute; reflexivity.
  - split; [rewrite A | rewrite G]; vm_compute; reflexivity.
Defined.

(** m1 was applied; its SQL is changed. *)
Lemma Migrate_checksum_drift_witness :
  exists e,
    Migrate [M1'; M3] db1 = (Returned (inr e), (Migrate [] db1).2) /\
    contains "m1" (error_string e) /\
    ledger_rows (committed (Migrate [] db1).2) = ledger_rows (committed db1).
Proof.
  destruct (Migrate_checksum_drift [] [M3] M1' db1 (Migrate [] db1).2
              (result_of (Migrate [] db1).1) (@checksumSQL platform (SQL M1)))
    as (e & E & H1 & _ & _ & added & _).
  - vm_compute; reflexivity.
  - vm_compute; reflexivity.
  - intros H. vm_compute in H. discriminate H.
  - exists e. split; [exact E|]. split; [exact H1 | vm_compute; reflexivity].
Defined.

(** The same list twice. *)
Lemma Migrate_idempotent_witness :
  exists t w2,
    Migrate [M1; M3] (Migrate [M1; M3] empty_db).2
      = (Returned (inl (mkMigrationResult [] ["m1"; "m3"] t)), w2) /\
    committed w2 = committed (Migrate [M1; M3] empty_db).2.
Proof.
  destruct (Migrate_idempotent [M1; M3] empty_db (Migrate [M1; M3] empty_db).2
              (result_of (Migrate [M1; M3] empty_db).1))
    as (_ & t & w2 & E & C & _).
  - vm_compute; reflexivity.
  - unfold calm. vm_compute. constructor.
  - exists t, w2. split; [exact E | exact C].
Defined.

(** M1 valid, M2 invalid, M3 valid: only M1 is there afterwards. *)
Lemma Migrate_failure_contained_witness :
  exists err w2,
    Migrate [M1; M2; M3] empty_db = (Returned (inr err), w2) /\
    committed w2 = committed (Migrate [M1] empty_db).2 /\
    user (committed (Migrate [M1] empty_db).2) = ["CREATE TABLE users"] /\
    map row_id (ledger_rows (committed (Migrate [M1] empty_db).2)) = ["m1"].
Proof.
  destruct (Migrate_failure_contained [M1] [M3] M2 empty_db
              (Migrate [M1] empty_db).2
              (result_of (Migrate [M1] empty_db).1))
    as (res & w2 & _ & _ & Hsql & _ & R).
  - vm_compute; reflexivity.
  - vm_compute; reflexivity.
  - destruct res as [err|].
    + destruct R as [C E]. exists err, w2.
      split; [exact E|]. split; [exact C|]. split; vm_compute; reflexivity.
    + exfalso.
      apply (Hsql (pg_err "42601" "syntax error")); vm_compute; reflexivity.
Defined.

(** The kind of the error of a changed migration; and a callback that
    fails with the connection lost on ROLLBACK: the composite has the kind
    of the callback's error, which has none. *)
Lemma error_kinds_witness :
  (exists e,
     Migrate [M1'] db1 = (Returned (inr e), (Migrate [] db1).2) /\
     GetErrorCode e = Some CodeUnknown) /\
  (exists e w',
     TransactionWithOptions DefaultTxOptions (run failing) lossy
       = (Returned (Some e), w') /\
     GetErrorCode e = GetErrorCode boom).
Proof.
  destruct (@error_kinds platform)
    as (_ & _ & _ & _ & _ & Runner & _ & Drift).
  split.
  - destruct (Drift [] [] M1' db1 (Migrate [] db1).2
                (result_of (Migrate [] db1).1)
                (@checksumSQL platform (SQL M1)))
      as (e & E & K & _).
    + vm_compute; reflexivity.
    + vm_compute; reflexivity.
    + intros H. vm_compute in H. discriminate H.
    + exists e. split; [exact E | exact K].
  - destruct (Runner DefaultTxOptions (run failing) lossy
                (TransactionWithOptions DefaultTxOptions (run failing) lossy).2
                (rollback_failed
                   (wrapError1 (errorString "connection lost") "Rollback")
                   boom))
      as [K | (tx & w0 & w1 & err & _ & _ & K)].
    + vm_compute; reflexivity.
    + vm_compute in K. destruct K as [c K]. discriminate K.
    + eexists _, _. split; [vm_compute; reflexivity|]. reflexivity.
Defined.

(** The status of a database that has its ledger table. *)
Lemma MigrationStatus_ledger_witness :
  is_Some (ledger (committed db1)) /\
  committed (MigrationStatus [M1; M3] db1).2 = committed db1.
Proof.
  assert (H : is_Some (ledger (committed db1)))
    by (eexists; vm_compute; reflexivity).
  split; [exact H|].
  apply (MigrationStatus_ledger [M1; M3] db1). exact H.
Defined.

(** C8, against the claim. An error the system builds with no kind at
    all: the callback fails with an error of its own and the connection is
    lost on ROLLBACK, and the composite [TransactionWithOptions] returns
    has no error code. And the error of a changed migration is of the
    kind [CodeUnknown]. *)
Lemma unclassified_composite_and_unknown_drift :
  (exists rbErr w',
     TransactionWithOptions DefaultTxOptions (run failing) lossy
       = (Returned (Some (rollback_failed rbErr boom)), w') /\
     GetErrorCode (rollback_failed rbErr boom) = None) /\
  (exists d w',
     Migrate [M1'] db1 = (Returned (inr (dbError d)), w') /\
     Code d = CodeUnknown /\
     GetErrorCode (dbError d) = Some CodeUnknown).
Proof.
  split.
  - exists (wrapError1 (errorString "connection lost") "Rollback").
    eexists. split; [vm_compute; reflexivity | reflexivity].
  - eexists _, _. split; [vm_compute; reflexivity|]. split; reflexivity.
Qed.

(** C9, against the claim: on a database without the ledger table,
    [MigrationStatus] leaves one behind. *)
Lemma MigrationStatus_creates_ledger_table :
  ledger (committed empty_db) = None /\
  ledger (committed (MigrationStatus [] empty_db).2) = Some [] /\
  committed (MigrationStatus [] empty_db).2 <> committed empty_db.
Proof.
  split; [reflexivity|]. split; [vm_compute; reflexivity|].
  intros H. vm_compute in H. discriminate H.
Qed.

(* ===================================================================== *)
(** * The further properties at work                                      *)
(* ===================================================================== *)

(** A wrapped error wrapped again, and nil. *)
Lemma wrapError_idempotent_witness :
  wrapError (wrapError (Some ErrNoRows) "FindByID") "Transaction.Commit"
    = wrapError (Some ErrNoRows) "FindByID" /\
  wrapError None "FindByID" = None.
Proof.
  split.
  - apply (wrapError_idempotent (Some ErrNoRows) "FindByID" "Transaction.Commit").
  - apply (proj2 (wrapError_idempotent None "FindByID" "")). reflexivity.
Defined.

(** [sql.ErrTxDone] under a [fmt.Errorf] message, before and after wrapping. *)
Lemma wrapError_keeps_cause_witness :
  errors_Is (Some (wrapErr "commit: tx done" ErrTxDone)) ErrTxDone = true /\
  errors_Is (wrapError (Some (wrapErr "commit: tx done" ErrTxDone)) "Commit")
    ErrTxDone = true.
Proof.
  split; [reflexivity|].
  apply (wrapError_keeps_cause (Some (wrapErr "commit: tx done" ErrTxDone))
           ErrTxDone "Commit").
  - intros m i H. discriminate H.
  - reflexivity.
Defined.

(** A duplicate-key error under a [fmt.Errorf] message. *)
Lemma wrapError_drops_wrapper_witness :
  errors_Is
    (wrapError (Some (wrapErr "insert user" (pgError pg_duplicate_ledger)))
       "Create")
    (wrapErr "insert user" (pgError pg_duplicate_ledger)) = false /\
  IsDuplicate
    (wrapError (Some (wrapErr "insert user" (pgError pg_duplicate_ledger)))
       "Create") = true.
Proof.
  destruct (wrapError_drops_wrapper "insert user" "Create" pg_duplicate_ledger)
    as (_ & _ & _ & H).
  - intros E. discriminate E.
  - split; [exact H | reflexivity].
Defined.

(** A duplicate-key error, as a [*pgconn.PgError]. *)
Lemma Is_agrees_with_code_witness :
  foreign (pgError pg_duplicate_ledger) = true /\
  errors_Is (wrapError (Some (pgError pg_duplicate_ledger)) "Migrate.Record")
    ErrDuplicate = true.
Proof.
  split; [reflexivity|].
  apply (proj2 (Is_agrees_with_code (pgError pg_duplicate_ledger)
                  "Migrate.Record" CodeDuplicate ErrDuplicate
                  eq_refl eq_refl)).
  reflexivity.
Defined.

(** [sql.ErrNoRows] is not found; under a message of its own it is not. *)
Lemma IsNotFound_by_text_witness :
  IsNotFound (wrapError (Some ErrNoRows) "FindByID") = true /\
  IsNotFound (wrapError (Some (wrapErr "load user: no rows" ErrNoRows))
                "FindByID") = false.
Proof.
  split.
  - apply (proj2 (IsNotFound_by_text ErrNoRows "FindByID" eq_refl)).
    reflexivity.
  - apply not_true_is_false. intros H.
    apply (proj1 (IsNotFound_by_text (wrapErr "load user: no rows" ErrNoRows)
                    "FindByID" eq_refl)) in H.
    discriminate H.
Defined.

(** The duplicate-key error of the ledger, and a serialization failure. *)
Lemma pgError_checks_witness :
  IsDuplicate (wrapError (Some (pgError pg_duplicate_ledger)) "Create") = true /\
  IsRetryable (wrapError (Some (pgError (pg_err "40001" "could not serialize")))
                 "Update") = true.
Proof.
  split.
  - apply (pgError_checks pg_duplicate_ledger "Create"). reflexivity.
  - apply (pgError_checks (pg_err "40001" "could not serialize") "Update").
    left. reflexivity.
Defined.

(** A failed insert, through [WithErr]. *)
Lemma QueryResult_consistent_witness :
  QueryResult_HasError (WithErr 0 (Some (pgError pg_duplicate_ledger)) "Create")
    = true /\
  QueryResult_Err (WithErr 0 (Some (pgError pg_duplicate_ledger)) "Create")
    <> None.
Proof.
  split; [reflexivity|].
  apply (QueryResult_consistent 0 (Some (pgError pg_duplicate_ledger)) "Create").
  reflexivity.
Defined.

(** Commit on a handle that never began, and twice on an open one. *)
Lemma Commit_after_done_witness :
  live 0 empty_db = None /\
  Tx_Commit tx0 empty_db = (Some (wrapError1 ErrTxDone "Commit"), empty_db) /\
  Tx_Commit tx0 (Tx_Commit tx0 opened).2
    = (Some (wrapError1 ErrTxDone "Commit"), (Tx_Commit tx0 opened).2).
Proof.
  split; [reflexivity|]. split.
  - apply (proj1 (Commit_after_done tx0 empty_db)). reflexivity.
  - apply (Commit_after_done tx0 opened).
Defined.

Lemma Transaction_commits_witness :
  exists w4,
    Transaction (run writes) empty_db = (Returned None, w4) /\
    committed w4 = store ["W1"] None /\
    log w4 = ["BEGIN"; "W1"; "COMMIT"].
Proof.
  destruct (Transaction_commits DefaultTxOptions (run writes) empty_db
              (BeginTx DefaultTxOptions empty_db).2
              (run writes tx0 opened).2 0
              (mkSession DefaultTxOptions (store ["W1"] None) [] false))
    as (res & w4 & E & _ & G & M).
  - reflexivity.
  - reflexivity.
  - reflexivity.
  - change (next_fault (run writes tx0 opened).2) with (@None error) in M.
    destruct M as [-> C]. exists w4. split; [exact E|].
    split; [exact (C eq_refl) | exact G].
Defined.

(** The connection is lost on BEGIN. *)
Lemma Transaction_begin_fails_witness :
  exists e w',
    Transaction (run writes) (scripted [lost]) = (Returned (Some e), w') /\
    GetErrorCode e = Some CodeUnknown /\
    log w' = ["BEGIN"] /\ committed w' = committed (scripted [lost]).
Proof.
  destruct (Transaction_begin_fails DefaultTxOptions (run writes)
              (scripted [lost]) (errorString "connection lost"))
    as (w' & E & G & C & _).
  - reflexivity.
  - eexists _, w'. split; [exact E|]. split; [reflexivity|].
    split; [exact G | exact C].
Defined.

(** A savepoint around W1, a failing nested scope and W3. *)
Lemma Savepoint_bracket_witness :
  exists w3,
    Tx_RollbackTo tx0 "before_import"
      (run nested_rollback tx0 (Tx_Savepoint tx0 "before_import" opened).2).2
      = (None, w3) /\
    session w3 =
      Some (0%nat,
            mkSession DefaultTxOptions (store [] None)
              [("before_import", store [] None)] false).
Proof.
  destruct (Savepoint_bracket tx0 "before_import" nested_rollback opened
              (mkSession DefaultTxOptions (store [] None) [] false))
    as (_ & s2 & _ & (w3 & E & _ & S3) & _).
  - split; [eexists; reflexivity | cbn; lia].
  - reflexivity.
  - reflexivity.
  - reflexivity.
  - cbn. repeat split; auto.
  - reflexivity.
  - reflexivity.
  - exists w3. split; [exact E | exact S3].
Defined.

(** A name that was never a savepoint. *)
Lemma RollbackTo_unknown_witness :
  exists e w',
    Tx_RollbackTo tx0 "nowhere" opened = (Some (dbError e), w') /\
    Code e = CodeUnknown /\
    session w' =
      Some (0%nat, mkSession DefaultTxOptions (store [] None) [] true).
Proof.
  destruct (RollbackTo_unknown tx0 "nowhere" opened
              (mkSession DefaultTxOptions (store [] None) [] false))
    as (e & w' & E & K & _ & _ & _ & _ & _ & _ & S & _).
  - reflexivity.
  - cbn. set_solver.
  - reflexivity.
  - exists e, w'. split; [exact E|]. split; [exact K | exact S].
Defined.

(** A nested transaction on a scope that was rolled back. *)
Lemma Tx_Transaction_done_witness :
  exists e w1,
    Tx_Transaction tx0 (run writes) (Tx_Rollback tx0 opened).2
      = (Returned (Some e), w1) /\
    errors_Is (Some e) ErrTxDone = true /\
    log w1 = ["BEGIN"; "ROLLBACK"] /\ cells w1 = [1].
Proof.
  destruct (Tx_Transaction_done tx0 (run writes) (Tx_Rollback tx0 opened).2)
    as (E & I & G & _).
  - reflexivity.
  - eexists _, _. split; [exact E|]. split; [exact I|].
    split; [rewrite G|]; vm_compute; reflexivity.
Defined.

(** Begin, W1 and the nested scopes, then Rollback. *)
Lemma Begin_Rollback_discards_witness :
  Begin empty_db = (inl tx0, opened) /\
  committed (Tx_Rollback tx0 (run nested_rollback tx0 opened).2).2
    = committed empty_db /\
  session (Tx_Rollback tx0 (run nested_rollback tx0 opened).2).2 = None.
Proof.
  assert (B : Begin empty_db = (inl tx0, opened)) by reflexivity.
  split; [exact B|].
  destruct (Begin_Rollback_discards DefaultTxOptions nested_rollback empty_db
              opened tx0 B) as (C & S & _).
  split; [exact C | exact S].
Defined.

(** A statement of 300 bytes, and a short one. *)
Lemma truncateSQL_bound_witness :
  truncateSQL "SELECT 1" 200 = "SELECT 1" /\
  (String.length (truncateSQL (pad 300 "SELECT") 200) <= 203)%nat.
Proof.
  split.
  - apply (truncateSQL_bound "SELECT 1" 200). cbn. lia.
  - apply (truncateSQL_bound (pad 300 "SELECT") 200).
Defined.

(** The stand-in digest has 32 bytes. *)
Lemma checksumSQL_exact_witness :
  String.length (@checksumSQL platform "CREATE TABLE users") = 64%nat /\
  (64 <? String.length (@checksumSQL platform "CREATE TABLE users"))%nat
    = false.
Proof.
  destruct (@checksumSQL_exact platform "CREATE TABLE users"
              "CREATE TABLE users") as (_ & L & F).
  split; [rewrite L; reflexivity|]. apply F. reflexivity.
Defined.

(** m1 applied and then changed, m3 pending. *)
Lemma MigrationStatus_entries_witness :
  exists e1 e3 w',
    MigrationStatus [M1'; M3] db1 = (inl [e1; e3], w') /\
    se_Applied e1 = true /\ se_ChecksumMatch e1 = false /\
    se_Applied e3 = false /\ se_ChecksumMatch e3 = false /\
    map se_ID [e1; e3] = ["m1"; "m3"].
Proof.
  destruct (MigrationStatus_entries [M1'; M3] db1
              (MigrationStatus [M1'; M3] db1).2
              (map (@status_entry platform (ledger_map (committed db1))) [M1'; M3]))
    as (I & _).
  - vm_compute; reflexivity.
  - eexists _, _, _. split; [vm_compute; reflexivity|].
    split; [reflexivity|]. split; [reflexivity|]. split; [reflexivity|].
    split; [reflexivity|]. exact I.
Defined.

(** Migrate, then ask for the status. *)
Lemma Migrate_then_status_witness :
  exists w2,
    MigrationStatus [M1; M3] (Migrate [M1; M3] empty_db).2 =
      (inl (map (fun m =>
                   mkMigrationStatusEntry (ID m) (Description m)
                     (@checksumSQL platform (SQL m)) true true) [M1; M3]),
       w2) /\
    committed w2 = committed (Migrate [M1; M3] empty_db).2.
Proof.
  apply (Migrate_then_status [M1; M3] empty_db (Migrate [M1; M3] empty_db).2
           (result_of (Migrate [M1; M3] empty_db).1)).
  - vm_compute; reflexivity.
  - unfold calm. vm_compute. constructor.
Defined.

(** The ledger after two migrations, read back. *)
Lemma GetAppliedMigrations_ledger_witness :
  exists res w',
    GetAppliedMigrations (Migrate [M1; M3] empty_db).2 = (inl res, w') /\
    map am_ID res = ["m1"; "m3"] /\
    Sorted Z.le (map am_AppliedAt res) /\
    ledger_rows (committed w')
      = ledger_rows (committed (Migrate [M1; M3] empty_db).2).
Proof.
  destruct (GetAppliedMigrations_ledger (Migrate [M1; M3] empty_db).2
              (GetAppliedMigrations (Migrate [M1; M3] empty_db).2).2
              (map applied_of_row
                 (sort_rows
                    (ledger_rows (committed (Migrate [M1; M3] empty_db).2)))))
    as (_ & S & L & _).
  - vm_compute; reflexivity.
  - eexists _, _. split; [vm_compute; reflexivity|].
    split; [vm_compute; reflexivity|]. split; [exact S | exact L].
Defined.

(** m1 was there, m3 is applied by the call. *)
Lemma Migrate_then_applied_witness :
  exists res w2,
    GetAppliedMigrations (Migrate [M1; M3] db1).2 = (inl res, w2) /\
    map am_ID res ≡ₚ ["m1"; "m3"] /\
    committed w2 = committed (Migrate [M1; M3] db1).2.
Proof.
  destruct (Migrate_then_applied [M1; M3] db1
              (Migrate [M1; M3] db1).2
              (result_of (Migrate [M1; M3] db1).1))
    as (res & w2 & E & Pm & C).
  - vm_compute; reflexivity.
  - unfold calm. vm_compute. constructor.
  - exists res, w2. split; [exact E|]. split; [exact Pm | exact C].
Defined.

(** m1 twice in one list. *)
Lemma Migrate_duplicate_id_witness :
  exists e w2,
    Migrate [M1; M1; M3] empty_db = (Returned (inr e), w2) /\
    committed w2 = committed (Migrate [M1] empty_db).2 /\
    is_Some (GetErrorCode e).
Proof.
  destruct (Migrate_duplicate_id [] [M3] M1 M1 empty_db
              (Migrate [M1] empty_db).2
              (result_of (Migrate [M1] empty_db).1))
    as (e & w2 & E & C & K & _).
  - vm_compute; reflexivity.
  - vm_compute; reflexivity.
  - reflexivity.
  - exists e, w2. split; [exact E|]. split; [exact C | exact K].
Defined.

(** Page 3 of size 10, and sizes out of range on either side. *)
Lemma Paginate_bounds_witness :
  Paginate 3 10 [QModel] = [QModel; QLimit 10; QOffset 20] /\
  Paginate 3 1000 [QModel] = [QModel; QLimit 100; QOffset 200] /\
  Paginate 3 0 [QModel] = [QModel; QLimit 20; QOffset 40].
Proof.
  split; [reflexivity|]. split.
  - destruct (Paginate_bounds 3 1000 [QModel])
      as (l & o & E & _ & _ & L & _ & _ & O); [lia|].
    rewrite E, (L ltac:(lia)).
    destruct O as [-> _]; [vm_compute; discriminate|].
    rewrite (L ltac:(lia)). reflexivity.
  - destruct (Paginate_bounds 3 0 [QModel])
      as (l & o & E & _ & L & _ & _ & _ & O); [lia|].
    rewrite E, (L ltac:(lia)).
    destruct O as [-> _]; [vm_compute; discriminate|].
    rewrite (L ltac:(lia)). reflexivity.
Defined.

(** 45 rows in pages of 20, page 2. *)
Lemma PaginateWithCount_meta_witness :
  exists p,
    PaginateWithCount (fun _ => inl 45) (fun _ => inl ["row"]) 2 20 None
      = inl p /\
    TotalPages p = 3 /\ HasNextPage (Page_Info p) = true /\
    (TotalPages p - 1) * PageSize p < Z.max 1 (TotalItems p)
      <= TotalPages p * PageSize p.
Proof.
  eexists. split; [reflexivity|]. split; [reflexivity|].
  split; [reflexivity|].
  apply (PaginateWithCount_meta (fun _ => inl 45) (fun _ => inl ["row"]) 2 20
           None).
  - reflexivity.
  - cbn. lia.
Defined.

(** Three rows fetched for a limit of two, paging backward. *)
Lemma CursorPaginateResult_page_witness :
  exists info,
    CursorPaginateResult ["c"; "b"; "a"] 2 false (fun x => x)
      = Returned (["b"; "c"], info) /\
    HasPreviousPage info = true /\ HasNextPage info = false /\
    StartCursor info = "b" /\ EndCursor info = "c".
Proof.
  destruct (CursorPaginateResult_page ["c"; "b"; "a"] 2 false (fun x => x))
    as (Pg & _).
  destruct Pg as (out & info & E & -> & _ & N & Pv & S & En); [lia|].
  exists info. split; [exact E|]. split; [exact Pv|]. split; [exact N|].
  split; [exact S | exact En].
Defined.

(** Two conflicts, then success; and no retries at all. *)
Lemma RetryOnConflict_attempts_witness :
  RetryOnConflict 5 (traced flaky) ([], 0%nat)
    = (None, ([Some ErrConflict; Some ErrConflict; None], 3%nat)) /\
  RetryOnConflict 0 (traced flaky) ([], 0%nat) = (None, ([], 0%nat)).
Proof.
  split; [reflexivity|].
  destruct (RetryOnConflict_attempts 0 flaky 0%nat)
    as (r & tr & s' & E & _ & _ & _ & _ & Z0).
  destruct Z0 as (-> & -> & ->); [lia|]. exact E.
Defined.

(** The callback panics: ROLLBACK is the last statement. *)
Lemma Transaction_ends_witness :
  session (Transaction (run panicking) empty_db).2 = None /\
  log (Transaction (run panicking) empty_db).2 = ["BEGIN"; "W1"; "ROLLBACK"] /\
  committed (Transaction (run panicking) empty_db).2 = committed empty_db.
Proof.
  destruct (Transaction_ends DefaultTxOptions panicking empty_db
              (BeginTx DefaultTxOptions empty_db).2 0 eq_refl)
    as (S & G & C).
  split; [exact S|]. split; [exact G|]. apply C. discriminate.
Defined.
